(** * Community-management backend: hierarchy validation, role cascade,
      audit error path, sensitive-operation rate limiter, account lockout.

    A shallow embedding of the JavaScript sources
      - utils/validation    ([validateHierarchy]),
      - models/District, Sector, Cell, IntoreGroup (the [pre('save')] hooks),
      - models/User         ([isLocked], [incLoginAttempts], [resetLoginAttempts]),
      - models/AuditLog     ([auditLogSchema], [logAction]),
      - middleware/errorHandler ([errorHandler]),
      - middleware/auth     ([rateLimitSensitive]).

    Modelling conventions.
      - Object identifiers are strings (the form [toString()] prints).
      - A collection is a finite map from identifier to document. On an
        identifier that is an ObjectId already (type [Id], such as a
        reference held by a document) [findById] is the lookup of that map.
        In [validateHierarchy], where [findById] is handed request
        arguments (plain strings), the query first casts the argument to an
        ObjectId and rejects with a CastError when that fails
        ([Validation.findById]).
      - [save()] runs the schema validation and then the [pre('save')]
        hooks, in the order they are registered.
      - An optional JavaScript value ([undefined]/[null] or a value) is an
        [option]; [!x] on a request argument is JavaScript falsiness.
      - Time ([Date.now()], a [Date] field) is an integer of milliseconds. *)

From stdpp Require Import gmap strings list fin_maps pretty.
From Stdlib Require Import ZArith Lia.

Local Open Scope string_scope.

(** ** Identifiers and JavaScript truthiness *)

Abbreviation Id := string.

(** [!!x] for a request argument that is either absent or a string: the empty
    string is falsy, as are [undefined] and [null]. *)
Definition truthy (x : option string) : bool :=
  match x with
  | Some s => negb (String.eqb s "")
  | None => false
  end.

(** [x.toString()] for a truthy argument. *)
Definition toString (x : option string) : string := default "" x.

(** White space and line terminators among the code units below 256: tab,
    line feed, vertical tab, form feed, carriage return, space and the
    no-break space. *)
Definition is_whitespace (c : Ascii.ascii) : bool :=
  let n := Ascii.nat_of_ascii c in
  (Nat.leb 9 n && Nat.leb n 13) || Nat.eqb n 32 || Nat.eqb n 160.

Fixpoint trimStart (s : string) : string :=
  match s with
  | String c rest => if is_whitespace c then trimStart rest else s
  | EmptyString => EmptyString
  end.

(** [s.trimEnd()]: a white-space character is dropped when nothing but
    white space follows it. *)
Fixpoint trimEnd (s : string) : string :=
  match s with
  | String c rest =>
      match trimEnd rest with
      | EmptyString => if is_whitespace c then EmptyString
                       else String c EmptyString
      | kept => String c kept
      end
  | EmptyString => EmptyString
  end.

(** [s.trim()] *)
Definition trim (s : string) : string := trimEnd (trimStart s).

(** ** Persisted documents

    [findById] returns documents that went through the schema, so the
    references the schema declares [required] are plain fields. *)

Record District := mkDistrict {
  district_code : string;
  district_admin : option Id
}.

Record Sector := mkSector {
  sector_code : string;
  sector_district : Id;
  sector_admin : option Id
}.

Record Cell := mkCell {
  cell_code : string;
  cell_sector : Id;
  cell_district : Id;
  cell_admin : option Id
}.

Record Hierarchy := mkHierarchy {
  h_district : option Id;
  h_sector : option Id;
  h_cell : option Id
}.

Record User := mkUser {
  role : string;
  hierarchy : Hierarchy;
  intoreGroup : option Id;
  loginAttempts : Z;
  lockUntil : option Z
}.

Record DB := mkDB {
  districts : gmap string District;
  sectors : gmap string Sector;
  cells : gmap string Cell;
  users : gmap string User
}.

(** [Model.findById(id)] for an identifier that is an ObjectId, such as a
    reference read from a document: the lookup of the collection; nothing is
    found for an unset identifier. *)
Definition findById {A} (coll : gmap string A) (id : option string) : option A :=
  match id with
  | Some s => coll !! s
  | None => None
  end.

(** ** utils/validation: [validateHierarchy] *)

Module Validation.

Record Result := mkResult {
  isValid : bool;
  errors : list string
}.

Definition finish (errors : list string) : Result :=
  {| isValid := Nat.eqb (length errors) 0; errors := errors |}.

(** [errors.push(msg)] *)
Definition push (errors : list string) (msg : string) : list string :=
  errors ++ [msg].

(** The promise of a query or of an async function: the value it resolves
    to, or the name of the error it rejects with. *)
Inductive Async (A : Type) : Type :=
| Resolves (a : A)
| Rejects (error : string).
Arguments Resolves {A} a.
Arguments Rejects {A} error.

(** [const x = await p; k x] inside an async function without try/catch. *)
Definition await {A B} (p : Async A) (k : A -> Async B) : Async B :=
  match p with
  | Resolves a => k a
  | Rejects e => Rejects e
  end.

(** Twenty-four hexadecimal digits: the strings that every version of the
    driver casts to an ObjectId. *)
Definition is_hex (c : Ascii.ascii) : bool :=
  let n := Ascii.nat_of_ascii c in
  (Nat.leb 48 n && Nat.leb n 57) || (Nat.leb 65 n && Nat.leb n 70)
  || (Nat.leb 97 n && Nat.leb n 102).

Definition hex24 (s : string) : bool :=
  Nat.eqb (String.length s) 24
  && forallb is_hex (String.list_ascii_of_string s).

Section Queries.
(** Which strings the driver casts to an ObjectId. Twenty-four hexadecimal
    digits always are; some versions also take any string of twelve
    characters. *)
Variable isObjectId : string -> bool.

(** [Model.findById(id)] on a request argument: the query rejects with a
    CastError when the argument is not cast to an ObjectId. *)
Definition findById {A} (coll : gmap string A) (id : string)
    : Async (option A) :=
  if isObjectId id then Resolves (coll !! id) else Rejects "CastError".

Definition check_district (db : DB) (districtId : option string)
    (errors : list string) : Async (list string) :=
  if negb (truthy districtId) then
    Resolves (push errors "District admin must be assigned to a district.")
  else
    await (findById (districts db) (toString districtId)) (fun district =>
      match district with
      | None => Resolves (push errors "Invalid district ID.")
      | Some _ => Resolves errors
      end).

Definition check_sector (db : DB) (districtId sectorId : option string)
    (errors : list string) : Async (list string) :=
  if negb (truthy districtId) || negb (truthy sectorId) then
    Resolves
      (push errors "Sector admin must be assigned to a district and sector.")
  else
    await (findById (sectors db) (toString sectorId)) (fun sector =>
      match sector with
      | None =>
          Resolves (push errors
            "Invalid sector or sector does not belong to the specified district.")
      | Some sector =>
          if negb (String.eqb (sector_district sector) (toString districtId)) then
            Resolves (push errors
              "Invalid sector or sector does not belong to the specified district.")
          else Resolves errors
      end).

Definition check_cell (missing : string) (db : DB)
    (districtId sectorId cellId : option string)
    (errors : list string) : Async (list string) :=
  if negb (truthy districtId) || negb (truthy sectorId) || negb (truthy cellId) then
    Resolves (push errors missing)
  else
    await (findById (cells db) (toString cellId)) (fun cell =>
      match cell with
      | None =>
          Resolves (push errors
            "Invalid cell or cell does not belong to the specified sector and district.")
      | Some cell =>
          if negb (String.eqb (cell_sector cell) (toString sectorId))
             || negb (String.eqb (cell_district cell) (toString districtId)) then
            Resolves (push errors
              "Invalid cell or cell does not belong to the specified sector and district.")
          else Resolves errors
      end).

Definition validateHierarchy (db : DB) (role : string)
    (districtId sectorId cellId : option string) : Async Result :=
  let errors := [] in
  if String.eqb role "super_admin" then
    Resolves {| isValid := true; errors := errors |}
  else
    await (if String.eqb role "district_admin"
           then check_district db districtId errors
           else Resolves errors) (fun errors =>
    await (if String.eqb role "sector_admin"
           then check_sector db districtId sectorId errors
           else Resolves errors) (fun errors =>
    await (if String.eqb role "cell_admin"
           then check_cell
                  "Cell admin must be assigned to a district, sector, and cell."
                  db districtId sectorId cellId errors
           else Resolves errors) (fun errors =>
    await (if String.eqb role "member"
           then check_cell
                  "Member must be assigned to a district, sector, and cell."
                  db districtId sectorId cellId errors
           else Resolves errors) (fun errors =>
    Resolves (finish errors))))).
End Queries.


(** The five roles the validator has a branch for. *)
Definition handled_roles : list string :=
  ["super_admin"; "district_admin"; "sector_admin"; "cell_admin"; "member"].


(** [userSchema.hierarchy.district.required] *)
Definition hierarchy_district_required (role : string) : bool :=
  negb (String.eqb role "super_admin").

End Validation.

(** ** The persistence library, as far as the hooks use it *)

Module Mongoose.

(** What a middleware hands to [next]: nothing, or an error that aborts the
    save. *)
Inductive Next (A : Type) : Type :=
| Proceed (a : A)
| Abort (err : string).
Arguments Proceed {A} a.
Arguments Abort {A} err.

Definition and_then {A B} (n : Next A) (k : A -> Next B) : Next B :=
  match n with
  | Proceed a => k a
  | Abort e => Abort e
  end.

(** How [save()] ends before the document is written: the schema validation
    refused the document (a ValidationError carrying the validators'
    messages, in the order of the schema's paths), a hook handed an error to
    [next], or validation and every hook passed and the document goes to
    the driver to be written. *)
Inductive Saved (A : Type) : Type :=
| ToDriver (a : A)
| ValidationError (errors : list string)
| HookError (err : string).
Arguments ToDriver {A} a.
Arguments ValidationError {A} errors.
Arguments HookError {A} err.

(** *** Schema validators

    Each yields the message of the failed validator, or nothing. *)

(** [required: [true, msg]] *)
Definition required (msg : string) (present : bool) : list string :=
  if present then [] else [msg].

(** [enum: [...]]: an unset path passes. *)
Definition in_enum (path : string) (enum : list string) (v : option string)
    : list string :=
  match v with
  | Some s =>
      if bool_decide (s ∈ enum) then []
      else ["`" ++ s ++ "` is not a valid enum value for path `" ++ path ++ "`."]
  | None => []
  end.

(** [maxlength: n]: an unset path passes. *)
Definition maxlength (path : string) (n : nat) (v : option string) : list string :=
  match v with
  | Some s =>
      if Nat.leb (String.length s) n then []
      else ["Path `" ++ path ++ "` (`" ++ s
            ++ "`) is longer than the maximum allowed length ("
            ++ pretty n ++ ")."]
  | None => []
  end.

(** [min: n] on a whole number: an unset path passes. *)
Definition min_value (path : string) (n : Z) (v : option Z) : list string :=
  match v with
  | Some x =>
      if Z.leb n x then []
      else ["Path `" ++ path ++ "` (" ++ pretty x
            ++ ") is less than minimum allowed value (" ++ pretty n ++ ")."]
  | None => []
  end.

(** The validators of one path run in order and the path reports the first
    that fails. *)
Fixpoint first_failure (results : list (list string)) : list string :=
  match results with
  | [] => []
  | [] :: rest => first_failure rest
  | failed :: _ => failed
  end.

(** [this.isModified(path)] over the paths the document tracks as modified. *)
Definition isModified (modifiedPaths : list string) (path : string) : bool :=
  bool_decide (path ∈ modifiedPaths).

(** An update document [{ path: value, ... }] on a User; a value may be
    [undefined] when it was read from an unset field. *)
Definition UpdateDoc : Type := list (string * option string).

Definition set_h_district (v : option Id) (h : Hierarchy) : Hierarchy :=
  {| h_district := v; h_sector := h_sector h; h_cell := h_cell h |}.
Definition set_h_sector (v : option Id) (h : Hierarchy) : Hierarchy :=
  {| h_district := h_district h; h_sector := v; h_cell := h_cell h |}.
Definition set_h_cell (v : option Id) (h : Hierarchy) : Hierarchy :=
  {| h_district := h_district h; h_sector := h_sector h; h_cell := v |}.

Definition set_role (r : string) (u : User) : User :=
  {| role := r; hierarchy := hierarchy u; intoreGroup := intoreGroup u;
     loginAttempts := loginAttempts u; lockUntil := lockUntil u |}.
Definition set_hierarchy (h : Hierarchy) (u : User) : User :=
  {| role := role u; hierarchy := h; intoreGroup := intoreGroup u;
     loginAttempts := loginAttempts u; lockUntil := lockUntil u |}.
Definition set_intoreGroup (g : option Id) (u : User) : User :=
  {| role := role u; hierarchy := hierarchy u; intoreGroup := g;
     loginAttempts := loginAttempts u; lockUntil := lockUntil u |}.

(** Assignment of one path of the User schema. *)
Definition assign (path : string) (v : option string) (u : User) : User :=
  if String.eqb path "role" then
    match v with Some r => set_role r u | None => u end
  else if String.eqb path "hierarchy.district" then
    set_hierarchy (set_h_district v (hierarchy u)) u
  else if String.eqb path "hierarchy.sector" then
    set_hierarchy (set_h_sector v (hierarchy u)) u
  else if String.eqb path "hierarchy.cell" then
    set_hierarchy (set_h_cell v (hierarchy u)) u
  else if String.eqb path "intoreGroup" then
    set_intoreGroup v u
  else u.

Section Update.
(** Whether the library drops keys whose value is [undefined] from an
    update (it does in recent versions) or writes them as [null]. *)
Variable omitUndefined : bool.

Definition apply_entry (u : User) (entry : string * option string) : User :=
  match snd entry with
  | None => if omitUndefined then u else assign (fst entry) None u
  | Some v => assign (fst entry) (Some v) u
  end.

Definition apply_update (upd : UpdateDoc) (u : User) : User :=
  foldl apply_entry u upd.

(** [User.findByIdAndUpdate(id, upd).exec()]: the user [id] is updated when
    it exists; nothing happens otherwise. The hooks do not wait for the
    query and ignore its outcome. *)
Definition findByIdAndUpdate (id : Id) (upd : UpdateDoc)
    (coll : gmap string User) : gmap string User :=
  alter (apply_update upd) id coll.
End Update.

Definition with_users (db : DB) (us : gmap string User) : DB :=
  {| districts := districts db; sectors := sectors db; cells := cells db;
     users := us |}.

End Mongoose.

Import Mongoose.

(** ** models/District: [districtSchema.pre('save')] *)

Module DistrictModel.

Record Doc := mkDoc {
  _id : Id;
  admin : option Id;
  isNew : bool;
  modifiedPaths : list string
}.

Section Hooks.
Variable omitUndefined : bool.

Definition pre_save (this : Doc) (db : DB) : Next (Doc * DB) :=
  if isModified (modifiedPaths this) "admin" then
    match admin this with
    | Some adminId =>
        Proceed (this,
          with_users db
            (findByIdAndUpdate omitUndefined adminId
               [("role", Some "district_admin");
                ("hierarchy.district", Some (_id this))]
               (users db)))
    | None => Proceed (this, db)
    end
  else Proceed (this, db).
End Hooks.

End DistrictModel.

(** ** models/Sector: [sectorSchema.pre('save')] *)

Module SectorModel.

Record Doc := mkDoc {
  _id : Id;
  district : option Id;
  admin : option Id;
  isNew : bool;
  modifiedPaths : list string
}.

Section Hooks.
Variable omitUndefined : bool.

Definition pre_save (this : Doc) (db : DB) : Next (Doc * DB) :=
  if isModified (modifiedPaths this) "admin" then
    match admin this with
    | Some adminId =>
        Proceed (this,
          with_users db
            (findByIdAndUpdate omitUndefined adminId
               [("role", Some "sector_admin");
                ("hierarchy.district", district this);
                ("hierarchy.sector", Some (_id this))]
               (users db)))
    | None => Proceed (this, db)
    end
  else Proceed (this, db).
End Hooks.

End SectorModel.

(** ** models/Cell: the two [cellSchema.pre('save')] hooks, in the order
       they are registered *)

Module CellModel.

(** A Cell document: the two references and the admin the hooks read, and
    the other paths that [cellSchema] validates. String paths hold what the
    schema's setters ([trim], [uppercase]) left. *)
Record Doc := mkDoc {
  _id : Id;
  name : option string;
  code : option string;
  description : option string;
  sector : option Id;
  district : option Id;
  location_address : option string;
  population : option Z;
  status : option string;
  admin : option Id;
  isNew : bool;
  modifiedPaths : list string
}.

Definition set_district (v : option Id) (this : Doc) : Doc :=
  {| _id := _id this; name := name this; code := code this;
     description := description this; sector := sector this; district := v;
     location_address := location_address this;
     population := population this; status := status this;
     admin := admin this; isNew := isNew this;
     modifiedPaths := modifiedPaths this |}.

Definition status_enum : list string := ["active"; "inactive"; "pending"].

(** Validation of a document against [cellSchema], path by path. *)
Definition validate (this : Doc) : list string :=
  (first_failure [required "Cell name is required" (truthy (name this));
                  maxlength "name" 100 (name this)]
   ++ first_failure [required "Cell code is required" (truthy (code this));
                     maxlength "code" 10 (code this)]
   ++ maxlength "description" 500 (description this)
   ++ required "Sector is required" (bool_decide (is_Some (sector this)))
   ++ required "District is required" (bool_decide (is_Some (district this)))
   ++ maxlength "location.address" 200 (location_address this)
   ++ min_value "population" 0 (population this)
   ++ in_enum "status" status_enum (status this))%list.

Section Hooks.
Variable omitUndefined : bool.

(** Pre-save middleware to update admin role and hierarchy. *)
Definition pre_save_admin (this : Doc) (db : DB) : Next (Doc * DB) :=
  if isModified (modifiedPaths this) "admin" then
    match admin this with
    | Some adminId =>
        Proceed (this,
          with_users db
            (findByIdAndUpdate omitUndefined adminId
               [("role", Some "cell_admin");
                ("hierarchy.district", district this);
                ("hierarchy.sector", sector this);
                ("hierarchy.cell", Some (_id this))]
               (users db)))
    | None => Proceed (this, db)
    end
  else Proceed (this, db).

(** Pre-save middleware to update district and sector references. *)
Definition pre_save_hierarchy (this : Doc) (db : DB) : Next (Doc * DB) :=
  if isNew this then
    match sector this with
    | Some _ =>
        match findById (sectors db) (sector this) with
        | Some sector =>
            Proceed (set_district (Some (sector_district sector)) this, db)
        | None => Proceed (this, db)
        end
    | None => Proceed (this, db)
    end
  else Proceed (this, db).

(** The two hooks, in the order they are registered. *)
Definition pre_save (this : Doc) (db : DB) : Next (Doc * DB) :=
  and_then (pre_save_admin this db)
    (fun st => pre_save_hierarchy (fst st) (snd st)).

(** [cell.save()], up to the write: the validation the library registers
    ahead of every [pre('save')] hook of the schema, then the two hooks. The
    hooks do not run on a document that validation refuses, and the
    document is not validated again after them. The write itself, and the
    unique index the database checks then, come after. *)
Definition save (this : Doc) (db : DB) : Saved (Doc * DB) :=
  match validate this with
  | [] =>
      match pre_save this db with
      | Proceed st => ToDriver st
      | Abort err => HookError err
      end
  | errors => ValidationError errors
  end.
End Hooks.

End CellModel.

(** ** models/IntoreGroup: the two [intoreGroupSchema.pre('save')] hooks *)

Module IntoreGroupModel.

(** An IntoreGroup document: the leader and the three references the hooks
    read, and the other paths that [intoreGroupSchema] validates. *)
Record Doc := mkDoc {
  _id : Id;
  name : option string;
  code : option string;
  description : option string;
  type : option string;
  status : option string;
  leader : option Id;
  cell : option Id;
  sector : option Id;
  district : option Id;
  isNew : bool;
  modifiedPaths : list string
}.

Definition set_sector_district (s d : option Id) (this : Doc) : Doc :=
  {| _id := _id this; name := name this; code := code this;
     description := description this; type := type this;
     status := status this; leader := leader this; cell := cell this;
     sector := s; district := d; isNew := isNew this;
     modifiedPaths := modifiedPaths this |}.

Definition type_enum : list string :=
  ["dance"; "music"; "storytelling"; "craft"; "agriculture";
   "traditional_knowledge"].

Definition status_enum : list string := ["active"; "inactive"; "pending"].

(** Validation of a document against [intoreGroupSchema], path by path. *)
Definition validate (this : Doc) : list string :=
  (first_failure [required "Intore group name is required" (truthy (name this));
                  maxlength "name" 100 (name this)]
   ++ first_failure [required "Intore group code is required" (truthy (code this));
                     maxlength "code" 10 (code this)]
   ++ maxlength "description" 1000 (description this)
   ++ first_failure [required "Intore group type is required" (truthy (type this));
                     in_enum "type" type_enum (type this)]
   ++ in_enum "status" status_enum (status this)
   ++ required "Cell is required" (bool_decide (is_Some (cell this)))
   ++ required "Sector is required" (bool_decide (is_Some (sector this)))
   ++ required "District is required" (bool_decide (is_Some (district this))))%list.

Section Hooks.
Variable omitUndefined : bool.

(** Pre-save middleware to update leader role. *)
Definition pre_save_leader (this : Doc) (db : DB) : Next (Doc * DB) :=
  if isModified (modifiedPaths this) "leader" then
    match leader this with
    | Some leaderId =>
        Proceed (this,
          with_users db
            (findByIdAndUpdate omitUndefined leaderId
               [("intoreGroup", Some (_id this))]
               (users db)))
    | None => Proceed (this, db)
    end
  else Proceed (this, db).

(** Pre-save middleware to update hierarchy references. *)
Definition pre_save_hierarchy (this : Doc) (db : DB) : Next (Doc * DB) :=
  if isNew this then
    match cell this with
    | Some _ =>
        match findById (cells db) (cell this) with
        | Some cell =>
            Proceed (set_sector_district (Some (cell_sector cell))
                       (Some (cell_district cell)) this, db)
        | None => Proceed (this, db)
        end
    | None => Proceed (this, db)
    end
  else Proceed (this, db).

(** The two hooks, in the order they are registered. *)
Definition pre_save (this : Doc) (db : DB) : Next (Doc * DB) :=
  and_then (pre_save_leader this db)
    (fun st => pre_save_hierarchy (fst st) (snd st)).

(** [group.save()], up to the write: the validation the library registers
    ahead of every [pre('save')] hook of the schema, then the two hooks. The
    write itself, and the unique index on [code] the database checks then,
    come after. *)
Definition save (this : Doc) (db : DB) : Saved (Doc * DB) :=
  match validate this with
  | [] =>
      match pre_save this db with
      | Proceed st => ToDriver st
      | Abort err => HookError err
      end
  | errors => ValidationError errors
  end.
End Hooks.

End IntoreGroupModel.

(** ** models/AuditLog: [auditLogSchema] and [logAction] *)

Module AuditLog.

(** An audit entry. [resourceId] and [performedBy] are ObjectIds (or
    unset). *)
Record Doc := mkDoc {
  action : option string;
  resourceType : option string;
  resourceId : option Id;
  performedBy : option Id;
  before : option string;
  after : option string;
  changes : option string;
  metadata : list (string * option string);
  severity : string;
  description : string;
  ipAddress : option string;
  userAgent : option string
}.

Definition resourceType_enum : list string :=
  ["user"; "district"; "sector"; "cell"; "intore_group"; "activity"; "media";
   "attendance"; "chat"; "notification"; "report"; "cultural_content"].

Definition severity_enum : list string :=
  ["info"; "warning"; "error"; "critical"].

(** What the schema's setters make of the values handed to the model:
    [trim: true] on [action] and on [resourceType]. *)
Definition cast (doc : Doc) : Doc :=
  {| action := trim <$> action doc;
     resourceType := trim <$> resourceType doc;
     resourceId := resourceId doc; performedBy := performedBy doc;
     before := before doc; after := after doc; changes := changes doc;
     metadata := metadata doc; severity := severity doc;
     description := description doc; ipAddress := ipAddress doc;
     userAgent := userAgent doc |}.

(** Validation of a document against [auditLogSchema], path by path. *)
Definition validate (doc : Doc) : list string :=
  (first_failure [required "Action is required" (truthy (action doc));
                  maxlength "action" 100 (action doc)]
   ++ first_failure [required "Resource type is required"
                       (truthy (resourceType doc));
                     in_enum "resourceType" resourceType_enum (resourceType doc)]
   ++ required "Resource ID is required" (bool_decide (is_Some (resourceId doc)))
   ++ required "Performer is required" (bool_decide (is_Some (performedBy doc)))
   ++ in_enum "severity" severity_enum (Some (severity doc))
   ++ maxlength "description" 500 (Some (description doc)))%list.

(** A settled promise. *)
Inductive Promise (A : Type) : Type :=
| Resolved (a : A)
| Rejected (reason : list string).
Arguments Resolved {A} a.
Arguments Rejected {A} reason.

(** [AuditLog.create(doc)]: the document is built from the values given,
    which runs the setters; it is appended when it passes the schema and the
    promise rejects with the validation error otherwise. *)
Definition create (doc : Doc) (log : list Doc) : Promise (list Doc) :=
  let doc := cast doc in
  match validate doc with
  | [] => Resolved (log ++ [doc])%list
  | errs => Rejected errs
  end.

Definition logAction (action : string) (resourceType : string)
    (resourceId : option Id) (performedBy : option Id)
    (before after changes : option string)
    (metadata : list (string * option string)) (severity description : string)
    (ipAddress userAgent : option string) (log : list Doc)
    : Promise (list Doc) :=
  create {| action := Some action; resourceType := Some resourceType;
            resourceId := resourceId; performedBy := performedBy;
            before := before; after := after; changes := changes;
            metadata := metadata; severity := severity;
            description := description; ipAddress := ipAddress;
            userAgent := userAgent |} log.

End AuditLog.

(** ** middleware/errorHandler: [errorHandler] *)

Module ErrorHandler.

(** [err.code] is a number for the database driver and a string for the
    upload library. *)
Inductive Code := CodeNum (n : Z) | CodeStr (s : string).

(** A message is a string, or the list of validator messages. *)
Inductive Message := Msg (s : string) | Msgs (l : list string).

Record Err := mkErr {
  name : string;
  code : option Code;
  message : option Message;
  statusCode : option Z;
  stack : option string;
  errors : option (list string)
}.

Record Req := mkReq {
  user : option Id;
  originalUrl : string;
  method : string;
  ip : option string;
  get_User_Agent : option string
}.

Record Response := mkResponse {
  status : Z;
  success : bool;
  body_message : Message;
  body_stack : option string
}.

(** The local [error] object: the two properties the handler reads back. *)
Record ErrorView := mkView {
  view_message : option Message;
  view_statusCode : option Z
}.

Definition code_is_num (c : option Code) (n : Z) : bool :=
  match c with Some (CodeNum m) => Z.eqb m n | _ => false end.
Definition code_is_str (c : option Code) (s : string) : bool :=
  match c with Some (CodeStr t) => String.eqb t s | _ => false end.

Definition override (cond : bool) (m : Message) (st : Z) (error : ErrorView)
    : ErrorView :=
  if cond then {| view_message := Some m; view_statusCode := Some st |} else error.

(** The chain of [if]s that normalises the error. Nothing comes back when
    [Object.values(err.errors)] throws, which it does for a ValidationError
    that carries no [errors] object. *)
Definition normalise (err : Err) : option ErrorView :=
  let error := {| view_message := message err; view_statusCode := statusCode err |} in
  let error := override (String.eqb (name err) "CastError")
                 (Msg "Resource not found") 404 error in
  let error := override (code_is_num (code err) 11000)
                 (Msg "Duplicate field value entered") 400 error in
  error ←
    (if String.eqb (name err) "ValidationError" then
       match errors err with
       | Some messages =>
           Some {| view_message := Some (Msgs messages);
                   view_statusCode := Some 400%Z |}
       | None => None
       end
     else Some error);
  let error := override (String.eqb (name err) "JsonWebTokenError")
                 (Msg "Invalid token") 401 error in
  let error := override (String.eqb (name err) "TokenExpiredError")
                 (Msg "Token has expired") 401 error in
  let error := override (code_is_str (code err) "LIMIT_FILE_SIZE")
                 (Msg "File too large") 400 error in
  let error := override (code_is_str (code err) "LIMIT_UNEXPECTED_FILE")
                 (Msg "Unexpected file field") 400 error in
  Some error.

(** [error.statusCode || 500] *)
Definition status_or_500 (error : ErrorView) : Z :=
  match view_statusCode error with
  | Some 0%Z | None => 500
  | Some st => st
  end.

(** [error.message || 'Server Error'] *)
Definition message_or_default (error : ErrorView) : Message :=
  match view_message error with
  | Some (Msg "") | None => Msg "Server Error"
  | Some m => m
  end.

(** [res.status(...).json(...)] for a normalised error. *)
Definition respond (development : bool) (err : Err) (error : ErrorView)
    : Response :=
  {| status := status_or_500 error;
     success := false;
     body_message := message_or_default error;
     body_stack := if development then stack err else None |}.

(** The response built from the normalised error: what the client is meant to
    receive for [err]. *)
Definition response_for (development : bool) (err : Err) : option Response :=
  respond development err <$> normalise err.

(** How a run of the handler ends: a response was sent, or the handler's
    promise rejected before [res.status(...).json(...)] was reached. *)
Inductive Outcome :=
| Sent (r : Response)
| Unhandled (reason : list string).

Definition message_text (m : option Message) : option string :=
  match m with
  | Some (Msg s) => Some s
  | Some (Msgs l) => Some (String.concat "," l)
  | None => None
  end.

Definition errorHandler (development : bool) (err : Err) (req : Req)
    (log : list AuditLog.Doc) : Outcome * list AuditLog.Doc :=
  match normalise err with
  | None => (Unhandled ["Cannot convert undefined or null to object"], log)
  | Some error =>
      match user req with
      | Some userId =>
          match
            AuditLog.logAction "ERROR" "system" None (Some userId) None None None
              [("errorMessage", message_text (message err));
               ("stack", stack err);
               ("url", Some (originalUrl req));
               ("method", Some (method req));
               ("userAgent", get_User_Agent req);
               ("ipAddress", ip req)]
              "error" "System error occurred"
              (ip req) (get_User_Agent req) log
          with
          | AuditLog.Resolved log' => (Sent (respond development err error), log')
          | AuditLog.Rejected reason => (Unhandled reason, log)
          end
      | None => (Sent (respond development err error), log)
      end
  end.

End ErrorHandler.

(** ** middleware/auth: [rateLimitSensitive] *)

Module Auth.

(** String conversion of an operand of [+]. *)
Definition js_string (x : option string) : string := default "undefined" x.

(** [req.ip + req.user?._id || 'anonymous'] *)
Definition request_key (ip userId : option string) : string :=
  match ip, userId with
  | None, None => "anonymous"
  | _, _ =>
      let k := js_string ip ++ js_string userId in
      if String.eqb k "" then "anonymous" else k
  end.

Inductive Decision :=
| Passed
| Rejected (status : Z).

(** One call of the middleware on the closure's [requests] map. *)
Definition rateLimitSensitive (windowMs max : Z)
    (requests : gmap string (list Z)) (key : string) (now : Z)
    : Decision * gmap string (list Z) :=
  let windowStart := (now - windowMs)%Z in
  let requests :=
    match requests !! key with
    | None => <[key := []]> requests
    | Some _ => requests
    end in
  let userRequests := default [] (requests !! key) in
  let validRequests := List.filter (fun time => Z.gtb time windowStart) userRequests in
  if Z.geb (Z.of_nat (length validRequests)) max then
    (Rejected 429, requests)
  else
    (Passed, <[key := (validRequests ++ [now])%list]> requests).

(** The timestamps the map holds for a key (none when the key is absent). *)
Definition stored (requests : gmap string (list Z)) (key : string) : list Z :=
  default [] (requests !! key).

(** A request as the limiter sees it: its key and the clock when it arrives. *)
Definition Request : Type := string * Z.

(** The middleware over a sequence of requests, from a given map: the
    decisions, in order, and the final map. *)
Fixpoint serve (windowMs max : Z) (requests : gmap string (list Z))
    (reqs : list Request) : list Decision * gmap string (list Z) :=
  match reqs with
  | [] => ([], requests)
  | (key, now) :: rest =>
      let '(d, requests') := rateLimitSensitive windowMs max requests key now in
      let '(ds, final) := serve windowMs max requests' rest in
      (d :: ds, final)
  end.

(** The timestamps of the requests of [key] that were admitted. *)
Fixpoint passed_times (key : string) (reqs : list Request)
    (ds : list Decision) : list Z :=
  match reqs, ds with
  | (k, now) :: reqs', Passed :: ds' =>
      if String.eqb k key then now :: passed_times key reqs' ds'
      else passed_times key reqs' ds'
  | _ :: reqs', _ :: ds' => passed_times key reqs' ds'
  | _, _ => []
  end.

(** Number of timestamps in the window [(t - windowMs, t]]. *)
Definition in_window (windowMs t : Z) (time : Z) : bool :=
  Z.gtb time (t - windowMs) && Z.leb time t.

Definition count_in_window (windowMs t : Z) (times : list Z) : Z :=
  Z.of_nat (length (List.filter (in_window windowMs t) times)).

(** Whether [time] is later than the cut [c]. *)
Definition later_than (c : Z) (time : Z) : bool := Z.gtb time c.

(** [validRequests]: the stored timestamps of [key] that are still inside
    the window when the clock shows [now]. *)
Definition validRequests (windowMs : Z) (requests : gmap string (list Z))
    (key : string) (now : Z) : list Z :=
  List.filter (later_than (now - windowMs)) (stored requests key).

(** What the limiter keeps about one key, against the timestamps [H] it has
    admitted for that key so far, when the clock has reached [last]: the
    stored list [L] agrees with [H] on every cut that is not older than the
    window, no admitted timestamp is in the future, every window holds at
    most [max] admitted timestamps, and at most [max] are stored. *)
Record limiter_inv (windowMs max last : Z) (H L : list Z) : Prop := {
  inv_agree : forall c, (last - windowMs <= c)%Z ->
      List.filter (later_than c) L = List.filter (later_than c) H;
  inv_past : forall x, In x H -> (x <= last)%Z;
  inv_bound : forall t, (count_in_window windowMs t H <= max)%Z;
  inv_size : (Z.of_nat (length L) <= max)%Z
}.

(** The clock does not go backwards over the sequence. *)
Fixpoint clock_monotone (last : Z) (reqs : list Request) : Prop :=
  match reqs with
  | [] => True
  | (_, now) :: rest => (last <= now)%Z /\ clock_monotone now rest
  end.

(** The clock after the sequence. *)
Fixpoint last_clock (last : Z) (reqs : list Request) : Z :=
  match reqs with
  | [] => last
  | (_, now) :: rest => last_clock now rest
  end.

End Auth.

(** ** models/User: account lock *)

Module UserModel.

(** Virtual [isLocked], read when the clock shows [now]. *)
Definition isLocked (this : User) (now : Z) : bool :=
  match lockUntil this with
  | Some t => Z.gtb t now
  | None => false
  end.

(** The operators of an update: [$set], [$unset], [$inc] on the two paths
    the methods touch. *)
Record Update := mkUpdate {
  set_loginAttempts : option Z;
  set_lockUntil : option Z;
  unset_lockUntil : bool;
  inc_loginAttempts : option Z
}.

(** [this.updateOne(update)] on the stored document. *)
Definition updateOne (upd : Update) (u : User) : User :=
  let attempts :=
    match set_loginAttempts upd with
    | Some n => n
    | None => loginAttempts u
    end in
  let attempts :=
    match inc_loginAttempts upd with
    | Some k => (attempts + k)%Z
    | None => attempts
    end in
  let lock :=
    match set_lockUntil upd with
    | Some t => Some t
    | None => lockUntil u
    end in
  let lock := if unset_lockUntil upd then None else lock in
  {| role := role u; hierarchy := hierarchy u; intoreGroup := intoreGroup u;
     loginAttempts := attempts; lockUntil := lock |}.

Definition lock_time : Z := 2 * 60 * 60 * 1000.

(** [this.lockUntil && this.lockUntil < Date.now()] *)
Definition lock_expired (this : User) (now : Z) : bool :=
  match lockUntil this with
  | Some t => Z.ltb t now
  | None => false
  end.

(** The update [incLoginAttempts] sends. *)
Definition incLoginAttempts_update (this : User) (now : Z) : Update :=
  if lock_expired this now then
    {| set_loginAttempts := Some 1%Z; set_lockUntil := None;
       unset_lockUntil := true; inc_loginAttempts := None |}
  else
    let updates :=
      {| set_loginAttempts := None; set_lockUntil := None;
         unset_lockUntil := false; inc_loginAttempts := Some 1%Z |} in
    if Z.geb (loginAttempts this + 1) 5 && negb (isLocked this now) then
      {| set_loginAttempts := set_loginAttempts updates;
         set_lockUntil := Some (now + lock_time)%Z;
         unset_lockUntil := unset_lockUntil updates;
         inc_loginAttempts := inc_loginAttempts updates |}
    else updates.

Definition incLoginAttempts (this : User) (now : Z) : User :=
  updateOne (incLoginAttempts_update this now) this.

Definition resetLoginAttempts (this : User) : User :=
  updateOne {| set_loginAttempts := Some 0%Z; set_lockUntil := None;
               unset_lockUntil := true; inc_loginAttempts := None |} this.

End UserModel.

(** ** A small instance: one district, one sector, one cell, one user

    The identifiers of the stored documents are written as readable names;
    [registry] below holds the same hierarchy under identifiers in the form
    of an ObjectId, for the functions that cast their arguments. *)

Module Sample.

Definition member_user : User :=
  {| role := "member";
     hierarchy := {| h_district := Some "d-gasabo"; h_sector := Some "s-remera";
                     h_cell := Some "c-rukiri" |};
     intoreGroup := None; loginAttempts := 0; lockUntil := None |}.

Definition district_kgl : District :=
  {| district_code := "KGL"; district_admin := None |}.

Definition sector_nya : Sector :=
  {| sector_code := "NYA"; sector_district := "d-kgl"; sector_admin := None |}.

Definition cell_c1 : Cell :=
  {| cell_code := "C1"; cell_sector := "s-nya"; cell_district := "d-kgl";
     cell_admin := None |}.

Definition db : DB :=
  {| districts := {[ "d-kgl" := district_kgl ]};
     sectors := {[ "s-nya" := sector_nya ]};
     cells := {[ "c-c1" := cell_c1 ]};
     users := {[ "u1" := member_user ]} |}.

(** A new Cell under sector NYA, created without a district. *)
Definition new_cell : CellModel.Doc :=
  {| CellModel._id := "c-new"; CellModel.name := Some "Cell One";
     CellModel.code := Some "C1"; CellModel.description := Some "";
     CellModel.sector := Some "s-nya"; CellModel.district := None;
     CellModel.location_address := None; CellModel.population := Some 0%Z;
     CellModel.status := Some "pending"; CellModel.admin := None;
     CellModel.isNew := true;
     CellModel.modifiedPaths := ["name"; "code"; "sector"] |}.

(** A new Cell under sector NYA with admin [u1], created with a district
    that is not the district of NYA. *)
Definition mismatched_cell : CellModel.Doc :=
  {| CellModel._id := "c-new"; CellModel.name := Some "Cell Two";
     CellModel.code := Some "C2"; CellModel.description := Some "";
     CellModel.sector := Some "s-nya"; CellModel.district := Some "d-other";
     CellModel.location_address := None; CellModel.population := Some 0%Z;
     CellModel.status := Some "pending"; CellModel.admin := Some "u1";
     CellModel.isNew := true;
     CellModel.modifiedPaths := ["name"; "code"; "sector"; "district"; "admin"] |}.

(** A new Cell with admin [u1], created with district KGL under a sector
    that does not exist. *)
Definition orphan_cell : CellModel.Doc :=
  {| CellModel._id := "c-new"; CellModel.name := Some "Cell Three";
     CellModel.code := Some "C3"; CellModel.description := Some "";
     CellModel.sector := Some "s-missing"; CellModel.district := Some "d-kgl";
     CellModel.location_address := None; CellModel.population := Some 0%Z;
     CellModel.status := Some "pending"; CellModel.admin := Some "u1";
     CellModel.isNew := true;
     CellModel.modifiedPaths := ["name"; "code"; "sector"; "district"; "admin"] |}.

(** A new IntoreGroup under cell C1 led by [u1], created with only the cell
    reference. *)
Definition new_group : IntoreGroupModel.Doc :=
  {| IntoreGroupModel._id := "g-new";
     IntoreGroupModel.name := Some "Inganzo"; IntoreGroupModel.code := Some "ING";
     IntoreGroupModel.description := Some "";
     IntoreGroupModel.type := Some "dance";
     IntoreGroupModel.status := Some "pending";
     IntoreGroupModel.leader := Some "u1";
     IntoreGroupModel.cell := Some "c-c1"; IntoreGroupModel.sector := None;
     IntoreGroupModel.district := None; IntoreGroupModel.isNew := true;
     IntoreGroupModel.modifiedPaths := ["name"; "code"; "type"; "cell"; "leader"] |}.

(** A new IntoreGroup under cell C1 led by [u1], created with the sector and
    the district of C1. *)
Definition led_group : IntoreGroupModel.Doc :=
  {| IntoreGroupModel._id := "g-new";
     IntoreGroupModel.name := Some "Inganzo"; IntoreGroupModel.code := Some "ING";
     IntoreGroupModel.description := Some "";
     IntoreGroupModel.type := Some "dance";
     IntoreGroupModel.status := Some "pending";
     IntoreGroupModel.leader := Some "u1";
     IntoreGroupModel.cell := Some "c-c1"; IntoreGroupModel.sector := Some "s-nya";
     IntoreGroupModel.district := Some "d-kgl"; IntoreGroupModel.isNew := true;
     IntoreGroupModel.modifiedPaths :=
       ["name"; "code"; "type"; "cell"; "sector"; "district"; "leader"] |}.

(** A new IntoreGroup led by [u1], created with sector NYA and district KGL
    under a cell that does not exist. *)
Definition orphan_group : IntoreGroupModel.Doc :=
  {| IntoreGroupModel._id := "g-new";
     IntoreGroupModel.name := Some "Inganzo"; IntoreGroupModel.code := Some "ING";
     IntoreGroupModel.description := Some "";
     IntoreGroupModel.type := Some "dance";
     IntoreGroupModel.status := Some "pending";
     IntoreGroupModel.leader := Some "u1";
     IntoreGroupModel.cell := Some "c-missing";
     IntoreGroupModel.sector := Some "s-nya";
     IntoreGroupModel.district := Some "d-kgl"; IntoreGroupModel.isNew := true;
     IntoreGroupModel.modifiedPaths :=
       ["name"; "code"; "type"; "cell"; "sector"; "district"; "leader"] |}.

(** The same hierarchy under identifiers the driver casts to ObjectIds. *)
Definition oid_kgl : Id := "64d2f1a0b3c4d5e6f7a8b9c0".
Definition oid_nya : Id := "64d2f1a0b3c4d5e6f7a8b9c1".
Definition oid_c1 : Id := "64d2f1a0b3c4d5e6f7a8b9c2".

Definition registry : DB :=
  {| districts := {[ oid_kgl := district_kgl ]};
     sectors := {[ oid_nya := {| sector_code := "NYA"; sector_district := oid_kgl;
                                 sector_admin := None |} ]};
     cells := {[ oid_c1 := {| cell_code := "C1"; cell_sector := oid_nya;
                              cell_district := oid_kgl; cell_admin := None |} ]};
     users := ∅ |}.

(** An unexpected failure reaching the global handler on an authenticated
    request. *)
Definition err : ErrorHandler.Err :=
  {| ErrorHandler.name := "Error"; ErrorHandler.code := None;
     ErrorHandler.message := Some (ErrorHandler.Msg "Database unavailable");
     ErrorHandler.statusCode := Some 503%Z;
     ErrorHandler.stack := Some "Error: Database unavailable at listCells";
     ErrorHandler.errors := None |}.

Definition req : ErrorHandler.Req :=
  {| ErrorHandler.user := Some "u1"; ErrorHandler.originalUrl := "/api/cells";
     ErrorHandler.method := "GET"; ErrorHandler.ip := Some "10.0.0.7";
     ErrorHandler.get_User_Agent := Some "curl/8.5" |}.

(** A user with four failed logins and no lock. *)
Definition four_failures : User :=
  {| role := "member"; hierarchy := hierarchy member_user; intoreGroup := None;
     loginAttempts := 4; lockUntil := None |}.

(** A user whose lock ran out at time 1000. *)
Definition expired_lock : User :=
  {| role := "member"; hierarchy := hierarchy member_user; intoreGroup := None;
     loginAttempts := 5; lockUntil := Some 1000%Z |}.

End Sample.

(** ** middleware/auth: [authenticate], [authorize], [authorizeHierarchy],
       [canAccessResource] *)

Module Authz.

(** What a middleware does with a request: hand it on, or answer it. *)
Inductive Reply :=
| CallNext
| Json (status : Z) (message : string).

(** [authorize(...roles)] on [req.user]. *)
Definition authorize (roles : list string) (user : option User) : Reply :=
  match user with
  | None => Json 401 "Authentication required."
  | Some u =>
      if negb (bool_decide (role u ∈ roles)) then
        Json 403 "Access denied. Insufficient permissions."
      else CallNext
  end.

(** [req.params]: route parameters are strings when present. *)
Record Params := mkParams {
  districtId : option string;
  sectorId : option string;
  cellId : option string
}.

(** One of the three role blocks of [authorizeHierarchy], followed by the
    rest of the function:
    [if (role === r) { if (param && own.toString() !== param) return 403 }].
    Reading [toString] off an unset reference throws, and the [catch]
    answers 500. *)
Definition role_block (active : bool) (param : option string) (own : option Id)
    (denied : string) (rest : Reply) : Reply :=
  if active then
    if truthy param then
      match own with
      | None => Json 500 "Server error during authorization."
      | Some o =>
          if negb (String.eqb o (toString param)) then Json 403 denied else rest
      end
    else rest
  else rest.

Definition authorizeHierarchy (user : option User) (params : Params) : Reply :=
  match user with
  | None => Json 401 "Authentication required."
  | Some u =>
      if String.eqb (role u) "super_admin" then CallNext
      else
        role_block (String.eqb (role u) "district_admin")
          (districtId params) (h_district (hierarchy u))
          "Access denied. You can only access your district."
        (role_block (String.eqb (role u) "sector_admin")
          (sectorId params) (h_sector (hierarchy u))
          "Access denied. You can only access your sector."
        (role_block (String.eqb (role u) "cell_admin")
          (cellId params) (h_cell (hierarchy u))
          "Access denied. You can only access your cell."
        CallNext))
  end.

(** The parameter of the user's own level does not contradict the user's
    own reference: it is absent (or empty), or it is that reference. *)
Definition own_param_ok (param : option string) (own : option Id) : Prop :=
  truthy param = false \/ own = Some (toString param).

(** What [authorizeHierarchy] asks of a user that is not super_admin. *)
Definition own_level_ok (u : User) (params : Params) : Prop :=
  (role u = "district_admin" ->
     own_param_ok (districtId params) (h_district (hierarchy u)))
  /\ (role u = "sector_admin" ->
     own_param_ok (sectorId params) (h_sector (hierarchy u)))
  /\ (role u = "cell_admin" ->
     own_param_ok (cellId params) (h_cell (hierarchy u))).

(** A JavaScript value that is a boolean or [undefined]. *)
Inductive JsBool :=
| JsUndefined
| JsBoolean (b : bool).

Definition js_truthy (v : JsBool) : bool :=
  match v with
  | JsUndefined => false
  | JsBoolean b => b
  end.

(** [own && own.toString() === resourceId.toString()] *)
Definition own_is (own : option Id) (resourceId : string) : JsBool :=
  match own with
  | None => JsUndefined
  | Some o => JsBoolean (String.eqb o resourceId)
  end.

(** [canAccessResource(user, resourceType, resourceId)], for a user whose
    identifier is [userId]. *)
Definition canAccessResource (userId : Id) (user : User)
    (resourceType : string) (resourceId : string) : JsBool :=
  if String.eqb (role user) "super_admin" then JsBoolean true
  else if String.eqb resourceType "district" then
    own_is (h_district (hierarchy user)) resourceId
  else if String.eqb resourceType "sector" then
    own_is (h_sector (hierarchy user)) resourceId
  else if String.eqb resourceType "cell" then
    own_is (h_cell (hierarchy user)) resourceId
  else if String.eqb resourceType "user" then
    if String.eqb (role user) "member" then
      JsBoolean (String.eqb userId resourceId)
    else JsBoolean true
  else JsBoolean false.

(** When [canAccessResource] grants access, read off its branches. *)
Definition may_access (userId : Id) (user : User)
    (resourceType resourceId : string) : Prop :=
  role user = "super_admin"
  \/ (resourceType = "district" /\ h_district (hierarchy user) = Some resourceId)
  \/ (resourceType = "sector" /\ h_sector (hierarchy user) = Some resourceId)
  \/ (resourceType = "cell" /\ h_cell (hierarchy user) = Some resourceId)
  \/ (resourceType = "user" /\ (role user = "member" -> userId = resourceId)).

(** *** [authenticate] *)

(** A User document as [authenticate] loads it: the query deselects the
    password, the login counters and the tokens. *)
Record Account := mkAccount {
  account_role : string;
  account_hierarchy : Hierarchy;
  account_intoreGroup : option Id;
  account_status : string
}.

(** How [jwt.verify(token, secret)] ends. *)
Inductive Verification :=
| Decoded (userId : option Id)
| Thrown (name : string) (message : string).

Record Request := mkRequest {
  authorization : option string;
  ip : option string;
  user_agent : option string
}.

Record Outcome := mkOutcome {
  reply : Reply;
  reply_error : option string;
  req_user : option (Id * Account);
  audit_log : list AuditLog.Doc
}.

Definition answer (status : Z) (message : string) (error : option string)
    (log : list AuditLog.Doc) : Outcome :=
  {| reply := Json status message; reply_error := error; req_user := None;
     audit_log := log |}.

(** The [catch] block. *)
Definition on_error (name message : string) (log : list AuditLog.Doc) : Outcome :=
  if String.eqb name "JsonWebTokenError" then
    answer 401 "Token is not valid." None log
  else if String.eqb name "TokenExpiredError" then
    answer 401 "Token has expired." None log
  else
    answer 500 "Server error during authentication." (Some message) log.

Section Authenticate.
Variable jwt_verify : string -> Verification.

Definition authenticate (accounts : gmap string Account) (req : Request)
    (log : list AuditLog.Doc) : Outcome :=
  match authorization req with
  | None => answer 401 "Access denied. No token provided." None log
  | Some authHeader =>
      if negb (String.prefix "Bearer " authHeader) then
        answer 401 "Access denied. No token provided." None log
      else
        let token := String.substring 7 (String.length authHeader - 7) authHeader in
        if String.eqb token "" then
          answer 401 "Access denied. No token provided." None log
        else
          match jwt_verify token with
          | Thrown name message => on_error name message log
          | Decoded userId =>
              match userId, findById accounts userId with
              | Some uid, Some user =>
                  if String.eqb (account_status user) "suspended" then
                    answer 403
                      "Your account has been suspended. Please contact support."
                      None log
                  else
                    match
                      AuditLog.logAction "LOGIN" "user" (Some uid) (Some uid)
                        None None None
                        [("ipAddress", ip req); ("userAgent", user_agent req)]
                        "info" "User authenticated successfully"
                        (ip req) (user_agent req) log
                    with
                    | AuditLog.Resolved log' =>
                        {| reply := CallNext; reply_error := None;
                           req_user := Some (uid, user); audit_log := log' |}
                    | AuditLog.Rejected reason =>
                        on_error "ValidationError" (String.concat ", " reason) log
                    end
              | _, _ =>
                  answer 401 "Token is not valid - user not found." None log
              end
          end
  end.
(** The audit document of a successful authentication. *)
Definition login_entry (uid : Id) (req : Request) : AuditLog.Doc :=
  {| AuditLog.action := Some "LOGIN"; AuditLog.resourceType := Some "user";
     AuditLog.resourceId := Some uid; AuditLog.performedBy := Some uid;
     AuditLog.before := None; AuditLog.after := None; AuditLog.changes := None;
     AuditLog.metadata := [("ipAddress", ip req); ("userAgent", user_agent req)];
     AuditLog.severity := "info";
     AuditLog.description := "User authenticated successfully";
     AuditLog.ipAddress := ip req; AuditLog.userAgent := user_agent req |}.
End Authenticate.

End Authz.

(** ** utils/validation: the other validators

    A string is its sequence of code units; the character classes below
    cover the code units up to 255. *)

Module Validators.
Import Validation.

Definition chars (s : string) : list Ascii.ascii := String.list_ascii_of_string s.

Definition code (c : Ascii.ascii) : nat := Ascii.nat_of_ascii c.

Definition in_range (lo hi : nat) (c : Ascii.ascii) : bool :=
  Nat.leb lo (code c) && Nat.leb (code c) hi.

(** [[A-Z]], [[a-z]], [\d] *)
Definition is_upper (c : Ascii.ascii) : bool := in_range 65 90 c.
Definition is_lower (c : Ascii.ascii) : bool := in_range 97 122 c.
Definition is_digit (c : Ascii.ascii) : bool := in_range 48 57 c.

(** [\s] below 256: tab, line feed, vertical tab, form feed, carriage
    return, space and the no-break space. *)
Definition is_space (c : Ascii.ascii) : bool :=
  in_range 9 13 c || Nat.eqb (code c) 32 || Nat.eqb (code c) 160.

Definition one_of (set : list nat) (c : Ascii.ascii) : bool :=
  existsb (Nat.eqb (code c)) set.

(** The class of [hasSpecialChar]:
    ! @ # $ % ^ & * ( ) , . ? (double quote) : { } | < > *)
Definition special_codes : list nat :=
  [33; 64; 35; 36; 37; 94; 38; 42; 40; 41; 44; 46; 63; 34; 58; 123; 125;
   124; 60; 62].
Definition is_special (c : Ascii.ascii) : bool := one_of special_codes c.

(** [/[class]/.test(s)] *)
Definition has (class : Ascii.ascii -> bool) (s : string) : bool :=
  existsb class (chars s).

(** [/^[class]+$/.test(s)] *)
Definition all_of (class : Ascii.ascii -> bool) (s : string) : bool :=
  negb (Nat.eqb (String.length s) 0) && forallb class (chars s).

(** [if (cond) errors.push(msg)] *)
Definition push_if (cond : bool) (msg : string) (errors : list string)
    : list string :=
  if cond then push errors msg else errors.

(** *** [validatePassword] *)

Definition validatePassword (password : string) : Result :=
  let minLength := 6 in
  let hasUpperCase := has is_upper password in
  let hasLowerCase := has is_lower password in
  let hasNumbers := has is_digit password in
  let hasSpecialChar := has is_special password in
  let errors := [] in
  let errors :=
    push_if (Nat.ltb (String.length password) minLength)
      "Password must be at least 6 characters long." errors in
  let errors :=
    push_if (negb hasUpperCase)
      "Password must contain at least one uppercase letter." errors in
  let errors :=
    push_if (negb hasLowerCase)
      "Password must contain at least one lowercase letter." errors in
  let errors :=
    push_if (negb hasNumbers)
      "Password must contain at least one number." errors in
  let errors :=
    push_if (negb hasSpecialChar)
      "Password must contain at least one special character." errors in
  finish errors.

(** *** [validatePhoneNumber] and the phone validator of the User schema *)

(** The class [[\s\-\(\)]] that [validatePhoneNumber] removes. *)
Definition is_separator (c : Ascii.ascii) : bool :=
  is_space c || one_of [45; 40; 41] c.

(** [phone.replace(/[\s\-\(\)]/g, '')] *)
Definition cleanPhone (phone : string) : list Ascii.ascii :=
  List.filter (fun c => negb (is_separator c)) (chars phone).

(** [^\+?]: an optional leading plus sign. Neither class used below
    contains the plus sign, so the sign is consumed whenever it is there. *)
Definition optional_plus (l : list Ascii.ascii) : list Ascii.ascii :=
  match l with
  | c :: rest => if Nat.eqb (code c) 43 then rest else l
  | [] => l
  end.

(** [class{lo,hi}$]: between [lo] and [hi] characters, all of the class. *)
Definition counted (class : Ascii.ascii -> bool) (lo hi : nat)
    (l : list Ascii.ascii) : bool :=
  Nat.leb lo (length l) && Nat.leb (length l) hi && forallb class l.

(** [validatePhoneNumber]: [/^\+?[\d]{10,15}$/] on the cleaned number. *)
Definition validatePhoneNumber (phone : string) : bool :=
  counted is_digit 10 15 (optional_plus (cleanPhone phone)).

(** [userSchema.phoneNumber.validate]: [/^\+?[\d\s-()]{10,15}$/]. *)
Definition schema_phoneNumber (v : string) : bool :=
  counted (fun c => is_digit c || is_separator c) 10 15
    (optional_plus (chars v)).

(** *** [validateUsername] *)

(** [[a-zA-Z0-9_-]] *)
Definition is_username_char (c : Ascii.ascii) : bool :=
  is_lower c || is_upper c || is_digit c || one_of [95; 45] c.

(** [usernames] is the index [User.findByUsername] reads: the identifier of
    the user that holds a username. *)
Definition validateUsername (usernames : gmap string Id) (username : string)
    : Result :=
  let errors := [] in
  let errors :=
    push_if (Nat.ltb (String.length username) 3)
      "Username must be at least 3 characters long." errors in
  let errors :=
    push_if (Nat.ltb 50 (String.length username))
      "Username cannot exceed 50 characters." errors in
  let errors :=
    push_if (negb (all_of is_username_char username))
      "Username can only contain letters, numbers, underscores, and hyphens."
      errors in
  let existingUser := usernames !! username in
  let errors :=
    push_if (bool_decide (is_Some existingUser))
      "Username is already taken." errors in
  finish errors.

(** *** [validateUniqueEmail] *)

Record EmailResult := mkEmailResult {
  email_isValid : bool;
  email_error : option string
}.

Section UniqueEmail.
(** [String.prototype.toLowerCase] *)
Variable toLowerCase : string -> string.

(** [User.findByEmail(email)] over the index of stored (lower-case) emails. *)
Definition findByEmail (emails : gmap string Id) (email : string) : option Id :=
  emails !! toLowerCase email.

Definition validateUniqueEmail (emails : gmap string Id) (email : string)
    (excludeUserId : option string) : EmailResult :=
  match findByEmail emails email with
  | Some existing =>
      if negb (truthy excludeUserId)
         || negb (String.eqb existing (toString excludeUserId)) then
        {| email_isValid := false;
           email_error := Some "Email is already registered." |}
      else {| email_isValid := true; email_error := None |}
  | None => {| email_isValid := true; email_error := None |}
  end.
End UniqueEmail.

(** Lower-casing of the letters A-Z, as an instance of [toLowerCase] on
    strings of such code units. *)
Definition lower_char (c : Ascii.ascii) : Ascii.ascii :=
  if is_upper c then Ascii.ascii_of_nat (code c + 32) else c.

Fixpoint ascii_toLowerCase (s : string) : string :=
  match s with
  | EmptyString => EmptyString
  | String c rest => String (lower_char c) (ascii_toLowerCase rest)
  end.

(** *** [validateActivity] *)

(** The hour part [([0-1]?[0-9]|2[0-3])] followed by [:[0-5][0-9]$]. *)
Definition timeRegex (s : string) : bool :=
  match chars s with
  | [h; colon; m1; m2] =>
      is_digit h && Nat.eqb (code colon) 58 && in_range 48 53 m1 && is_digit m2
  | [h1; h2; colon; m1; m2] =>
      ((in_range 48 49 h1 && is_digit h2)
       || (Nat.eqb (code h1) 50 && in_range 48 51 h2))
      && Nat.eqb (code colon) 58 && in_range 48 53 m1 && is_digit m2
  | _ => false
  end.

(** The decimal digit [d], and a number below 100 written with one and
    with two digits. *)
Definition digit (d : nat) : Ascii.ascii := Ascii.ascii_of_nat (48 + d).
Definition one_digit (n : nat) : string := String (digit n) EmptyString.
Definition two_digits (n : nat) : string :=
  String (digit (n / 10)) (String (digit (n mod 10)) EmptyString).

(** A time of day written [H:MM] or [HH:MM]. *)
Definition time_of_day (s : string) : Prop :=
  exists h m, (h < 24)%nat /\ (m < 60)%nat
    /\ (s = two_digits h ++ ":" ++ two_digits m
        \/ ((h < 10)%nat /\ s = one_digit h ++ ":" ++ two_digits m)).

Record Location := mkLocation {
  location_name : option string
}.

Record ActivityData := mkActivityData {
  title : option string;
  description : option string;
  type : option string;
  date : option string;
  startTime : option string;
  endTime : option string;
  location : option Location;
  organizer : option string;
  cell : option string
}.

Section Activity.
(** [String.prototype.trim] *)
Variable trim : string -> string.
(** [new Date(value)]: the time value, or nothing for an invalid date. *)
Variable parseDate : string -> option Z.
(** The start of the current day. *)
Variable today : Z.

(** [!field || field.trim().length < n] *)
Definition too_short (field : option string) (n : nat) : bool :=
  negb (truthy field) || Nat.ltb (String.length (trim (toString field))) n.

(** The conditions under which [validateActivity] pushes no message. *)
Definition long_enough (field : option string) (n : nat) : Prop :=
  truthy field = true /\ (n <= String.length (trim (toString field)))%nat.

Definition activity_ok (a : ActivityData) : Prop :=
  long_enough (title a) 5
  /\ long_enough (description a) 10
  /\ truthy (type a) = true
  /\ (truthy (date a) = true
      /\ forall t, parseDate (toString (date a)) = Some t -> (today <= t)%Z)
  /\ (truthy (startTime a) = true /\ truthy (endTime a) = true
      /\ timeRegex (toString (startTime a)) = true
      /\ timeRegex (toString (endTime a)) = true)
  /\ (exists loc, location a = Some loc /\ truthy (location_name loc) = true)
  /\ truthy (organizer a) = true
  /\ truthy (cell a) = true.

Definition validateActivity (activityData : ActivityData) : Result :=
  let errors := [] in
  let errors :=
    push_if (too_short (title activityData) 5)
      "Activity title must be at least 5 characters long." errors in
  let errors :=
    push_if (too_short (description activityData) 10)
      "Activity description must be at least 10 characters long." errors in
  let errors :=
    push_if (negb (truthy (type activityData)))
      "Activity type is required." errors in
  let errors :=
    if negb (truthy (date activityData)) then
      push errors "Activity date is required."
    else
      match parseDate (toString (date activityData)) with
      | Some activityDate =>
          push_if (Z.ltb activityDate today)
            "Activity date cannot be in the past." errors
      | None => errors
      end in
  let errors :=
    if negb (truthy (startTime activityData))
       || negb (truthy (endTime activityData)) then
      push errors "Start time and end time are required."
    else
      push_if (negb (timeRegex (toString (startTime activityData)))
               || negb (timeRegex (toString (endTime activityData))))
        "Invalid time format. Use HH:MM format." errors in
  let errors :=
    push_if
      (match location activityData with
       | Some loc => negb (truthy (location_name loc))
       | None => true
       end)
      "Activity location name is required." errors in
  let errors :=
    push_if (negb (truthy (organizer activityData)))
      "Activity organizer is required." errors in
  let errors :=
    push_if (negb (truthy (cell activityData)))
      "Activity cell is required." errors in
  finish errors.
End Activity.

(** *** [validateMedia] and [validateAttendance] *)

(** [!value || !list.includes(value)] *)
Definition not_among (list : list string) (value : option string) : bool :=
  negb (truthy value) || negb (bool_decide (toString value ∈ list)).

Record MediaData := mkMediaData {
  media_type : option string;
  uploadedFor : option string;
  targetId : option string;
  visibility : option string
}.

Definition validateMedia (mediaData : MediaData) : Result :=
  let errors := [] in
  let errors :=
    push_if (not_among ["image"; "video"; "document"] (media_type mediaData))
      "Invalid media type. Must be image, video, or document." errors in
  let errors :=
    push_if (not_among ["activity"; "intore_group"; "cell"; "sector";
                        "district"; "general"] (uploadedFor mediaData))
      "Invalid upload target." errors in
  let errors :=
    push_if (negb (truthy (targetId mediaData)))
      "Target ID is required." errors in
  let errors :=
    push_if (not_among ["public"; "private"; "members_only"]
               (visibility mediaData))
      "Invalid visibility setting." errors in
  finish errors.

(** The enums of [mediaSchema]. *)
Definition mediaSchema_type : list string := ["image"; "video"; "document"].
Definition mediaSchema_uploadedFor : list string :=
  ["activity"; "intore_group"; "cell"; "sector"; "district"; "general"].
Definition mediaSchema_visibility : list string :=
  ["public"; "private"; "members_only"].

Record AttendanceData := mkAttendanceData {
  attendance_user : option string;
  attendance_activity : option string;
  attendance_status : option string
}.

Definition validateAttendance (attendanceData : AttendanceData) : Result :=
  let errors := [] in
  let errors :=
    push_if (negb (truthy (attendance_user attendanceData)))
      "User is required for attendance." errors in
  let errors :=
    push_if (negb (truthy (attendance_activity attendanceData)))
      "Activity is required for attendance." errors in
  let errors :=
    push_if (not_among ["present"; "absent"; "late"; "excused"]
               (attendance_status attendanceData))
      "Invalid attendance status." errors in
  finish errors.

(** The enum of [attendanceSchema.status]. *)
Definition attendanceSchema_status : list string :=
  ["present"; "absent"; "late"; "excused"].

End Validators.
(** ** Virtuals and instance methods of the other models *)

Local Open Scope string_scope.

(** A promise returned by [save()] or [create()]: the saved document, or the
    messages of the validators that refused it. *)
Module Promise.
Inductive t (A : Type) : Type :=
| Resolved (a : A)
| Rejected (reason : list string).
Arguments Resolved {A} a.
Arguments Rejected {A} reason.
End Promise.

(** Template-literal rendering of an integer. *)
Definition show (n : Z) : string := pretty n.

(** [s.padStart(targetLength, '0')] *)
Fixpoint zeros (n : nat) : string :=
  match n with
  | O => EmptyString
  | S k => String (Ascii.ascii_of_nat 48) (zeros k)
  end.

Definition padStart (targetLength : nat) (s : string) : string :=
  (zeros (targetLength - String.length s) ++ s)%string.

(** *** models/AuditLog: virtual [timeAgo] *)

Module AuditLogVirtuals.

(** [`${n} unit${n > 1 ? 's' : ''} ago`] *)
Definition ago (n : Z) (unit : string) : string :=
  (show n ++ " " ++ unit ++ (if Z.gtb n 1 then "s" else "") ++ " ago")%string.

(** [timeAgo], read when the clock shows [now]. *)
Definition timeAgo (now performedAt : Z) : string :=
  let diff := (now - performedAt)%Z in
  let minutes := (diff / 60000)%Z in
  let hours := (minutes / 60)%Z in
  let days := (hours / 24)%Z in
  if Z.gtb days 0 then ago days "day"
  else if Z.gtb hours 0 then ago hours "hour"
  else if Z.gtb minutes 0 then ago minutes "minute"
  else "Just now".

End AuditLogVirtuals.

(** *** models/Media: virtual [durationFormatted], [approve], [reject] *)

Module MediaModel.

Record Approval := mkApproval {
  approvedBy : Id;
  approvedAt : Z;
  approval_status : string;
  reason : string
}.

Record Doc := mkDoc {
  status : string;
  approvalHistory : list Approval;
  duration : option Z
}.

(** [durationFormatted] for a duration in whole seconds. *)
Definition durationFormatted (this : Doc) : option string :=
  match duration this with
  | None => None
  | Some d =>
      if Z.eqb d 0 then None
      else
        let hours := (d / 3600)%Z in
        let minutes := (Z.rem d 3600 / 60)%Z in
        let seconds := Z.rem d 60 in
        if Z.gtb hours 0 then
          Some (show hours ++ ":" ++ padStart 2 (show minutes) ++ ":"
                ++ padStart 2 (show seconds))%string
        else
          Some (show minutes ++ ":" ++ padStart 2 (show seconds))%string
  end.

(** [approve(approvedBy, reason)] at clock [now]. *)
Definition approve (approvedBy : Id) (reason : string) (now : Z) (this : Doc)
    : Doc :=
  {| status := "active";
     approvalHistory :=
       (approvalHistory this
        ++ [{| approvedBy := approvedBy; approvedAt := now;
               approval_status := "approved"; reason := reason |}])%list;
     duration := duration this |}.

(** [reject(rejectedBy, reason)] at clock [now]. *)
Definition reject (rejectedBy : Id) (reason : string) (now : Z) (this : Doc)
    : Doc :=
  {| status := "rejected";
     approvalHistory :=
       (approvalHistory this
        ++ [{| approvedBy := rejectedBy; approvedAt := now;
               approval_status := "rejected"; reason := reason |}])%list;
     duration := duration this |}.

(** A moderation decision, and a sequence of them applied in order. *)
Inductive Decision :=
| Approve (by_user : Id) (reason : string) (now : Z)
| Reject (by_user : Id) (reason : string) (now : Z).

Definition decide_one (this : Doc) (d : Decision) : Doc :=
  match d with
  | Approve u r t => approve u r t this
  | Reject u r t => reject u r t this
  end.

Definition moderate (ds : list Decision) (this : Doc) : Doc :=
  foldl decide_one this ds.

(** What a decision asks for: the history entry and the status of the
    media. *)
Definition entry_of (d : Decision) : Approval :=
  match d with
  | Approve u r t =>
      {| approvedBy := u; approvedAt := t; approval_status := "approved";
         reason := r |}
  | Reject u r t =>
      {| approvedBy := u; approvedAt := t; approval_status := "rejected";
         reason := r |}
  end.

Definition status_after (d : Decision) : string :=
  match d with
  | Approve _ _ _ => "active"
  | Reject _ _ _ => "rejected"
  end.

End MediaModel.

(** *** models/CulturalContent: likes and comments *)

Module CulturalContentModel.

Record Comment := mkComment {
  comment_user : Id;
  comment_text : string;
  rating : Z
}.

Record Doc := mkDoc {
  likes : list Id;
  comments : list Comment
}.

(** The validators of a [comments] element: [comment.maxlength: 500],
    [rating.min: 1], [rating.max: 5]. *)
Definition validate_comment (c : Comment) : list string :=
  ((if Nat.leb (String.length (comment_text c)) 500 then []
    else ["Path `comment` is longer than the maximum allowed length (500)."])
   ++ (if Z.leb 1 (rating c) then []
       else ["Path `rating` is less than minimum allowed value (1)."])
   ++ (if Z.leb (rating c) 5 then []
       else ["Path `rating` is more than maximum allowed value (5)."]))%list.

(** [this.save()], as far as the two arrays are concerned. *)
Definition save (this : Doc) : Promise.t Doc :=
  match concat (map validate_comment (comments this)) with
  | [] => Promise.Resolved this
  | errs => Promise.Rejected errs
  end.

(** [likes.includes(userId)]: the array compares identifiers. *)
Definition includes (l : list Id) (userId : Id) : bool :=
  existsb (String.eqb userId) l.

(** Virtual [likeCount]. *)
Definition likeCount (this : Doc) : nat := length (likes this).

(** The document a method leaves in memory, and the promise it returns. *)
Definition addComment (userId : Id) (comment : string) (rating : Z) (this : Doc)
    : Doc * Promise.t Doc :=
  let this' :=
    {| likes := likes this;
       comments :=
         (comments this
          ++ [{| comment_user := userId; comment_text := comment;
                 rating := rating |}])%list |} in
  (this', save this').

(** [addComment(userId, comment)]: the rating defaults to 0. *)
Definition addComment_default (userId : Id) (comment : string) (this : Doc)
    : Doc * Promise.t Doc :=
  addComment userId comment 0 this.

Definition addLike (userId : Id) (this : Doc) : Doc * Promise.t Doc :=
  if negb (includes (likes this) userId) then
    let this' := {| likes := (likes this ++ [userId])%list;
                    comments := comments this |} in
    (this', save this')
  else (this, Promise.Resolved this).

Definition removeLike (userId : Id) (this : Doc) : Doc * Promise.t Doc :=
  let this' :=
    {| likes := List.filter (fun id => negb (String.eqb id userId)) (likes this);
       comments := comments this |} in
  (this', save this').

End CulturalContentModel.

(** *** models/Chat: messages and chat groups *)

Module ChatModel.

Record Read := mkRead {
  read_user : Id;
  readAt : Z
}.

Record Reaction := mkReaction {
  reaction_user : Id;
  reaction : string;
  reaction_createdAt : option Z
}.

Record Edited := mkEdited {
  isEdited : bool;
  editedAt : option Z;
  editedBy : option Id
}.

Record Deleted := mkDeleted {
  isDeleted : bool;
  deletedAt : option Z;
  deletedBy : option Id
}.

Record Message := mkMessage {
  content : string;
  readBy : list Read;
  edited : Edited;
  deleted : Deleted;
  reactions : list Reaction
}.

(** Virtual [status]. *)
Definition status (this : Message) : string :=
  if isDeleted (deleted this) then "deleted"
  else if isEdited (edited this) then "edited"
  else "sent".

Definition markAsRead (userId : Id) (now : Z) (this : Message) : Message :=
  match List.find (fun r => String.eqb (read_user r) userId) (readBy this) with
  | None =>
      {| content := content this;
         readBy := (readBy this ++ [{| read_user := userId; readAt := now |}])%list;
         edited := edited this; deleted := deleted this;
         reactions := reactions this |}
  | Some _ => this
  end.

Definition edit (newContent : string) (editedBy : Id) (now : Z)
    (this : Message) : Message :=
  {| content := newContent; readBy := readBy this;
     edited := {| isEdited := true; editedAt := Some now;
                  editedBy := Some editedBy |};
     deleted := deleted this; reactions := reactions this |}.

Definition deleteMessage (deletedBy : Id) (now : Z) (this : Message) : Message :=
  {| content := content this; readBy := readBy this; edited := edited this;
     deleted := {| isDeleted := true; deletedAt := Some now;
                   deletedBy := Some deletedBy |};
     reactions := reactions this |}.

(** [existingReaction.reaction = reaction; existingReaction.createdAt = now]
    on the first reaction of the user. *)
Fixpoint replace_first (userId : Id) (r : string) (now : Z)
    (l : list Reaction) : list Reaction :=
  match l with
  | [] => []
  | x :: rest =>
      if String.eqb (reaction_user x) userId then
        {| reaction_user := reaction_user x; reaction := r;
           reaction_createdAt := Some now |} :: rest
      else x :: replace_first userId r now rest
  end.

Definition with_reactions (l : list Reaction) (this : Message) : Message :=
  {| content := content this; readBy := readBy this; edited := edited this;
     deleted := deleted this; reactions := l |}.

(** [addReaction(userId, reaction)] at clock [now]. A pushed reaction gets
    its [createdAt] from the sub-schema's default, [Date.now]. *)
Definition addReaction (userId : Id) (r : string) (now : Z) (this : Message)
    : Message :=
  match List.find (fun x => String.eqb (reaction_user x) userId) (reactions this) with
  | Some _ => with_reactions (replace_first userId r now (reactions this)) this
  | None =>
      with_reactions
        (reactions this
         ++ [{| reaction_user := userId; reaction := r;
                reaction_createdAt := Some now |}])%list this
  end.

Definition removeReaction (userId : Id) (this : Message) : Message :=
  with_reactions
    (List.filter (fun x => negb (String.eqb (reaction_user x) userId))
       (reactions this)) this.

(** The reaction a user has on a message: that of the user's first entry. *)
Definition reaction_of (userId : Id) (this : Message) : option string :=
  reaction <$> List.find (fun x => String.eqb (reaction_user x) userId)
                 (reactions this).

(** The users that have an entry in the reactions, with repetitions. *)
Definition reactors (this : Message) : list Id :=
  map reaction_user (reactions this).

(** The users that have read a message, with repetitions. *)
Definition readers (this : Message) : list Id :=
  map read_user (readBy this).

(** A call of one of the instance methods, and a sequence of calls. *)
Inductive Call :=
| MarkAsRead (userId : Id) (now : Z)
| Edit (newContent : string) (editedBy : Id) (now : Z)
| DeleteMessage (deletedBy : Id) (now : Z)
| AddReaction (userId : Id) (r : string) (now : Z)
| RemoveReaction (userId : Id).

Definition call (this : Message) (c : Call) : Message :=
  match c with
  | MarkAsRead u t => markAsRead u t this
  | Edit s u t => edit s u t this
  | DeleteMessage u t => deleteMessage u t this
  | AddReaction u r t => addReaction u r t this
  | RemoveReaction u => removeReaction u this
  end.

Definition calls (cs : list Call) (this : Message) : Message :=
  foldl call this cs.

Record ChatGroup := mkChatGroup {
  admins : list Id;
  members : list Id;
  lastActivity : option Z
}.

Definition includes (l : list Id) (userId : Id) : bool :=
  existsb (String.eqb userId) l.

Definition without (userId : Id) (l : list Id) : list Id :=
  List.filter (fun id => negb (String.eqb id userId)) l.

Definition addMember (userId : Id) (now : Z) (this : ChatGroup) : ChatGroup :=
  if negb (includes (members this) userId) then
    {| admins := admins this; members := (members this ++ [userId])%list;
       lastActivity := Some now |}
  else this.

Definition removeMember (userId : Id) (now : Z) (this : ChatGroup) : ChatGroup :=
  {| admins := without userId (admins this);
     members := without userId (members this);
     lastActivity := Some now |}.

Definition addAdmin (userId : Id) (this : ChatGroup) : ChatGroup :=
  if negb (includes (admins this) userId) then
    {| admins := (admins this ++ [userId])%list; members := members this;
       lastActivity := lastActivity this |}
  else this.

Definition removeAdmin (userId : Id) (this : ChatGroup) : ChatGroup :=
  {| admins := without userId (admins this); members := members this;
     lastActivity := lastActivity this |}.

End ChatModel.

(** *** models/Activity: attendance queries *)

Module ActivityModel.

Record Attendee := mkAttendee {
  attendee_user : Id;
  attendee_status : string
}.

(** The enum of [attendees.status]. *)
Definition attendee_status_enum : list string :=
  ["confirmed"; "pending"; "declined"; "waitlist"].

Record Doc := mkDoc {
  attendees : list Attendee
}.

Definition has_status (st : string) (this : Doc) : nat :=
  length (List.filter (fun a => String.eqb (attendee_status a) st) (attendees this)).

(** Virtuals [confirmedAttendeesCount] and [pendingAttendeesCount]. *)
Definition confirmedAttendeesCount (this : Doc) : nat := has_status "confirmed" this.
Definition pendingAttendeesCount (this : Doc) : nat := has_status "pending" this.

Definition isUserAttending (userId : Id) (this : Doc) : bool :=
  existsb (fun a => String.eqb (attendee_user a) userId) (attendees this).

Definition getUserStatus (userId : Id) (this : Doc) : string :=
  match List.find (fun a => String.eqb (attendee_user a) userId) (attendees this) with
  | Some attendee => attendee_status attendee
  | None => "not_registered"
  end.

End ActivityModel.

(** *** models/Notification *)

Module NotificationModel.

(** A stored field: missing from the document, stored as [null], or a
    value. *)
Inductive Field (A : Type) : Type :=
| Missing
| Null
| Value (a : A).
Arguments Missing {A}.
Arguments Null {A}.
Arguments Value {A} a.

Record Doc := mkDoc {
  title : string;
  message : string;
  type : string;
  category : string;
  recipient : option Id;
  target : string;
  priority : string;
  read : bool;
  readAt : Field Z;
  actionUrl : string;
  expiresAt : Field Z
}.

(** Virtual [isExpired], read when the clock shows [now]. *)
Definition isExpired (now : Z) (this : Doc) : bool :=
  match expiresAt this with
  | Value t => Z.gtb now t
  | _ => false
  end.

Definition set_read (r : bool) (at_ : Field Z) (this : Doc) : Doc :=
  {| title := title this; message := message this; type := type this;
     category := category this; recipient := recipient this;
     target := target this; priority := priority this;
     read := r; readAt := at_; actionUrl := actionUrl this;
     expiresAt := expiresAt this |}.

Definition markAsRead (now : Z) (this : Doc) : Doc := set_read true (Value now) this.
Definition markAsUnread (this : Doc) : Doc := set_read false Null this.

(** The filter of [getUnreadCount(userId)]:
    [{ recipient, read: false,
       $or: [{expiresAt: {$exists: false}}, {expiresAt: {$gt: now}}] }]. *)
Definition unread_filter (userId : Id) (now : Z) (doc : Doc) : bool :=
  bool_decide (recipient doc = Some userId)
  && negb (read doc)
  && match expiresAt doc with
     | Missing => true
     | Null => false
     | Value t => Z.gtb t now
     end.

Definition getUnreadCount (coll : list Doc) (userId : Id) (now : Z) : nat :=
  length (List.filter (unread_filter userId now) coll).

Definition type_enum : list string := ["info"; "success"; "warning"; "error"; "system"].
Definition category_enum : list string :=
  ["activity"; "attendance"; "chat"; "media"; "approval"; "system"; "reminder"].
Definition target_enum : list string :=
  ["user"; "cell"; "sector"; "district"; "intore_group"; "activity"].
Definition priority_enum : list string := ["low"; "medium"; "high"; "urgent"].

Definition check (ok : bool) (msg : string) : list string :=
  if ok then [] else [msg].

(** Validation of a document against [notificationSchema]. *)
Definition validate (doc : Doc) : list string :=
  (check (negb (String.eqb (title doc) "")) "Notification title is required"
   ++ check (Nat.leb (String.length (title doc)) 100) "title: too long"
   ++ check (negb (String.eqb (message doc) "")) "Notification message is required"
   ++ check (Nat.leb (String.length (message doc)) 500) "message: too long"
   ++ check (bool_decide (type doc ∈ type_enum)) "type: not in enum"
   ++ check (bool_decide (category doc ∈ category_enum)) "category: not in enum"
   ++ check (bool_decide (is_Some (recipient doc))) "Recipient is required"
   ++ check (bool_decide (target doc ∈ target_enum)) "target: not in enum"
   ++ check (bool_decide (priority doc ∈ priority_enum)) "priority: not in enum"
   ++ check (Nat.leb (String.length (actionUrl doc)) 500) "actionUrl: too long")%list.

Definition create (doc : Doc) (coll : list Doc) : Promise.t (list Doc) :=
  match validate doc with
  | [] => Promise.Resolved (coll ++ [doc])%list
  | errs => Promise.Rejected errs
  end.

(** A date argument that is [null] or a time value. *)
Definition date_field (d : option Z) : Field Z :=
  match d with
  | Some t => Value t
  | None => Null
  end.

(** [createReminderNotification(userId, message, actionUrl, expiresAt)]; the
    schema defaults fill [read]. *)
Definition createReminderNotification (userId : option Id) (message : string)
    (actionUrl : string) (expiresAt : option Z) (coll : list Doc)
    : Promise.t (list Doc) :=
  create {| title := "Reminder"; message := message; type := "info";
            category := "reminder"; recipient := userId; target := "user";
            priority := "medium"; read := false; readAt := Missing;
            actionUrl := actionUrl; expiresAt := date_field expiresAt |} coll.

End NotificationModel.

(** ** Sequences of calls, for the properties below *)

Module Sequences.

(** Failed logins at the given clock readings, one after the other. *)
Definition failed_logins (times : list Z) (u : User) : User :=
  foldl UserModel.incLoginAttempts u times.

(** The requests of one key, and the decisions taken on them. *)
Definition requests_of (key : string) (reqs : list Auth.Request)
    : list Auth.Request :=
  List.filter (fun r => String.eqb (fst r) key) reqs.

Fixpoint decisions_of (key : string) (reqs : list Auth.Request)
    (ds : list Auth.Decision) : list Auth.Decision :=
  match reqs, ds with
  | (k, _) :: reqs', d :: ds' =>
      if String.eqb k key then d :: decisions_of key reqs' ds'
      else decisions_of key reqs' ds'
  | _, _ => []
  end.

(** The errors the global handler rewrites: those of the database layer,
    of the token library and of the upload library. *)
Definition recognised (err : ErrorHandler.Err) : bool :=
  String.eqb (ErrorHandler.name err) "CastError"
  || ErrorHandler.code_is_num (ErrorHandler.code err) 11000
  || String.eqb (ErrorHandler.name err) "ValidationError"
  || String.eqb (ErrorHandler.name err) "JsonWebTokenError"
  || String.eqb (ErrorHandler.name err) "TokenExpiredError"
  || ErrorHandler.code_is_str (ErrorHandler.code err) "LIMIT_FILE_SIZE"
  || ErrorHandler.code_is_str (ErrorHandler.code err) "LIMIT_UNEXPECTED_FILE".

(** The messages the handler puts in place of a recognised error's own. *)
Definition fixed_messages (err : ErrorHandler.Err) : list ErrorHandler.Message :=
  [ErrorHandler.Msg "Resource not found";
   ErrorHandler.Msg "Duplicate field value entered";
   ErrorHandler.Msgs (default [] (ErrorHandler.errors err));
   ErrorHandler.Msg "Invalid token";
   ErrorHandler.Msg "Token has expired";
   ErrorHandler.Msg "File too large";
   ErrorHandler.Msg "Unexpected file field"].

End Sequences.

(** * Properties *)

(** ** Hierarchy validation *)

Module ValidationSpec.
Import Validation.

Lemma truthy_spec (x : option string) :
  truthy x = true <-> exists s, x = Some s /\ s ≠ "".
Proof.
  destruct x as [s|]; simpl.
  - destruct (String.eqb_spec s "") as [->|Hne]; simpl; split.
    + discriminate.
    + intros (s' & [= <-] & Hs). by destruct Hs.
    + eauto.
    + done.
  - split; [discriminate | intros (s & Hs & _); discriminate].
Qed.

Lemma truthy_false (x : option string) :
  truthy x = false <-> x = None \/ x = Some "".
Proof.
  destruct x as [s|]; simpl.
  - destruct (String.eqb_spec s "") as [->|Hne]; simpl; split; auto.
    + discriminate.
    + intros [|[= ->]]; [discriminate | by destruct Hne].
  - split; auto.
Qed.


Lemma push_not_nil (errs : list string) (msg : string) : push errs msg ≠ [].
Proof. unfold push. destruct errs; discriminate. Qed.


Section Queries.
Variable isObjectId : string -> bool.





End Queries.



Example sector_admin_mismatch_is_invalid :
  validateHierarchy hex24 Sample.registry "sector_admin"
    (Some Sample.oid_c1) (Some Sample.oid_nya) None
  = Resolves
      {| isValid := false;
         errors := ["Invalid sector or sector does not belong to the specified district."] |}.
Proof. vm_compute. reflexivity. Qed.

Lemma eqb_false_of_not_elem (role r : string) (l : list string) :
  role ∉ l -> r ∈ l -> String.eqb role r = false.
Proof.
  intros Hn Hin. apply String.eqb_neq. intros ->. by apply Hn.
Qed.

(** C9. For a role outside the five handled ones ('public' among them) and
    any district, sector and cell arguments, [validateHierarchy] returns
    [{isValid: true, errors: []}]: no branch applies. The User schema, on
    the other hand, requires [hierarchy.district] for such a role. *)
Theorem validateHierarchy_unhandled_role_is_valid isObjectId db role d s c :
  role ∉ handled_roles ->
  validateHierarchy isObjectId db role d s c
  = Resolves {| isValid := true; errors := [] |}
  /\ hierarchy_district_required role = true.
Proof.
  intros Hrole.
  assert (Hin : forall r, r ∈ handled_roles -> String.eqb role r = false)
    by (intros r; by apply eqb_false_of_not_elem).
  unfold validateHierarchy, hierarchy_district_required.
  rewrite !Hin by (unfold handled_roles; set_solver).
  done.
Qed.

Lemma validateHierarchy_unhandled_role_is_valid_witness :
  validateHierarchy hex24 Sample.db "public" None (Some "s-missing")
    (Some "c-missing")
    = Resolves {| isValid := true; errors := [] |}
  /\ hierarchy_district_required "public" = true.
Proof.
  apply (validateHierarchy_unhandled_role_is_valid hex24 Sample.db "public").
  apply (bool_decide_unpack _). vm_compute. exact I.
Defined.

End ValidationSpec.

(** ** Role cascade and hierarchy auto-fill *)

Module CascadeSpec.

Section WithLibrary.
Variable omitUndefined : bool.

Lemma findByIdAndUpdate_lookup (id : Id) upd (coll : gmap string User) u :
  coll !! id = Some u ->
  findByIdAndUpdate omitUndefined id upd coll !! id
  = Some (apply_update omitUndefined upd u).
Proof.
  intros Hu. unfold findByIdAndUpdate. by rewrite lookup_alter_eq, Hu.
Qed.

Lemma findByIdAndUpdate_other (id id' : Id) upd (coll : gmap string User) :
  id ≠ id' ->
  findByIdAndUpdate omitUndefined id upd coll !! id' = coll !! id'.
Proof. intros Hne. unfold findByIdAndUpdate. by apply lookup_alter_ne. Qed.

Lemma findByIdAndUpdate_twice (id : Id) upd (coll : gmap string User) :
  (forall u, apply_update omitUndefined upd (apply_update omitUndefined upd u)
             = apply_update omitUndefined upd u) ->
  findByIdAndUpdate omitUndefined id upd
    (findByIdAndUpdate omitUndefined id upd coll)
  = findByIdAndUpdate omitUndefined id upd coll.
Proof.
  intros Hidem. unfold findByIdAndUpdate.
  rewrite alter_alter_eq. apply alter_ext. intros u _. apply Hidem.
Qed.

(** The three role-defining update documents assign constants, so applying
    one of them a second time changes nothing. *)
Lemma district_update_idem (id : Id) u :
  let upd := [("role", Some "district_admin"); ("hierarchy.district", Some id)] in
  apply_update omitUndefined upd (apply_update omitUndefined upd u)
  = apply_update omitUndefined upd u.
Proof. destruct u as [r [hd hs hc] g la lu]. reflexivity. Qed.

Lemma sector_update_idem (d : option Id) (id : Id) u :
  let upd := [("role", Some "sector_admin"); ("hierarchy.district", d);
              ("hierarchy.sector", Some id)] in
  apply_update omitUndefined upd (apply_update omitUndefined upd u)
  = apply_update omitUndefined upd u.
Proof.
  destruct u as [r [hd hs hc] g la lu].
  destruct d, omitUndefined; reflexivity.
Qed.

Lemma cell_update_idem (d s : option Id) (id : Id) u :
  let upd := [("role", Some "cell_admin"); ("hierarchy.district", d);
              ("hierarchy.sector", s); ("hierarchy.cell", Some id)] in
  apply_update omitUndefined upd (apply_update omitUndefined upd u)
  = apply_update omitUndefined upd u.
Proof.
  destruct u as [r [hd hs hc] g la lu].
  destruct d, s, omitUndefined; reflexivity.
Qed.

(** What the Cell admin update writes: the role, the cell's identifier and
    the sector and district the document holds when the hook runs. *)
Lemma cell_update_values (d s : Id) (id : Id) u :
  apply_update omitUndefined
    [("role", Some "cell_admin"); ("hierarchy.district", Some d);
     ("hierarchy.sector", Some s); ("hierarchy.cell", Some id)] u
  = {| role := "cell_admin";
       hierarchy := {| h_district := Some d; h_sector := Some s;
                       h_cell := Some id |};
       intoreGroup := intoreGroup u; loginAttempts := loginAttempts u;
       lockUntil := lockUntil u |}.
Proof. destruct u as [r [hd hs hc] g la lu]. reflexivity. Qed.

Lemma leader_update_values (id : Id) u :
  apply_update omitUndefined [("intoreGroup", Some id)] u
  = {| role := role u; hierarchy := hierarchy u; intoreGroup := Some id;
       loginAttempts := loginAttempts u; lockUntil := lockUntil u |}.
Proof. destruct u as [r [hd hs hc] g la lu]. reflexivity. Qed.

(** The hook that fills the hierarchy of a new Cell does not touch the
    database, and the admin hook does not touch the document. *)
Lemma cell_pre_save_admin_doc this db :
  exists us, CellModel.pre_save_admin omitUndefined this db
             = Proceed (this, with_users db us).
Proof.
  unfold CellModel.pre_save_admin.
  destruct (isModified _ _);
    [destruct (CellModel.admin this)|]; eauto;
    exists (users db); by destruct db.
Qed.

Lemma group_pre_save_leader_doc this db :
  exists us, IntoreGroupModel.pre_save_leader omitUndefined this db
             = Proceed (this, with_users db us).
Proof.
  unfold IntoreGroupModel.pre_save_leader.
  destruct (isModified _ _);
    [destruct (IntoreGroupModel.leader this)|]; eauto;
    exists (users db); by destruct db.
Qed.

(** What the second hook is there for: when the hooks run on a new Cell
    whose sector exists, the Cell gets the district of that sector, whatever
    district it came with; when they run on a new IntoreGroup whose cell
    exists, the group gets the sector and the district of that cell. *)
Lemma hooks_fill_hierarchy_from_parent :
  (forall (this : CellModel.Doc) db sid sec,
      CellModel.isNew this = true ->
      CellModel.sector this = Some sid ->
      sectors db !! sid = Some sec ->
      exists this' db',
        CellModel.pre_save omitUndefined this db = Proceed (this', db')
        /\ CellModel.district this' = Some (sector_district sec)
        /\ CellModel.sector this' = Some sid
        /\ CellModel._id this' = CellModel._id this)
  /\ (forall (this : IntoreGroupModel.Doc) db cid cl,
      IntoreGroupModel.isNew this = true ->
      IntoreGroupModel.cell this = Some cid ->
      cells db !! cid = Some cl ->
      exists this' db',
        IntoreGroupModel.pre_save omitUndefined this db = Proceed (this', db')
        /\ IntoreGroupModel.sector this' = Some (cell_sector cl)
        /\ IntoreGroupModel.district this' = Some (cell_district cl)
        /\ IntoreGroupModel.cell this' = Some cid
        /\ IntoreGroupModel._id this' = IntoreGroupModel._id this).
Proof.
  split.
  - intros this db sid sec Hnew Hsec Hl.
    unfold CellModel.pre_save.
    destruct (cell_pre_save_admin_doc this db) as [us ->]. simpl.
    unfold CellModel.pre_save_hierarchy.
    rewrite Hsec, Hnew. simpl. rewrite Hl.
    eexists _, _. split; [reflexivity|]. simpl. done.
  - intros this db cid cl Hnew Hcell Hl.
    unfold IntoreGroupModel.pre_save.
    destruct (group_pre_save_leader_doc this db) as [us ->]. simpl.
    unfold IntoreGroupModel.pre_save_hierarchy.
    rewrite Hcell, Hnew. simpl. rewrite Hl.
    eexists _, _. split; [reflexivity|]. simpl. done.
Qed.

(** A document that fails validation never reaches the hooks: nothing is
    written to any user and the document is left as it was. *)
Lemma cell_save_invalid this db :
  CellModel.validate this ≠ [] ->
  CellModel.save omitUndefined this db
  = ValidationError (CellModel.validate this).
Proof.
  intros Hv. unfold CellModel.save. by destruct (CellModel.validate this).
Qed.

Lemma group_save_invalid this db :
  IntoreGroupModel.validate this ≠ [] ->
  IntoreGroupModel.save omitUndefined this db
  = ValidationError (IntoreGroupModel.validate this).
Proof.
  intros Hv. unfold IntoreGroupModel.save.
  by destruct (IntoreGroupModel.validate this).
Qed.

Lemma cell_save_valid this db :
  CellModel.validate this = [] ->
  CellModel.save omitUndefined this db
  = match CellModel.pre_save omitUndefined this db with
    | Proceed st => ToDriver st
    | Abort err => HookError err
    end.
Proof. intros Hv. unfold CellModel.save. by rewrite Hv. Qed.

Lemma group_save_valid this db :
  IntoreGroupModel.validate this = [] ->
  IntoreGroupModel.save omitUndefined this db
  = match IntoreGroupModel.pre_save omitUndefined this db with
    | Proceed st => ToDriver st
    | Abort err => HookError err
    end.
Proof. intros Hv. unfold IntoreGroupModel.save. by rewrite Hv. Qed.

(** C4, where the code departs from it. A Cell created without a district
    is refused by the schema validation, which runs before the hooks:
    [save] ends in a ValidationError that names the missing district, the
    hook that would fill the district from the sector never runs, and the
    same holds for an IntoreGroup created without its sector or without its
    district. Whether the parent exists makes no difference. *)
Theorem new_entity_without_hierarchy_is_refused :
  (forall (this : CellModel.Doc) db,
      CellModel.district this = None ->
      exists errors,
        CellModel.save omitUndefined this db = ValidationError errors
        /\ "District is required" ∈ errors)
  /\ (forall (this : IntoreGroupModel.Doc) db,
      IntoreGroupModel.sector this = None ->
      exists errors,
        IntoreGroupModel.save omitUndefined this db = ValidationError errors
        /\ "Sector is required" ∈ errors)
  /\ (forall (this : IntoreGroupModel.Doc) db,
      IntoreGroupModel.district this = None ->
      exists errors,
        IntoreGroupModel.save omitUndefined this db = ValidationError errors
        /\ "District is required" ∈ errors).
Proof.
  split; [|split].
  - intros this db Hd.
    assert ("District is required" ∈ CellModel.validate this) as Hin.
    { unfold CellModel.validate. rewrite Hd.
      change (bool_decide (is_Some (@None Id))) with false.
      rewrite !elem_of_app. cbn [required].
      rewrite list_elem_of_singleton. naive_solver. }
    exists (CellModel.validate this). split; [|done].
    apply cell_save_invalid. intros Hnil. rewrite Hnil in Hin.
    by apply elem_of_nil in Hin.
  - intros this db Hs.
    assert ("Sector is required" ∈ IntoreGroupModel.validate this) as Hin.
    { unfold IntoreGroupModel.validate. rewrite Hs.
      change (bool_decide (is_Some (@None Id))) with false.
      rewrite !elem_of_app. cbn [required].
      rewrite list_elem_of_singleton. naive_solver. }
    exists (IntoreGroupModel.validate this). split; [|done].
    apply group_save_invalid. intros Hnil. rewrite Hnil in Hin.
    by apply elem_of_nil in Hin.
  - intros this db Hd.
    assert ("District is required" ∈ IntoreGroupModel.validate this) as Hin.
    { unfold IntoreGroupModel.validate. rewrite Hd.
      change (bool_decide (is_Some (@None Id))) with false.
      rewrite !elem_of_app. cbn [required].
      rewrite list_elem_of_singleton. naive_solver. }
    exists (IntoreGroupModel.validate this). split; [|done].
    apply group_save_invalid. intros Hnil. rewrite Hnil in Hin.
    by apply elem_of_nil in Hin.
Qed.

(** C3, as the code has it. Creating a Cell that passes the schema and
    whose sector does not exist, or an IntoreGroup that passes the schema and
    whose cell does not exist, is not rejected: validation and the hooks
    hand on without an error, the document goes to the driver with the
    hierarchy fields it was created with (nothing is filled in), the
    District, Sector and Cell collections are unchanged, and no User other
    than the document's admin (leader) is changed. *)
Theorem create_with_missing_parent_proceeds_unfilled :
  (forall (this : CellModel.Doc) db sid,
      CellModel.validate this = [] ->
      CellModel.isNew this = true ->
      CellModel.sector this = Some sid ->
      sectors db !! sid = None ->
      exists db',
        CellModel.save omitUndefined this db = ToDriver (this, db')
        /\ districts db' = districts db /\ sectors db' = sectors db
        /\ cells db' = cells db
        /\ forall uid, CellModel.admin this ≠ Some uid ->
                       users db' !! uid = users db !! uid)
  /\ (forall (this : IntoreGroupModel.Doc) db cid,
      IntoreGroupModel.validate this = [] ->
      IntoreGroupModel.isNew this = true ->
      IntoreGroupModel.cell this = Some cid ->
      cells db !! cid = None ->
      exists db',
        IntoreGroupModel.save omitUndefined this db = ToDriver (this, db')
        /\ districts db' = districts db /\ sectors db' = sectors db
        /\ cells db' = cells db
        /\ forall uid, IntoreGroupModel.leader this ≠ Some uid ->
                       users db' !! uid = users db !! uid).
Proof.
  split.
  - intros this db sid Hv Hnew Hsec Hl. rewrite (cell_save_valid _ _ Hv).
    unfold CellModel.pre_save, CellModel.pre_save_admin.
    destruct (isModified _ _);
      [destruct (CellModel.admin this) as [a|] eqn:Ha|]; simpl;
      unfold CellModel.pre_save_hierarchy; rewrite Hsec, Hnew; simpl;
      rewrite Hl; eexists; (split; [reflexivity|]); simpl;
      repeat split; try done.
    intros uid Hne. apply findByIdAndUpdate_other. congruence.
  - intros this db cid Hv Hnew Hcell Hl. rewrite (group_save_valid _ _ Hv).
    unfold IntoreGroupModel.pre_save, IntoreGroupModel.pre_save_leader.
    destruct (isModified _ _);
      [destruct (IntoreGroupModel.leader this) as [a|] eqn:Ha|]; simpl;
      unfold IntoreGroupModel.pre_save_hierarchy; rewrite Hcell, Hnew; simpl;
      rewrite Hl; eexists; (split; [reflexivity|]); simpl;
      repeat split; try done.
    intros uid Hne. apply findByIdAndUpdate_other. congruence.
Qed.

(** What saving a Cell with a modified admin does to that user: the role
    becomes cell_admin and the hierarchy holds the cell's identifier and
    the sector and district the document has when the admin hook runs,
    which is before the district of a new Cell is filled in. *)
Lemma cell_admin_cascade_at_hook_time (this : CellModel.Doc) db uid u d s :
  CellModel.admin this = Some uid ->
  isModified (CellModel.modifiedPaths this) "admin" = true ->
  CellModel.district this = Some d ->
  CellModel.sector this = Some s ->
  users db !! uid = Some u ->
  exists this' db' u',
    CellModel.pre_save omitUndefined this db = Proceed (this', db')
    /\ users db' !! uid = Some u'
    /\ role u' = "cell_admin"
    /\ hierarchy u' = {| h_district := Some d; h_sector := Some s;
                         h_cell := Some (CellModel._id this) |}.
Proof.
  intros Ha Hm Hd Hs Hu.
  unfold CellModel.pre_save, CellModel.pre_save_admin.
  rewrite Ha, Hm, Hd, Hs. cbn [and_then fst snd].
  unfold CellModel.pre_save_hierarchy. rewrite Hs.
  destruct (CellModel.isNew this);
    [cbn [findById sectors with_users]; destruct (sectors db !! s)|];
    eexists _, _, _; (split; [reflexivity|]);
    cbn [users with_users fst snd];
    rewrite (findByIdAndUpdate_lookup _ _ _ _ Hu), cell_update_values;
    (split; [reflexivity|]); done.
Qed.

(** For a Cell that is not new the hierarchy written to the admin is the
    saved Cell's own. *)
Lemma cell_admin_cascade_existing_cell (this : CellModel.Doc) db uid u d s :
  CellModel.isNew this = false ->
  CellModel.admin this = Some uid ->
  isModified (CellModel.modifiedPaths this) "admin" = true ->
  CellModel.district this = Some d ->
  CellModel.sector this = Some s ->
  users db !! uid = Some u ->
  exists db' u',
    CellModel.pre_save omitUndefined this db = Proceed (this, db')
    /\ users db' !! uid = Some u'
    /\ role u' = "cell_admin"
    /\ h_district (hierarchy u') = CellModel.district this
    /\ h_sector (hierarchy u') = CellModel.sector this
    /\ h_cell (hierarchy u') = Some (CellModel._id this).
Proof.
  intros Hnew Ha Hm Hd Hs Hu.
  unfold CellModel.pre_save, CellModel.pre_save_admin.
  rewrite Ha, Hm, Hd, Hs. cbn [and_then fst snd].
  unfold CellModel.pre_save_hierarchy. rewrite Hs, Hnew.
  eexists _, _. split; [reflexivity|]. cbn [users with_users fst snd].
  rewrite (findByIdAndUpdate_lookup _ _ _ _ Hu), cell_update_values.
  split; [reflexivity|]. done.
Qed.

(** C6. The role cascade is idempotent: for a District, a Sector or a
    Cell, running the pre-save hooks a second time on the same document,
    from the database the first run left, gives the same document and
    leaves that database (hence the user's role and hierarchy) as it is. *)
Theorem role_cascade_idempotent :
  (forall (this : DistrictModel.Doc) db,
      exists db1,
        DistrictModel.pre_save omitUndefined this db = Proceed (this, db1)
        /\ DistrictModel.pre_save omitUndefined this db1 = Proceed (this, db1))
  /\ (forall (this : SectorModel.Doc) db,
      exists db1,
        SectorModel.pre_save omitUndefined this db = Proceed (this, db1)
        /\ SectorModel.pre_save omitUndefined this db1 = Proceed (this, db1))
  /\ (forall (this : CellModel.Doc) db,
      exists this1 db1,
        CellModel.pre_save omitUndefined this db = Proceed (this1, db1)
        /\ CellModel.pre_save omitUndefined this db1 = Proceed (this1, db1)).
Proof.
  split; [|split].
  - intros this db. unfold DistrictModel.pre_save.
    destruct (isModified _ _);
      [destruct (DistrictModel.admin this) as [a|]|]; eexists; (split; [reflexivity|]);
      try reflexivity.
    cbn [users with_users districts sectors cells].
    by rewrite findByIdAndUpdate_twice by apply district_update_idem.
  - intros this db. unfold SectorModel.pre_save.
    destruct (isModified _ _);
      [destruct (SectorModel.admin this) as [a|]|]; eexists; (split; [reflexivity|]);
      try reflexivity.
    cbn [users with_users districts sectors cells].
    by rewrite findByIdAndUpdate_twice by apply sector_update_idem.
  - intros this db.
    unfold CellModel.pre_save, CellModel.pre_save_admin,
      CellModel.pre_save_hierarchy.
    destruct (isModified _ _);
      [destruct (CellModel.admin this) as [a|]|];
      cbn [and_then fst snd];
      (destruct (CellModel.isNew this);
        [destruct (CellModel.sector this) as [sid|];
          [cbn [findById sectors with_users];
           destruct (sectors db !! sid) eqn:Hsec|]|]);
      eexists _, _; (split; [reflexivity|]);
      cbn [users with_users districts sectors cells];
      rewrite ?Hsec, ?findByIdAndUpdate_twice by apply cell_update_idem;
      reflexivity.
Qed.

(** C7. Saving an IntoreGroup that passes the schema and whose leader field
    was set to an existing user makes that user's [intoreGroup] the group's
    identifier and leaves the user's role and hierarchy as they were. *)
Theorem leader_assignment_sets_group_keeps_role
    (this : IntoreGroupModel.Doc) db uid u :
  IntoreGroupModel.validate this = [] ->
  IntoreGroupModel.leader this = Some uid ->
  isModified (IntoreGroupModel.modifiedPaths this) "leader" = true ->
  users db !! uid = Some u ->
  exists this' db' u',
    IntoreGroupModel.save omitUndefined this db = ToDriver (this', db')
    /\ users db' !! uid = Some u'
    /\ intoreGroup u' = Some (IntoreGroupModel._id this)
    /\ role u' = role u
    /\ hierarchy u' = hierarchy u.
Proof.
  intros Hv Hl Hm Hu. rewrite (group_save_valid _ _ Hv).
  unfold IntoreGroupModel.pre_save, IntoreGroupModel.pre_save_leader.
  rewrite Hl, Hm. cbn [and_then fst snd].
  unfold IntoreGroupModel.pre_save_hierarchy.
  destruct (IntoreGroupModel.isNew this);
    [destruct (IntoreGroupModel.cell this) as [cid|];
      [cbn [findById cells with_users]; destruct (cells db !! cid)|]|];
    eexists _, _, _; (split; [reflexivity|]);
    cbn [users with_users fst snd];
    rewrite (findByIdAndUpdate_lookup _ _ _ _ Hu), leader_update_values;
    (split; [reflexivity|]); done.
Qed.

End WithLibrary.

(** The example of the claim: District KGL, Sector NYA in KGL, and a new
    Cell under NYA created without a district; and a new IntoreGroup created
    with only its cell. Both are refused before the fill hook runs. *)
Lemma new_entity_without_hierarchy_is_refused_witness :
  CellModel.save true Sample.new_cell Sample.db
    = ValidationError ["District is required"]
  /\ IntoreGroupModel.save true Sample.new_group Sample.db
     = ValidationError ["Sector is required"; "District is required"]
  /\ exists errors,
       CellModel.save true Sample.new_cell Sample.db = ValidationError errors
       /\ "District is required" ∈ errors.
Proof.
  split; [vm_compute; reflexivity|]. split; [vm_compute; reflexivity|].
  exact (proj1 (new_entity_without_hierarchy_is_refused true)
           Sample.new_cell Sample.db eq_refl).
Defined.

Example hooks_would_fill_the_example :
  exists this' db',
    CellModel.pre_save true Sample.new_cell Sample.db = Proceed (this', db')
    /\ CellModel.district this' = Some "d-kgl".
Proof. eexists _, _. split; [reflexivity|]. vm_compute. reflexivity. Qed.

(** A Cell that passes the schema, created with admin [u1] under a sector
    that does not exist: the save is not rejected, the Cell goes to the
    driver, and the admin named on it has been rewritten. *)
Lemma create_cell_with_missing_sector_is_not_rejected :
  CellModel.validate Sample.orphan_cell = []
  /\ sectors Sample.db !! "s-missing" = None
  /\ users Sample.db !! "u1" = Some Sample.member_user
  /\ exists db',
      CellModel.save true Sample.orphan_cell Sample.db
        = ToDriver (Sample.orphan_cell, db')
      /\ role <$> users db' !! "u1" = Some "cell_admin".
Proof.
  split; [vm_compute; reflexivity|]. split; [vm_compute; reflexivity|].
  split; [vm_compute; reflexivity|].
  eexists. split; [reflexivity|]. vm_compute. done.
Qed.

Lemma create_with_missing_parent_proceeds_unfilled_witness :
  (exists db',
      CellModel.save true Sample.orphan_cell Sample.db
        = ToDriver (Sample.orphan_cell, db')
      /\ districts db' = districts Sample.db
      /\ sectors db' = sectors Sample.db
      /\ cells db' = cells Sample.db
      /\ forall uid, CellModel.admin Sample.orphan_cell ≠ Some uid ->
                     users db' !! uid = users Sample.db !! uid)
  /\ (exists db',
         IntoreGroupModel.save true Sample.orphan_group Sample.db
           = ToDriver (Sample.orphan_group, db')
         /\ districts db' = districts Sample.db
         /\ sectors db' = sectors Sample.db
         /\ cells db' = cells Sample.db
         /\ forall uid, IntoreGroupModel.leader Sample.orphan_group ≠ Some uid ->
                        users db' !! uid = users Sample.db !! uid).
Proof.
  split.
  - apply (proj1 (create_with_missing_parent_proceeds_unfilled true)
             Sample.orphan_cell Sample.db "s-missing");
      vm_compute; reflexivity.
  - apply (proj2 (create_with_missing_parent_proceeds_unfilled true)
             Sample.orphan_group Sample.db "c-missing");
      vm_compute; reflexivity.
Defined.

(** C5, at an input where the code departs from it. A new Cell is saved
    with admin [u1], sector NYA (whose district is KGL) and a district that
    is not KGL. The admin hook runs first and writes the document's district
    of that moment to the user; the second hook then replaces the Cell's
    district by KGL. After the save the user is cell_admin with the Cell's
    sector and identifier, but the user's district is not the Cell's. The
    document passes the schema, so this is how [save] ends. *)
Theorem cell_admin_cascade_misses_filled_district (omitUndefined : bool) :
  exists this' db' u',
    CellModel.pre_save omitUndefined Sample.mismatched_cell Sample.db
      = Proceed (this', db')
    /\ users db' !! "u1" = Some u'
    /\ role u' = "cell_admin"
    /\ h_sector (hierarchy u') = CellModel.sector this'
    /\ h_cell (hierarchy u') = Some (CellModel._id this')
    /\ CellModel.district this' = Some "d-kgl"
    /\ h_district (hierarchy u') = Some "d-other"
    /\ h_district (hierarchy u') ≠ CellModel.district this'
    /\ CellModel.save omitUndefined Sample.mismatched_cell Sample.db
       = ToDriver (this', db').
Proof.
  destruct omitUndefined;
    eexists _, _, _; (split; [reflexivity|]);
    (split; [vm_compute; reflexivity|]); vm_compute;
    repeat split; (discriminate || reflexivity).
Qed.

Lemma leader_assignment_sets_group_keeps_role_witness :
  IntoreGroupModel.validate Sample.led_group = []
  /\ exists this' db' u',
       IntoreGroupModel.save true Sample.led_group Sample.db
         = ToDriver (this', db')
       /\ users db' !! "u1" = Some u'
       /\ intoreGroup u' = Some "g-new"
       /\ role u' = "member"
       /\ hierarchy u' = hierarchy Sample.member_user.
Proof.
  split; [vm_compute; reflexivity|].
  apply (leader_assignment_sets_group_keeps_role true Sample.led_group
           Sample.db "u1" Sample.member_user);
    vm_compute; reflexivity.
Defined.

End CascadeSpec.

(** ** The global error handler and its audit write *)

Module ErrorHandlerSpec.
Import ErrorHandler.

(** The audit document the handler builds names a resource type that is not
    in the schema's enum and carries no resource identifier, so the schema
    refuses it whatever the request. *)
Lemma handler_audit_document_is_refused msg stack url method ua ip uid log :
  AuditLog.logAction "ERROR" "system" None (Some uid) None None None
    [("errorMessage", msg); ("stack", stack); ("url", Some url);
     ("method", Some method); ("userAgent", ua); ("ipAddress", ip)]
    "error" "System error occurred" ip ua log
  = AuditLog.Rejected
      ["`system` is not a valid enum value for path `resourceType`.";
       "Resource ID is required"].
Proof. reflexivity. Qed.

(** With no user on the request there is no audit write, and the response
    for the error is sent whenever the error can be normalised. *)
Lemma errorHandler_without_user_responds development err req log r :
  user req = None ->
  response_for development err = Some r ->
  errorHandler development err req log = (Sent r, log).
Proof.
  intros H Hr. unfold errorHandler, response_for in *.
  destruct (normalise err) as [error|]; [|discriminate].
  injection Hr as <-. by rewrite H.
Qed.

(** With a user on the request the audit write rejects, or normalising has
    thrown before: the handler's promise rejects and nothing is sent. *)
Lemma errorHandler_with_user_never_responds development err req log uid :
  user req = Some uid ->
  exists reason, errorHandler development err req log = (Unhandled reason, log).
Proof.
  intros H. unfold errorHandler. destruct (normalise err); [|eauto].
  rewrite H, handler_audit_document_is_refused. eauto.
Qed.

(** C2, at an input where the code departs from it. An error with status
    503 and message "Database unavailable" reaches the handler on an
    authenticated request. The response for it would be 503 with that
    message, but the audit write rejects and the handler ends on that
    rejection: no response is sent and nothing is logged. *)
Theorem errorHandler_audit_rejection_suppresses_response :
  response_for false Sample.err
    = Some {| status := 503; success := false;
              body_message := Msg "Database unavailable"; body_stack := None |}
  /\ errorHandler false Sample.err Sample.req []
     = (Unhandled ["`system` is not a valid enum value for path `resourceType`.";
                   "Resource ID is required"], []).
Proof. split; reflexivity. Qed.

End ErrorHandlerSpec.

(** ** The sensitive-operation rate limiter *)

Module RateLimitSpec.
Import Auth.

Local Open Scope Z_scope.

(** *** Filtering timestamps *)

Lemma filter_length_le (f : Z -> bool) (l : list Z) :
  (length (List.filter f l) <= length l)%nat.
Proof. induction l as [|x l IH]; simpl; [lia|]. destruct (f x); simpl; lia. Qed.

Lemma filter_all (f : Z -> bool) (l : list Z) :
  length (List.filter f l) = length l -> List.filter f l = l.
Proof.
  induction l as [|x l IH]; simpl; [done|].
  destruct (f x); simpl; intros H.
  - f_equal. apply IH. lia.
  - pose proof (filter_length_le f l). lia.
Qed.

Lemma filter_length_mono (f g : Z -> bool) (l : list Z) :
  (forall x, In x l -> f x = true -> g x = true) ->
  (length (List.filter f l) <= length (List.filter g l))%nat.
Proof.
  induction l as [|x l IH]; intros Hfg; simpl; [lia|].
  assert (length (List.filter f l) <= length (List.filter g l))%nat as Hl
    by (apply IH; intros y Hy; apply Hfg; by right).
  destruct (f x) eqn:Hf.
  - rewrite (Hfg x (or_introl eq_refl) Hf). simpl. lia.
  - destruct (g x); simpl; lia.
Qed.

Lemma filter_filter_stronger (f g : Z -> bool) (l : list Z) :
  (forall x, f x = true -> g x = true) ->
  List.filter f (List.filter g l) = List.filter f l.
Proof.
  intros Hfg. induction l as [|x l IH]; simpl; [done|].
  destruct (g x) eqn:Hg; simpl.
  - destruct (f x); by rewrite IH.
  - destruct (f x) eqn:Hf; [|done]. rewrite (Hfg x Hf) in Hg. discriminate.
Qed.

Lemma later_than_true c x : later_than c x = true <-> c < x.
Proof. unfold later_than. rewrite Z.gtb_ltb. apply Z.ltb_lt. Qed.

Lemma in_window_true w t x : in_window w t x = true <-> t - w < x /\ x <= t.
Proof.
  unfold in_window. rewrite andb_true_iff, Z.gtb_ltb, Z.ltb_lt, Z.leb_le. done.
Qed.

Lemma count_in_window_app w t (l1 l2 : list Z) :
  count_in_window w t (l1 ++ l2)
  = count_in_window w t l1 + count_in_window w t l2.
Proof.
  unfold count_in_window. rewrite List.filter_app, length_app. lia.
Qed.

(** *** One call of the middleware *)

Section Step.
Variables (windowMs max : Z).

Lemma step_decision requests key now :
  fst (rateLimitSensitive windowMs max requests key now)
  = if Z.geb (Z.of_nat (length (validRequests windowMs requests key now))) max
    then Rejected 429 else Passed.
Proof.
  unfold rateLimitSensitive, validRequests, stored, later_than.
  destruct (requests !! key) as [l|] eqn:Hl.
  - rewrite Hl. simpl. by destruct (Z.geb _ _).
  - rewrite lookup_insert_eq. simpl. by destruct (Z.geb _ _).
Qed.

Lemma step_stored_key requests key now :
  stored (snd (rateLimitSensitive windowMs max requests key now)) key
  = if Z.geb (Z.of_nat (length (validRequests windowMs requests key now))) max
    then stored requests key
    else (validRequests windowMs requests key now ++ [now])%list.
Proof.
  unfold rateLimitSensitive, validRequests, stored, later_than.
  destruct (requests !! key) as [l|] eqn:Hl.
  - rewrite Hl. simpl. destruct (Z.geb _ _); simpl.
    + by rewrite Hl.
    + by rewrite lookup_insert_eq.
  - rewrite lookup_insert_eq. simpl. destruct (Z.geb _ _); simpl.
    + by rewrite lookup_insert_eq.
    + by rewrite lookup_insert_eq.
Qed.

Lemma step_stored_other requests key now k :
  k ≠ key ->
  stored (snd (rateLimitSensitive windowMs max requests key now)) k
  = stored requests k.
Proof.
  intros Hne. unfold rateLimitSensitive, stored.
  destruct (requests !! key) as [l|] eqn:Hl.
  - destruct (Z.geb _ _); simpl; [done|].
    by rewrite lookup_insert_ne.
  - destruct (Z.geb _ _); simpl; rewrite ?lookup_insert_ne; done.
Qed.

(** *** The invariant of one key *)

Hypothesis max_nonneg : 0 <= max.

Lemma inv_initial last : limiter_inv windowMs max last [] [].
Proof.
  split; simpl; done.
Qed.

Lemma inv_later last now H L :
  last <= now ->
  limiter_inv windowMs max last H L -> limiter_inv windowMs max now H L.
Proof.
  intros Hle [Ha Hp Hb Hs]. split; try done.
  - intros c Hc. apply Ha. lia.
  - intros x Hx. specialize (Hp x Hx). lia.
Qed.

(** Against the admitted timestamps, the number of valid stored entries
    is the number of admitted timestamps in the window that ends now. *)
Lemma inv_valid_count last now H L :
  last <= now ->
  limiter_inv windowMs max last H L ->
  Z.of_nat (length (List.filter (later_than (now - windowMs)) L))
  = count_in_window windowMs now H.
Proof.
  intros Hle [Ha Hp Hb Hs]. rewrite Ha by lia.
  unfold count_in_window. f_equal. f_equal.
  apply List.filter_ext_in. intros x Hx.
  specialize (Hp x Hx).
  destruct (in_window windowMs now x) eqn:Hw.
  - apply in_window_true in Hw. apply later_than_true. lia.
  - apply not_true_is_false. rewrite later_than_true. intros Hlt.
    assert (in_window windowMs now x = true) by (apply in_window_true; lia).
    congruence.
Qed.

Lemma inv_pass last now H L :
  last <= now ->
  limiter_inv windowMs max last H L ->
  Z.of_nat (length (List.filter (later_than (now - windowMs)) L)) < max ->
  limiter_inv windowMs max now (H ++ [now])
    (List.filter (later_than (now - windowMs)) L ++ [now]).
Proof.
  intros Hle Hinv Hlt.
  pose proof (inv_valid_count last now H L Hle Hinv) as Hcount.
  destruct Hinv as [Ha Hp Hb Hs]. split.
  - intros c Hc. rewrite !List.filter_app. f_equal.
    rewrite filter_filter_stronger.
    + apply Ha. lia.
    + intros x Hx. apply later_than_true in Hx. apply later_than_true. lia.
  - intros x Hx. apply in_app_or in Hx as [Hx|Hx].
    + specialize (Hp x Hx). lia.
    + simpl in Hx. destruct Hx as [<-|[]]. lia.
  - intros t. rewrite count_in_window_app.
    destruct (in_window windowMs t now) eqn:Hw.
    + pose proof (proj1 (in_window_true _ _ _) Hw) as Hnow.
      assert (count_in_window windowMs t H <= count_in_window windowMs now H).
      { unfold count_in_window. apply Nat2Z.inj_le.
        apply filter_length_mono. intros x Hin Hx.
        apply in_window_true in Hx. apply in_window_true.
        specialize (Hp x Hin). lia. }
      unfold count_in_window at 2. simpl. rewrite Hw. simpl. lia.
    + unfold count_in_window at 2. simpl. rewrite Hw. simpl.
      specialize (Hb t). lia.
  - rewrite length_app. simpl. lia.
Qed.

(** *** A sequence of requests *)

Lemma passed_times_cons k key now d rest ds :
  passed_times k ((key, now) :: rest) (d :: ds)
  = (passed_times k [(key, now)] [d] ++ passed_times k rest ds)%list.
Proof.
  simpl. destruct d; [|done]. by destruct (String.eqb key k).
Qed.

Lemma step_preserves_inv requests key now last (hist : string -> list Z) :
  last <= now ->
  (forall k, limiter_inv windowMs max last (hist k) (stored requests k)) ->
  forall k,
    limiter_inv windowMs max now
      (hist k ++ passed_times k [(key, now)]
                   [fst (rateLimitSensitive windowMs max requests key now)])
      (stored (snd (rateLimitSensitive windowMs max requests key now)) k).
Proof.
  intros Hle Hinv k. specialize (Hinv k).
  destruct (String.eqb_spec key k) as [->|Hne].
  - rewrite step_decision, step_stored_key. unfold validRequests.
    destruct (Z.geb _ _) eqn:Hge; simpl.
    + rewrite app_nil_r. by eapply inv_later.
    + rewrite String.eqb_refl. eapply inv_pass; [done..|].
      rewrite Z.geb_leb in Hge. apply Z.leb_gt in Hge. done.
  - rewrite step_stored_other by done.
    assert (passed_times k [(key, now)]
              [fst (rateLimitSensitive windowMs max requests key now)] = [])
      as ->.
    { simpl. destruct (fst _); [|done].
      destruct (String.eqb_spec key k); [done|done]. }
    rewrite app_nil_r. by eapply inv_later.
Qed.

Lemma serve_preserves_inv reqs :
  forall requests last (hist : string -> list Z),
    clock_monotone last reqs ->
    (forall k, limiter_inv windowMs max last (hist k) (stored requests k)) ->
    forall k,
      limiter_inv windowMs max (last_clock last reqs)
        (hist k ++ passed_times k reqs (fst (serve windowMs max requests reqs)))
        (stored (snd (serve windowMs max requests reqs)) k).
Proof.
  induction reqs as [|[key now] rest IH]; intros requests last hist Hmono Hinv k.
  - simpl. rewrite app_nil_r. apply Hinv.
  - destruct Hmono as [Hle Hmono].
    pose proof (step_preserves_inv requests key now last hist Hle Hinv) as Hstep.
    cbn [serve last_clock].
    destruct (rateLimitSensitive windowMs max requests key now)
      as [d requests'] eqn:Estep.
    specialize (IH requests' now _ Hmono Hstep k).
    destruct (serve windowMs max requests' rest) as [ds final] eqn:Erest.
    cbn [fst snd] in *.
    rewrite passed_times_cons, app_assoc. exact IH.
Qed.

Lemma clock_monotone_app last pre key now post :
  clock_monotone last (pre ++ (key, now) :: post) ->
  clock_monotone last pre /\ last_clock last pre <= now.
Proof.
  revert last. induction pre as [|[k t] pre IH]; intros last; simpl.
  - intros [Hle _]. done.
  - intros [Hle Hrest]. destruct (IH t Hrest). done.
Qed.

Lemma reachable_inv start pre :
  clock_monotone start pre ->
  forall k,
    limiter_inv windowMs max (last_clock start pre)
      (passed_times k pre (fst (serve windowMs max ∅ pre)))
      (stored (snd (serve windowMs max ∅ pre)) k).
Proof.
  intros Hmono k.
  apply (serve_preserves_inv pre ∅ start (fun _ => []) Hmono).
  intros k'. unfold stored. rewrite lookup_empty. apply inv_initial.
Qed.

(** C8. From the empty map, over any sequence of requests whose clock
    does not go backwards: for every key, no window of [windowMs]
    milliseconds holds more than [max] admitted timestamps; a request that
    arrives while [max] or more admitted timestamps of its key lie within
    the preceding [windowMs] is rejected with 429 and the stored list of
    its key stays as it is, and is admitted otherwise; after every check
    the stored list of the key is the list pruned to the window, followed
    by the new timestamp when the request was admitted; the lists of the
    other keys are not touched. *)
Theorem rateLimitSensitive_sliding_window start reqs :
  clock_monotone start reqs ->
  (forall key t,
      count_in_window windowMs t
        (passed_times key reqs (fst (serve windowMs max ∅ reqs))) <= max)
  /\ (forall pre key now post,
      reqs = (pre ++ (key, now) :: post)%list ->
      let before := snd (serve windowMs max ∅ pre) in
      let earlier := passed_times key pre (fst (serve windowMs max ∅ pre)) in
      let d := fst (rateLimitSensitive windowMs max before key now) in
      let after := snd (rateLimitSensitive windowMs max before key now) in
      (max <= count_in_window windowMs now earlier ->
         d = Rejected 429 /\ stored after key = stored before key)
      /\ (count_in_window windowMs now earlier < max -> d = Passed)
      /\ stored after key
         = (List.filter (later_than (now - windowMs)) (stored before key)
            ++ match d with Passed => [now] | Rejected _ => [] end)%list
      /\ (forall k, k ≠ key -> stored after k = stored before k)).
Proof.
  intros Hmono. split.
  - intros key t. apply (reachable_inv start reqs Hmono key).
  - intros pre key now post -> before earlier d after.
    apply clock_monotone_app in Hmono as [Hpre Hle].
    pose proof (reachable_inv start pre Hpre key) as Hinv.
    pose proof (inv_valid_count _ now _ _ Hle Hinv) as Hcount.
    fold before earlier in Hinv, Hcount.
    assert (d = if Z.geb (Z.of_nat (length (validRequests windowMs before key now))) max
                then Rejected 429 else Passed) as Hd
      by apply step_decision.
    assert (stored after key
            = if Z.geb (Z.of_nat (length (validRequests windowMs before key now))) max
              then stored before key
              else (validRequests windowMs before key now ++ [now])%list) as Hs
      by apply step_stored_key.
    unfold validRequests in Hd, Hs. rewrite Hcount in Hd, Hs.
    split; [|split; [|split]].
    + intros Hge.
      assert (Z.geb (count_in_window windowMs now earlier) max = true) as Hb
        by (rewrite Z.geb_leb; apply Z.leb_le; lia).
      rewrite Hb in Hd, Hs. done.
    + intros Hlt.
      assert (Z.geb (count_in_window windowMs now earlier) max = false) as Hb
        by (rewrite Z.geb_leb; apply Z.leb_gt; lia).
      by rewrite Hb in Hd.
    + rewrite Hs, Hd.
      destruct (Z.geb (count_in_window windowMs now earlier) max) eqn:Hb;
        [|done].
      rewrite app_nil_r. symmetry. apply filter_all.
      rewrite Z.geb_leb in Hb. apply Z.leb_le in Hb.
      pose proof (inv_size _ _ _ _ _ Hinv) as Hsize.
      pose proof (filter_length_le (later_than (now - windowMs))
                    (stored before key)).
      lia.
    + intros k Hne. by apply step_stored_other.
Qed.

End Step.

Example request_key_of_authenticated_request :
  request_key (Some "10.0.0.7") (Some "u1") = "10.0.0.7u1".
Proof. reflexivity. Qed.

Example request_key_of_anonymous_request :
  request_key (Some "10.0.0.7") None = "10.0.0.7undefined"
  /\ request_key None None = "anonymous".
Proof. split; reflexivity. Qed.

Example three_requests_in_a_window :
  fst (serve 10 2 ∅ [("10.0.0.7u1", 0); ("10.0.0.7u1", 3);
                     ("10.0.0.7u1", 5); ("10.0.0.7u1", 11)])
  = [Passed; Passed; Rejected 429; Passed].
Proof. vm_compute. reflexivity. Qed.

Lemma rateLimitSensitive_sliding_window_witness :
  0 <= 2
  /\ clock_monotone 0 [("10.0.0.7u1", 0); ("10.0.0.7u1", 3);
                       ("10.0.0.7u1", 5); ("10.0.0.7u1", 11)]
  /\ forall key t,
       count_in_window 10 t
         (passed_times key
            [("10.0.0.7u1", 0); ("10.0.0.7u1", 3);
             ("10.0.0.7u1", 5); ("10.0.0.7u1", 11)]
            (fst (serve 10 2 ∅ [("10.0.0.7u1", 0); ("10.0.0.7u1", 3);
                                ("10.0.0.7u1", 5); ("10.0.0.7u1", 11)]))) <= 2.
Proof.
  assert (H0 : 0 <= 2) by lia.
  assert (Hm : clock_monotone 0 [("10.0.0.7u1", 0); ("10.0.0.7u1", 3);
                                 ("10.0.0.7u1", 5); ("10.0.0.7u1", 11)])
    by (simpl; lia).
  split; [exact H0|]. split; [exact Hm|].
  exact (proj1 (rateLimitSensitive_sliding_window 10 2 H0 0 _ Hm)).
Defined.

End RateLimitSpec.

(** ** Account lockout *)

Module LockoutSpec.
Import UserModel.

Local Open Scope Z_scope.

Lemma lock_expired_spec this now :
  lock_expired this now = true <-> exists t, lockUntil this = Some t /\ t < now.
Proof.
  unfold lock_expired. destruct (lockUntil this) as [t|].
  - rewrite Z.ltb_lt. split; [eauto | by intros (t' & [= <-] & H)].
  - split; [discriminate | by intros (t' & H & _)].
Qed.

Lemma isLocked_until (this : User) (t now : Z) :
  lockUntil this = Some t -> now < t -> isLocked this now = true.
Proof.
  intros Hl Hlt. unfold isLocked. rewrite Hl. by apply Z.gtb_lt.
Qed.

(** Below the threshold, or while the lock holds, a failed login only
    increments the counter. *)
Lemma incLoginAttempts_only_counts this now :
  lock_expired this now = false ->
  (loginAttempts this + 1 < 5 \/ isLocked this now = true) ->
  loginAttempts (incLoginAttempts this now) = loginAttempts this + 1
  /\ lockUntil (incLoginAttempts this now) = lockUntil this.
Proof.
  intros He Hc. unfold incLoginAttempts, incLoginAttempts_update. rewrite He.
  assert (Z.geb (loginAttempts this + 1) 5 && negb (isLocked this now) = false)
    as ->.
  { destruct Hc as [Hlt| ->]; [|by rewrite andb_false_r].
    apply andb_false_iff. left. rewrite Z.geb_leb. apply Z.leb_gt. lia. }
  unfold updateOne. simpl. done.
Qed.

(** C10. A failed login on an account whose lock, if any, has not run out,
    that brings the count to five or more while the account is not locked,
    locks the account for two hours from now and increments the count, so
    that [isLocked] holds until then; a failed login on an account whose lock
    has run out sets the count to 1 and removes the lock;
    [resetLoginAttempts] sets the count to 0 and removes the lock. No other
    field of the user changes. *)
Theorem login_attempts_lockout :
  (forall this now,
      (lockUntil this = None \/ exists t, lockUntil this = Some t /\ now <= t) ->
      loginAttempts this + 1 >= 5 ->
      isLocked this now = false ->
      lockUntil (incLoginAttempts this now) = Some (now + 2 * 60 * 60 * 1000)
      /\ loginAttempts (incLoginAttempts this now) = loginAttempts this + 1
      /\ (forall t, t < now + 2 * 60 * 60 * 1000 ->
                    isLocked (incLoginAttempts this now) t = true))
  /\ (forall this now t,
      lockUntil this = Some t -> t < now ->
      loginAttempts (incLoginAttempts this now) = 1
      /\ lockUntil (incLoginAttempts this now) = None)
  /\ (forall this,
      loginAttempts (resetLoginAttempts this) = 0
      /\ lockUntil (resetLoginAttempts this) = None)
  /\ (forall this now,
      role (incLoginAttempts this now) = role this
      /\ hierarchy (incLoginAttempts this now) = hierarchy this
      /\ intoreGroup (incLoginAttempts this now) = intoreGroup this
      /\ role (resetLoginAttempts this) = role this
      /\ hierarchy (resetLoginAttempts this) = hierarchy this
      /\ intoreGroup (resetLoginAttempts this) = intoreGroup this).
Proof.
  split; [|split; [|split]].
  - intros this now Hlock Hcount Hfree.
    assert (lock_expired this now = false) as He.
    { apply not_true_is_false. rewrite lock_expired_spec.
      intros (t & Ht & Hlt). destruct Hlock as [Hn|(t' & Ht' & Hle)]; [congruence|].
      rewrite Ht in Ht'. injection Ht' as <-. lia. }
    unfold incLoginAttempts, incLoginAttempts_update. rewrite He, Hfree.
    assert (Z.geb (loginAttempts this + 1) 5 = true) as ->
      by (rewrite Z.geb_leb; apply Z.leb_le; lia).
    cbn [andb negb updateOne set_loginAttempts set_lockUntil unset_lockUntil
         inc_loginAttempts loginAttempts lockUntil].
    split; [reflexivity|]. split; [reflexivity|].
    intros t Ht. eapply isLocked_until; [reflexivity|].
    unfold lock_time. lia.
  - intros this now t Ht Hlt.
    assert (lock_expired this now = true) as He
      by (apply lock_expired_spec; eauto).
    unfold incLoginAttempts, incLoginAttempts_update. rewrite He.
    split; reflexivity.
  - intros this. split; reflexivity.
  - intros this now. unfold incLoginAttempts, incLoginAttempts_update.
    destruct (lock_expired this now); [done|].
    destruct (_ && _); done.
Qed.

Lemma login_attempts_lockout_witness :
  ((lockUntil Sample.four_failures = None
      \/ exists t, lockUntil Sample.four_failures = Some t /\ 5000 <= t)
   /\ loginAttempts Sample.four_failures + 1 >= 5
   /\ isLocked Sample.four_failures 5000 = false
   /\ lockUntil (incLoginAttempts Sample.four_failures 5000) = Some 7205000
   /\ loginAttempts (incLoginAttempts Sample.four_failures 5000) = 5
   /\ isLocked (incLoginAttempts Sample.four_failures 5000) 7204999 = true)
  /\ (lockUntil Sample.expired_lock = Some 1000 /\ 1000 < 5000
      /\ loginAttempts (incLoginAttempts Sample.expired_lock 5000) = 1
      /\ lockUntil (incLoginAttempts Sample.expired_lock 5000) = None).
Proof.
  destruct login_attempts_lockout as (Hlock & Hexpired & _).
  split.
  - split; [left; reflexivity|]. split; [simpl; lia|]. split; [reflexivity|].
    destruct (Hlock Sample.four_failures 5000) as (H1 & H2 & H3);
      [left; reflexivity | simpl; lia | reflexivity |].
    split; [exact H1|]. split; [exact H2|]. apply H3. lia.
  - split; [reflexivity|]. split; [lia|].
    apply (Hexpired Sample.expired_lock 5000 1000); [reflexivity | lia].
Defined.

End LockoutSpec.

(** ** Authentication and authorization middleware *)

Module AuthzSpec.
Import Authz.

(** X2. [authorize] hands a request on exactly when it carries a user whose
    role is one of the allowed roles; without a user it answers 401, with
    another role 403. With no allowed role nothing passes, and allowing more
    roles never turns a passing request away. *)
Theorem authorize_passes_iff_role_allowed (roles : list string) (user : option User) :
  (authorize roles user = CallNext <-> exists u, user = Some u /\ role u ∈ roles)
  /\ (user = None -> authorize roles user = Json 401 "Authentication required.")
  /\ (forall u, user = Some u -> role u ∉ roles ->
        authorize roles user = Json 403 "Access denied. Insufficient permissions.")
  /\ authorize [] user ≠ CallNext
  /\ (forall roles', roles ⊆ roles' ->
        authorize roles user = CallNext -> authorize roles' user = CallNext).
Proof.
  assert (Hiff : forall rs, authorize rs user = CallNext
                   <-> exists u, user = Some u /\ role u ∈ rs).
  { intros rs. unfold authorize. destruct user as [u|].
    - destruct (decide (role u ∈ rs)) as [Hin|Hnin].
      + rewrite bool_decide_eq_true_2 by done. simpl. split; eauto.
      + rewrite bool_decide_eq_false_2 by done. simpl. split; [discriminate|].
        intros (u' & [= <-] & Hin). done.
    - split; [discriminate|]. intros (u & Hu & _). discriminate. }
  split; [apply Hiff|]. split; [by intros ->|]. split; [|split].
  - intros u -> Hnin. unfold authorize.
    by rewrite bool_decide_eq_false_2.
  - intros H. apply Hiff in H as (u & _ & Hin). by apply elem_of_nil in Hin.
  - intros roles' Hsub H. apply Hiff in H as (u & Hu & Hin).
    apply Hiff. exists u. split; [done|]. by apply Hsub.
Qed.

Lemma role_block_next active param own denied :
  role_block active param own denied CallNext = CallNext
  <-> (active = true -> own_param_ok param own).
Proof.
  unfold role_block, own_param_ok.
  destruct active; [|split; [discriminate | done]].
  destruct (truthy param) eqn:Ht.
  - destruct own as [o|].
    + destruct (String.eqb_spec o (toString param)) as [->|Hne]; simpl.
      * split; [intros _ _; by right | done].
      * split; [discriminate|]. intros H. destruct (H eq_refl) as [|[= ->]]; done.
    + split; [discriminate|]. intros H. destruct (H eq_refl); discriminate.
  - split; [intros _ _; by left | done].
Qed.

Lemma role_block_inactive param own denied rest :
  role_block false param own denied rest = rest.
Proof. reflexivity. Qed.

Lemma role_block_replies active param own denied rest :
  (rest = CallNext
   \/ exists status message,
       rest = Json status message /\ status ∈ [401; 403; 500]%Z) ->
  role_block active param own denied rest = CallNext
  \/ exists status message,
      role_block active param own denied rest = Json status message
      /\ status ∈ [401; 403; 500]%Z.
Proof.
  intros Hrest. unfold role_block. destruct active; [|done].
  destruct (truthy param); [|done].
  destruct own as [o|]; [|right; eexists _, _; split; [done|repeat constructor]].
  destruct (negb _); [right; eexists _, _; split; [done|repeat constructor] | done].
Qed.

Lemma authorizeHierarchy_next_iff (user : option User) (params : Params) :
  authorizeHierarchy user params = CallNext
  <-> exists u, user = Some u
        /\ (role u = "super_admin" \/ own_level_ok u params).
Proof.
  unfold authorizeHierarchy. destruct user as [u|]; cycle 1.
  { split; [discriminate|]. intros (u & Hu & _). discriminate. }
  destruct (String.eqb_spec (role u) "super_admin") as [Hs|Hs].
  { split; eauto. }
  split.
  - intros H. exists u. split; [done|]. right.
    destruct (String.eqb_spec (role u) "district_admin") as [Hd|Hd];
      destruct (String.eqb_spec (role u) "sector_admin") as [Hse|Hse];
      destruct (String.eqb_spec (role u) "cell_admin") as [Hc|Hc];
      try congruence;
      rewrite ?role_block_inactive in H;
      try pose proof (proj1 (role_block_next _ _ _ _) H eq_refl);
      unfold own_level_ok; repeat split; intros; try congruence; auto.
  - intros (u' & [= <-] & [Hsu|(Hd & Hse & Hc)]); [done|].
    destruct (String.eqb_spec (role u) "district_admin") as [Hd'|Hd'];
      destruct (String.eqb_spec (role u) "sector_admin") as [Hse'|Hse'];
      destruct (String.eqb_spec (role u) "cell_admin") as [Hc'|Hc'];
      try congruence;
      rewrite ?role_block_inactive;
      try apply role_block_next; auto.
Qed.

(** X3. [authorizeHierarchy] hands a request on exactly when it carries a user
    who is super_admin or whose own-level parameter (districtId for a
    district_admin, sectorId for a sector_admin, cellId for a cell_admin) is
    absent, empty or equal to the user's own reference. It looks only at the
    parameter of the user's own level: a user who is none of district_admin,
    sector_admin and cell_admin (a member, a public user) is handed on
    whatever the parameters are, and a district_admin is handed on or
    refused regardless of sectorId and cellId. *)
Theorem authorizeHierarchy_passes_iff_own_level_matches
    (user : option User) (params : Params) :
  (authorizeHierarchy user params = CallNext
   <-> exists u, user = Some u
         /\ (role u = "super_admin" \/ own_level_ok u params))
  /\ (forall u, user = Some u ->
        role u ∉ ["district_admin"; "sector_admin"; "cell_admin"] ->
        authorizeHierarchy user params = CallNext)
  /\ (forall u, user = Some u -> role u = "district_admin" ->
       forall s c s' c',
         authorizeHierarchy user
           {| districtId := districtId params; sectorId := s; cellId := c |}
         = authorizeHierarchy user
             {| districtId := districtId params; sectorId := s'; cellId := c' |}).
Proof.
  split; [apply authorizeHierarchy_next_iff|]. split.
  - intros u -> Hrole. apply authorizeHierarchy_next_iff.
    exists u. split; [done|]. right.
    unfold own_level_ok. repeat split; intros Hr; exfalso; apply Hrole;
      rewrite Hr; set_solver.
  - intros u -> Hr s c s' c'. unfold authorizeHierarchy. rewrite Hr. reflexivity.
Qed.

(** The only answers of [authorizeHierarchy] besides handing on are 401
    (no user), 403 (own-level mismatch) and 500 (the user's own reference is
    unset while the parameter is given). *)
Lemma authorizeHierarchy_replies (user : option User) (params : Params) :
  authorizeHierarchy user params = CallNext
  \/ exists status message,
      authorizeHierarchy user params = Json status message
      /\ status ∈ [401; 403; 500]%Z.
Proof.
  unfold authorizeHierarchy. destruct user as [u|];
    [|right; eexists _, _; split; [done|repeat constructor]].
  destruct (String.eqb (role u) "super_admin"); [by left|].
  do 3 apply role_block_replies. by left.
Qed.

(** X4. [canAccessResource] yields a truthy value exactly when the user is
    super_admin, or the resource is the district, sector or cell the user's
    own hierarchy names, or the resource is a user and the caller is either
    not a member or is that user. It yields [undefined] exactly when a
    district, sector or cell is asked for and the user (not super_admin) has
    no reference of that level. *)
Theorem canAccessResource_truthy_iff (userId : Id) (user : User)
    (resourceType resourceId : string) :
  (js_truthy (canAccessResource userId user resourceType resourceId) = true
   <-> may_access userId user resourceType resourceId)
  /\ (canAccessResource userId user resourceType resourceId = JsUndefined
      <-> role user ≠ "super_admin"
          /\ ((resourceType = "district" /\ h_district (hierarchy user) = None)
              \/ (resourceType = "sector" /\ h_sector (hierarchy user) = None)
              \/ (resourceType = "cell" /\ h_cell (hierarchy user) = None))).
Proof.
  unfold canAccessResource, may_access, own_is.
  destruct (String.eqb_spec (role user) "super_admin") as [Hs|Hs];
    [simpl; naive_solver|].
  destruct (String.eqb_spec resourceType "district") as [->|Hd].
  { destruct (h_district (hierarchy user)) as [o|]; simpl;
      [destruct (String.eqb_spec o resourceId)|]; naive_solver. }
  destruct (String.eqb_spec resourceType "sector") as [->|Hse].
  { destruct (h_sector (hierarchy user)) as [o|]; simpl;
      [destruct (String.eqb_spec o resourceId)|]; naive_solver. }
  destruct (String.eqb_spec resourceType "cell") as [->|Hc].
  { destruct (h_cell (hierarchy user)) as [o|]; simpl;
      [destruct (String.eqb_spec o resourceId)|]; naive_solver. }
  destruct (String.eqb_spec resourceType "user") as [->|Hu].
  { destruct (String.eqb_spec (role user) "member") as [Hm|Hm]; simpl;
      [destruct (String.eqb_spec userId resourceId)|]; naive_solver. }
  simpl. naive_solver.
Qed.

(** *** [authenticate] *)

Lemma substring_whole (s : string) :
  String.substring 0 (String.length s) s = s.
Proof. induction s as [|b s IH]; simpl; [done|]. by rewrite IH. Qed.

Lemma append_cons (a : Ascii.ascii) (p s : string) :
  String a p ++ s = String a (p ++ s).
Proof. reflexivity. Qed.

Lemma prefix_split (p s : string) :
  String.prefix p s = true ->
  s = p ++ String.substring (String.length p) (String.length s - String.length p) s.
Proof.
  revert s. induction p as [|a p IH]; intros s H.
  - cbn [String.length]. rewrite Nat.sub_0_r, substring_whole. reflexivity.
  - destruct s as [|b s]; [discriminate|]. simpl in H.
    destruct (Ascii.ascii_dec a b) as [->|]; [|discriminate].
    rewrite append_cons. cbn [String.length String.substring Nat.sub].
    f_equal. by apply IH.
Qed.

Lemma prefix_append (p s : string) : String.prefix p (p ++ s) = true.
Proof.
  induction p as [|a p IH]; [by destruct s|].
  rewrite append_cons. simpl. by destruct (Ascii.ascii_dec a a).
Qed.

Lemma substring_after_prefix (p s : string) :
  String.substring (String.length p) (String.length (p ++ s) - String.length p)
    (p ++ s) = s.
Proof.
  induction p as [|a p IH].
  - cbn [String.length]. rewrite Nat.sub_0_r. apply substring_whole.
  - rewrite append_cons. cbn [String.length String.substring Nat.sub].
    apply IH.
Qed.

Section Authenticate.
Variable jwt_verify : string -> Verification.

(** The audit write of a successful authentication always passes the
    schema. *)
Lemma login_entry_is_accepted uid req log :
  AuditLog.logAction "LOGIN" "user" (Some uid) (Some uid) None None None
    [("ipAddress", ip req); ("userAgent", user_agent req)]
    "info" "User authenticated successfully" (ip req) (user_agent req) log
  = AuditLog.Resolved (log ++ [login_entry uid req])%list.
Proof. reflexivity. Qed.

(** What lets a request through [authenticate]. *)
Definition admissible (accounts : gmap string Account) (req : Request)
    (uid : Id) (user : Account) : Prop :=
  exists token,
    authorization req = Some ("Bearer " ++ token)
    /\ token ≠ ""
    /\ jwt_verify token = Decoded (Some uid)
    /\ accounts !! uid = Some user
    /\ account_status user ≠ "suspended".

Lemma authenticate_admissible accounts req log uid user :
  admissible accounts req uid user ->
  authenticate jwt_verify accounts req log
  = {| reply := CallNext; reply_error := None; req_user := Some (uid, user);
       audit_log := (log ++ [login_entry uid req])%list |}.
Proof.
  intros (token & Hh & Ht & Hv & Hu & Hs).
  unfold authenticate. rewrite Hh, prefix_append. cbn [negb].
  pose proof (substring_after_prefix "Bearer " token) as Hsub.
  change (String.length "Bearer ") with 7 in Hsub. rewrite Hsub.
  apply String.eqb_neq in Ht. rewrite Ht, Hv. cbn [findById]. rewrite Hu.
  apply String.eqb_neq in Hs. rewrite Hs.
  by rewrite login_entry_is_accepted.
Qed.

Lemma on_error_refuses name message log :
  exists status text err,
    on_error name message log = answer status text err log
    /\ status ∈ [401; 403; 500]%Z.
Proof.
  unfold on_error. repeat case_match; eexists _, _, _; split; try done;
    repeat constructor.
Qed.

Lemma authenticate_cases accounts req log :
  (exists uid user,
      admissible accounts req uid user
      /\ authenticate jwt_verify accounts req log
         = {| reply := CallNext; reply_error := None;
              req_user := Some (uid, user);
              audit_log := (log ++ [login_entry uid req])%list |})
  \/ (exists status text err,
      authenticate jwt_verify accounts req log = answer status text err log
      /\ status ∈ [401; 403; 500]%Z).
Proof.
  unfold authenticate.
  destruct (authorization req) as [h|] eqn:Hh;
    [|right; eexists _, _, _; split; [done|repeat constructor]].
  destruct (String.prefix "Bearer " h) eqn:Hp; cbn [negb];
    [|right; eexists _, _, _; split; [done|repeat constructor]].
  apply prefix_split in Hp.
  set (token := String.substring 7 (String.length h - 7) h) in *.
  destruct (String.eqb_spec token "") as [Ht|Ht];
    [right; eexists _, _, _; split; [done|repeat constructor]|].
  destruct (jwt_verify token) as [[uid|]|name message] eqn:Hv;
    [ | right; eexists _, _, _; split; [done|repeat constructor]
      | right; apply on_error_refuses ].
  cbn [findById].
  destruct (accounts !! uid) as [user|] eqn:Hu;
    [|right; eexists _, _, _; split; [done|repeat constructor]].
  destruct (String.eqb_spec (account_status user) "suspended") as [Hs|Hs];
    [right; eexists _, _, _; split; [done|repeat constructor]|].
  left. exists uid, user. split.
  - exists token. change (String.length "Bearer ") with 7 in Hp.
    fold token in Hp. rewrite Hh, Hp at 1. done.
  - by rewrite login_entry_is_accepted.
Qed.

(** X1. [authenticate] hands a request on exactly when its Authorization header
    is "Bearer " followed by a non-empty token that verifies to the
    identifier of an existing account that is not suspended. It then attaches
    that account to the request and appends exactly one LOGIN entry to the
    audit log. In every other case it answers 401, 403 or 500, attaches no
    user and leaves the audit log as it is. *)
Theorem authenticate_passes_iff_admissible accounts req log :
  (reply (authenticate jwt_verify accounts req log) = CallNext
   <-> exists uid user, admissible accounts req uid user)
  /\ (forall uid user, admissible accounts req uid user ->
        req_user (authenticate jwt_verify accounts req log) = Some (uid, user)
        /\ audit_log (authenticate jwt_verify accounts req log)
           = (log ++ [login_entry uid req])%list)
  /\ (reply (authenticate jwt_verify accounts req log) ≠ CallNext ->
        req_user (authenticate jwt_verify accounts req log) = None
        /\ audit_log (authenticate jwt_verify accounts req log) = log
        /\ exists status text,
             reply (authenticate jwt_verify accounts req log) = Json status text
             /\ status ∈ [401; 403; 500]%Z).
Proof.
  split; [|split].
  - split.
    + intros H.
      destruct (authenticate_cases accounts req log)
        as [(uid & user & Hadm & _)|(status & text & err & Heq & _)]; [eauto|].
      rewrite Heq in H. discriminate.
    + intros (uid & user & Hadm).
      by rewrite (authenticate_admissible _ _ _ _ _ Hadm).
  - intros uid user Hadm.
    by rewrite (authenticate_admissible _ _ _ _ _ Hadm).
  - intros H.
    destruct (authenticate_cases accounts req log)
      as [(uid & user & _ & Heq)|(status & text & err & Heq & Hst)].
    + rewrite Heq in H. done.
    + rewrite Heq. simpl. split; [done|]. split; [done|]. eauto.
Qed.

End Authenticate.

End AuthzSpec.

(** ** The other validators *)

Module ValidatorsSpec.
Import Validation Validators.

Lemma push_if_nil cond msg errs :
  push_if cond msg errs = [] <-> cond = false /\ errs = [].
Proof.
  unfold push_if, push. destruct cond.
  - split; [|intros [? _]; discriminate].
    intros H. by destruct errs.
  - split; [done | by intros [_ ->]].
Qed.

Lemma push_if_length cond msg errs :
  length (push_if cond msg errs)
  = (length errs + if cond then 1 else 0)%nat.
Proof.
  unfold push_if, push. destruct cond; [|lia].
  by rewrite length_app.
Qed.

Lemma finish_errors errs : errors (finish errs) = errs.
Proof. reflexivity. Qed.

Lemma finish_isValid errs : isValid (finish errs) = true <-> errs = [].
Proof. destruct errs; simpl; split; congruence. Qed.

Lemma has_spec class s :
  has class s = true <-> exists c, In c (chars s) /\ class c = true.
Proof. unfold has. apply existsb_exists. Qed.

Lemma chars_length s : length (chars s) = String.length s.
Proof. unfold chars. induction s; simpl; congruence. Qed.

(** X7. [validatePassword] accepts a password exactly when it has at least six
    characters and contains an uppercase letter, a lowercase letter, a digit
    and one of the listed special characters. The rules are checked
    independently: the result carries one message per broken rule. *)
Theorem validatePassword_valid_iff (password : string) :
  (isValid (validatePassword password) = true
   <-> (6 <= String.length password)%nat
       /\ (exists c, In c (chars password) /\ is_upper c = true)
       /\ (exists c, In c (chars password) /\ is_lower c = true)
       /\ (exists c, In c (chars password) /\ is_digit c = true)
       /\ (exists c, In c (chars password) /\ is_special c = true))
  /\ length (errors (validatePassword password))
     = ((if Nat.ltb (String.length password) 6 then 1 else 0)
        + (if has is_upper password then 0 else 1)
        + (if has is_lower password then 0 else 1)
        + (if has is_digit password then 0 else 1)
        + (if has is_special password then 0 else 1))%nat.
Proof.
  unfold validatePassword. split.
  - rewrite finish_isValid, !push_if_nil, !negb_false_iff, <- !has_spec.
    rewrite Nat.ltb_ge. naive_solver.
  - rewrite finish_errors, !push_if_length. simpl.
    repeat match goal with |- context [has ?c ?s] => destruct (has c s) end;
      simpl; lia.
Qed.

(** A password made of letters and digits only is never accepted. *)
Lemma validatePassword_needs_special (password : string) :
  forallb (fun c => is_upper c || is_lower c || is_digit c) (chars password) = true ->
  isValid (validatePassword password) = false.
Proof.
  intros Hall. apply not_true_is_false. intros Hv.
  unfold validatePassword in Hv.
  rewrite finish_isValid, !push_if_nil, !negb_false_iff in Hv.
  destruct Hv as (Hv & _). apply has_spec in Hv as (c & Hin & Hs).
  rewrite forallb_forall in Hall. specialize (Hall c Hin).
  revert Hs Hall. unfold is_special, is_upper, is_lower, is_digit, in_range, one_of.
  generalize (code c). intros n. cbn [existsb special_codes].
  rewrite !orb_true_iff, !andb_true_iff, !Nat.eqb_eq, !Nat.leb_le. lia.
Qed.

(** X9. [validateUsername] accepts a username exactly when it has between 3 and
    50 characters, all of them letters, digits, underscores or hyphens, and
    no user holds it. *)
Theorem validateUsername_valid_iff (usernames : gmap string Id) (username : string) :
  isValid (validateUsername usernames username) = true
  <-> (3 <= String.length username <= 50)%nat
      /\ (forall c, In c (chars username) -> is_username_char c = true)
      /\ usernames !! username = None.
Proof.
  unfold validateUsername.
  rewrite finish_isValid, !push_if_nil, negb_false_iff.
  rewrite !Nat.ltb_ge, bool_decide_eq_false.
  unfold all_of. rewrite andb_true_iff, negb_true_iff, Nat.eqb_neq, forallb_forall.
  rewrite <- eq_None_not_Some. split.
  - intros (Hnone & (_ & Hall) & Hle & Hge & _). done.
  - intros ((Hge & Hle) & Hall & Hnone). repeat split; try done; lia.
Qed.

(** *** [validateUniqueEmail] *)

Section UniqueEmail.
Variable toLowerCase : string -> string.

(** X10. [validateUniqueEmail] accepts an email exactly when no user holds its
    lower-cased form, or the user who holds it is the (non-empty) excluded
    identifier; it carries an error message exactly when it refuses. *)
Theorem validateUniqueEmail_valid_iff (emails : gmap string Id)
    (email : string) (excludeUserId : option string) :
  (email_isValid (validateUniqueEmail toLowerCase emails email excludeUserId) = true
   <-> emails !! toLowerCase email = None
       \/ exists holder, emails !! toLowerCase email = Some holder
                         /\ excludeUserId = Some holder /\ holder ≠ "")
  /\ (email_error (validateUniqueEmail toLowerCase emails email excludeUserId) = None
      <-> email_isValid (validateUniqueEmail toLowerCase emails email excludeUserId)
          = true).
Proof.
  unfold validateUniqueEmail, findByEmail.
  destruct (emails !! toLowerCase email) as [holder|] eqn:Hl;
    [|split; split; auto].
  destruct (truthy excludeUserId) eqn:Ht; cbn [negb orb].
  - apply ValidationSpec.truthy_spec in Ht as (x & -> & Hx).
    change (toString (Some x)) with x.
    destruct (String.eqb_spec holder x) as [->|Hne]; cbn [negb]; split; split;
      try done; try discriminate.
    + intros _. right. eauto.
    + intros [?|(h & [= <-] & [= ->] & _)]; done.
  - apply ValidationSpec.truthy_false in Ht.
    split; split; try done; try discriminate.
    intros [?|(h & [= <-] & -> & Hh)]; [done|].
    destruct Ht as [?|[= ?]]; done.
Qed.

(** The check does not depend on the letter case of the email: an email and
    its lower-cased form get the same verdict, whenever lower-casing the
    lower-cased form changes nothing. *)
Theorem validateUniqueEmail_ignores_case (emails : gmap string Id)
    (email : string) (excludeUserId : option string) :
  toLowerCase (toLowerCase email) = toLowerCase email ->
  validateUniqueEmail toLowerCase emails (toLowerCase email) excludeUserId
  = validateUniqueEmail toLowerCase emails email excludeUserId.
Proof.
  intros Hidem. unfold validateUniqueEmail, findByEmail. by rewrite Hidem.
Qed.

End UniqueEmail.

Lemma validateUniqueEmail_ignores_case_witness :
  ascii_toLowerCase (ascii_toLowerCase "Alice@Example.org")
    = ascii_toLowerCase "Alice@Example.org"
  /\ validateUniqueEmail ascii_toLowerCase {[ "alice@example.org" := "u1" ]}
       (ascii_toLowerCase "Alice@Example.org") None
     = validateUniqueEmail ascii_toLowerCase {[ "alice@example.org" := "u1" ]}
         "Alice@Example.org" None.
Proof.
  split; [reflexivity|].
  apply (validateUniqueEmail_ignores_case ascii_toLowerCase). reflexivity.
Defined.

(** *** [validateMedia] and [validateAttendance] *)

Lemma not_among_false list value :
  not_among list value = false
  <-> exists v, value = Some v /\ v ≠ "" /\ v ∈ list.
Proof.
  unfold not_among. rewrite orb_false_iff, !negb_false_iff, bool_decide_eq_true.
  rewrite ValidationSpec.truthy_spec. split.
  - intros ((v & -> & Hv) & Hin). eauto.
  - intros (v & -> & Hv & Hin). eauto.
Qed.

(** X13. [validateMedia] accepts exactly the data whose type, upload target and
    visibility are values of the corresponding Media schema enums and whose
    target identifier is present; [validateAttendance] accepts exactly the
    data with a user, an activity and a status of the Attendance schema
    enum. *)
Theorem validateMedia_validateAttendance_agree_with_schema_enums :
  (forall mediaData,
      isValid (validateMedia mediaData) = true
      <-> (exists t, media_type mediaData = Some t /\ t ≠ "" /\ t ∈ mediaSchema_type)
          /\ (exists f, uploadedFor mediaData = Some f /\ f ≠ ""
                        /\ f ∈ mediaSchema_uploadedFor)
          /\ truthy (targetId mediaData) = true
          /\ (exists v, visibility mediaData = Some v /\ v ≠ ""
                        /\ v ∈ mediaSchema_visibility))
  /\ (forall attendanceData,
      isValid (validateAttendance attendanceData) = true
      <-> truthy (attendance_user attendanceData) = true
          /\ truthy (attendance_activity attendanceData) = true
          /\ (exists st, attendance_status attendanceData = Some st /\ st ≠ ""
                         /\ st ∈ attendanceSchema_status)).
Proof.
  split.
  - intros mediaData. unfold validateMedia.
    rewrite finish_isValid, !push_if_nil, !not_among_false, negb_false_iff.
    unfold mediaSchema_type, mediaSchema_uploadedFor, mediaSchema_visibility.
    tauto.
  - intros attendanceData. unfold validateAttendance.
    rewrite finish_isValid, !push_if_nil, !not_among_false, !negb_false_iff.
    unfold attendanceSchema_status. tauto.
Qed.

(** *** The time format of [validateActivity] *)

Lemma digit_of_code lo hi c :
  (48 <= lo)%nat -> in_range lo hi c = true ->
  c = digit (code c - 48) /\ (lo - 48 <= code c - 48 <= hi - 48)%nat.
Proof.
  unfold in_range, digit, code. rewrite andb_true_iff, !Nat.leb_le.
  intros Hlo [H1 H2]. split; [|lia].
  replace (48 + (Ascii.nat_of_ascii c - 48))%nat with (Ascii.nat_of_ascii c) by lia.
  by rewrite Ascii.ascii_nat_embedding.
Qed.

Lemma code_digit d : (d <= 9)%nat -> code (digit d) = (48 + d)%nat.
Proof.
  intros Hd. unfold code, digit. apply Ascii.nat_ascii_embedding. lia.
Qed.

Lemma code_eq c n : (n < 256)%nat -> Nat.eqb (code c) n = true -> c = Ascii.ascii_of_nat n.
Proof.
  intros Hn H. apply Nat.eqb_eq in H. unfold code in H.
  by rewrite <- H, Ascii.ascii_nat_embedding.
Qed.

Lemma two_digits_compose a b :
  (b <= 9)%nat ->
  two_digits (10 * a + b) = String (digit a) (String (digit b) EmptyString).
Proof.
  intros Hb. unfold two_digits.
  assert ((10 * a + b) / 10 = a)%nat as -> by (symmetry; apply (Nat.div_unique (10 * a + b) 10 a b); lia).
  assert ((10 * a + b) mod 10 = b)%nat as -> by (symmetry; apply (Nat.mod_unique (10 * a + b) 10 a b); lia).
  done.
Qed.

Lemma chars_inv s l : chars s = l -> s = String.string_of_list_ascii l.
Proof.
  intros <-. unfold chars. by rewrite String.string_of_list_ascii_of_string.
Qed.

Lemma chars_hh_mm a b c d :
  chars (String a (String b EmptyString) ++ ":"
         ++ String c (String d EmptyString))
  = [a; b; Ascii.ascii_of_nat 58; c; d].
Proof. reflexivity. Qed.

Lemma chars_h_mm b c d :
  chars (String b EmptyString ++ ":" ++ String c (String d EmptyString))
  = [b; Ascii.ascii_of_nat 58; c; d].
Proof. reflexivity. Qed.

Ltac decide_nat_tests :=
  repeat match goal with
  | |- context [Nat.leb ?a ?b] =>
      first [ rewrite (proj2 (Nat.leb_le a b)) by lia
            | rewrite (proj2 (Nat.leb_gt a b)) by lia ]
  | |- context [Nat.eqb ?a ?b] =>
      first [ rewrite (proj2 (Nat.eqb_eq a b)) by lia
            | rewrite (proj2 (Nat.eqb_neq a b)) by lia ]
  end.

Lemma timeRegex_two_digit_hour h m :
  (h < 24)%nat -> (m < 60)%nat ->
  timeRegex (two_digits h ++ ":" ++ two_digits m) = true.
Proof.
  intros Hh Hm. unfold timeRegex, two_digits. rewrite chars_hh_mm.
  assert (h / 10 < 3)%nat by (apply Nat.Div0.div_lt_upper_bound; lia).
  assert (m / 10 < 6)%nat by (apply Nat.Div0.div_lt_upper_bound; lia).
  pose proof (Nat.mod_upper_bound h 10). pose proof (Nat.mod_upper_bound m 10).
  pose proof (Nat.div_mod_eq h 10).
  unfold is_digit, in_range.
  rewrite !code_digit by lia.
  change (code (Ascii.ascii_of_nat 58)) with 58%nat.
  destruct (decide (h / 10 = 2)%nat) as [Htwo|Htwo]; decide_nat_tests; reflexivity.
Qed.

Lemma timeRegex_one_digit_hour h m :
  (h < 10)%nat -> (m < 60)%nat ->
  timeRegex (one_digit h ++ ":" ++ two_digits m) = true.
Proof.
  intros Hh Hm. unfold timeRegex, two_digits, one_digit. rewrite chars_h_mm.
  assert (m / 10 < 6)%nat by (apply Nat.Div0.div_lt_upper_bound; lia).
  pose proof (Nat.mod_upper_bound m 10).
  unfold is_digit, in_range.
  rewrite !code_digit by lia.
  change (code (Ascii.ascii_of_nat 58)) with 58%nat.
  decide_nat_tests; reflexivity.
Qed.

(** X12. The time format accepts exactly the strings that read as a time of day:
    an hour below 24 written with one or two digits (one digit only below
    10), a colon, and a minute below 60 written with two digits. *)
Theorem timeRegex_accepts_times_of_day (s : string) :
  timeRegex s = true <-> time_of_day s.
Proof.
  split.
  - unfold timeRegex. intros H.
    destruct (chars s) as [|c1 [|c2 [|c3 [|c4 [|c5 [|c6 l]]]]]] eqn:Hs;
      try discriminate; apply chars_inv in Hs; subst s.
    + (* H:MM *)
      rewrite !andb_true_iff in H. destruct H as [[[Hh Hc] Hm1] Hm2].
      apply (digit_of_code 48 57) in Hh as [Eh Rh]; [|lia].
      apply (digit_of_code 48 53) in Hm1 as [Em1 Rm1]; [|lia].
      apply (digit_of_code 48 57) in Hm2 as [Em2 Rm2]; [|lia].
      apply code_eq in Hc; [|lia].
      exists (code c1 - 48)%nat, (10 * (code c3 - 48) + (code c4 - 48))%nat.
      split; [lia|]. split; [lia|]. right. split; [lia|].
      rewrite two_digits_compose by lia. unfold one_digit.
      cbn [String.string_of_list_ascii].
      rewrite <- Eh, <- Em1, <- Em2, Hc. reflexivity.
    + (* HH:MM *)
      rewrite !andb_true_iff in H. destruct H as [[[Hh Hc] Hm1] Hm2].
      apply (digit_of_code 48 53) in Hm1 as [Em1 Rm1]; [|lia].
      apply (digit_of_code 48 57) in Hm2 as [Em2 Rm2]; [|lia].
      apply code_eq in Hc; [|lia].
      assert (exists a b, (b <= 9)%nat /\ (10 * a + b < 24)%nat
                          /\ c1 = digit a /\ c2 = digit b)
        as (a & b & Hb & Hab & -> & ->).
      { rewrite orb_true_iff, !andb_true_iff in Hh.
        destruct Hh as [[H1 H2]|[H1 H2]].
        - apply (digit_of_code 48 49) in H1 as [E1 R1]; [|lia].
          apply (digit_of_code 48 57) in H2 as [E2 R2]; [|lia].
          exists (code c1 - 48)%nat, (code c2 - 48)%nat.
          repeat split; try done; lia.
        - apply Nat.eqb_eq in H1.
          apply (digit_of_code 48 51) in H2 as [E2 R2]; [|lia].
          exists 2%nat, (code c2 - 48)%nat.
          repeat split; try done; try lia.
          rewrite <- (Ascii.ascii_nat_embedding c1). unfold code in H1.
          by rewrite H1. }
      exists (10 * a + b)%nat, (10 * (code c4 - 48) + (code c5 - 48))%nat.
      split; [lia|]. split; [lia|]. left.
      rewrite !two_digits_compose by lia.
      cbn [String.string_of_list_ascii].
      rewrite <- Em1, <- Em2, Hc. reflexivity.
  - intros (h & m & Hh & Hm & [->|[Hh' ->]]).
    + by apply timeRegex_two_digit_hour.
    + by apply timeRegex_one_digit_hour.
Qed.

(** *** [validateActivity] *)

Section Activity.
Variable trim : string -> string.
Variable parseDate : string -> option Z.
Variable today : Z.

Lemma too_short_false field n :
  too_short trim field n = false <-> long_enough trim field n.
Proof.
  unfold too_short, long_enough.
  rewrite orb_false_iff, negb_false_iff, Nat.ltb_ge. done.
Qed.

(** X11. [validateActivity] accepts exactly the data with a title of at least 5
    and a description of at least 10 characters after trimming, a type, a
    date that is not before today (a date that does not parse is let
    through), start and end times that are both times of day, a location
    name, an organizer and a cell. *)
Theorem validateActivity_valid_iff (a : ActivityData) :
  isValid (validateActivity trim parseDate today a) = true
  <-> activity_ok trim parseDate today a.
Proof.
  unfold validateActivity, activity_ok.
  rewrite finish_isValid, !push_if_nil, !negb_false_iff.
  split.
  - intros (Hcell & Horg & Hloc & Htimes).
    destruct (truthy (startTime a)) eqn:Hst; cbn [negb orb] in Htimes;
      [|by apply ValidationSpec.push_not_nil in Htimes].
    destruct (truthy (endTime a)) eqn:Hen; cbn [negb orb] in Htimes;
      [|by apply ValidationSpec.push_not_nil in Htimes].
    apply push_if_nil in Htimes as [Hfmt Hdate].
    apply orb_false_iff in Hfmt as [Hf1 Hf2].
    apply negb_false_iff in Hf1, Hf2.
    destruct (truthy (date a)) eqn:Hd; cbn [negb] in Hdate;
      [|by apply ValidationSpec.push_not_nil in Hdate].
    assert ((forall t, parseDate (toString (date a)) = Some t -> (today <= t)%Z)
            /\ truthy (type a) = true
            /\ long_enough trim (description a) 10
            /\ long_enough trim (title a) 5) as (Hpast & Hty & Hdesc & Htitle).
    { destruct (parseDate (toString (date a))) as [t|].
      - apply push_if_nil in Hdate as [Hlt Hrest].
        rewrite !push_if_nil, negb_false_iff, !too_short_false in Hrest.
        apply Z.ltb_ge in Hlt.
        split; [by intros t' [= <-]|]. tauto.
      - rewrite !push_if_nil, negb_false_iff, !too_short_false in Hdate.
        split; [discriminate|]. tauto. }
    split; [exact Htitle|]. split; [exact Hdesc|]. split; [exact Hty|].
    split; [by split|]. split; [by repeat split|]. split; [|by split].
    destruct (location a) as [loc|]; [|discriminate].
    exists loc. split; [done|]. by apply negb_false_iff.
  - intros (Htitle & Hdesc & Hty & (Hd & Hpast) & (Hst & Hen & Hf1 & Hf2)
            & (loc & Hloc & Hname) & Horg & Hcell).
    rewrite Hst, Hen, Hd, Hf1, Hf2, Hloc, Hname. cbn [negb orb].
    repeat split; try done.
    apply push_if_nil. split; [done|].
    destruct (parseDate (toString (date a))) as [t|].
    + rewrite !push_if_nil, negb_false_iff, !too_short_false.
      split; [|done]. apply Z.ltb_ge. by apply Hpast.
    + rewrite !push_if_nil, negb_false_iff, !too_short_false. done.
Qed.

End Activity.

(** *** [validatePhoneNumber] against the schema's phone validator *)

Lemma filter_keeps_all {A} (f : A -> bool) (l : list A) :
  (forall x, In x l -> f x = true) -> List.filter f l = l.
Proof.
  induction l as [|x l IH]; intros H; simpl; [done|].
  rewrite (H x (or_introl eq_refl)). f_equal. apply IH.
  intros y Hy. apply H. by right.
Qed.

Lemma forallb_agree {A} (f g : A -> bool) (l : list A) :
  (forall x, In x l -> f x = g x) -> forallb f l = forallb g l.
Proof.
  induction l as [|x l IH]; intros H; simpl; [done|].
  rewrite (H x (or_introl eq_refl)). f_equal. apply IH.
  intros y Hy. apply H. by right.
Qed.

Lemma optional_plus_incl l c : In c (optional_plus l) -> In c l.
Proof.
  unfold optional_plus. destruct l as [|d l]; [done|].
  destruct (Nat.eqb (code d) 43); [by right | done].
Qed.

(** X8. On a number that contains no white space, hyphen or parenthesis,
    [validatePhoneNumber] and the phone validator of the User schema give the
    same verdict. On numbers with such separators they can differ in both
    directions: the schema counts the separators among its 10 to 15
    characters, [validatePhoneNumber] removes them first. *)
Theorem validatePhoneNumber_vs_schema :
  (forall phone,
      (forall c, In c (chars phone) -> is_separator c = false) ->
      validatePhoneNumber phone = schema_phoneNumber phone)
  /\ (exists phone,
        validatePhoneNumber phone = true /\ schema_phoneNumber phone = false)
  /\ (exists phone,
        validatePhoneNumber phone = false /\ schema_phoneNumber phone = true).
Proof.
  split; [|split].
  - intros phone Hsep. unfold validatePhoneNumber, schema_phoneNumber, cleanPhone.
    rewrite filter_keeps_all
      by (intros c Hc; by rewrite (Hsep c Hc)).
    unfold counted. f_equal. apply forallb_agree.
    intros c Hc. apply optional_plus_incl in Hc.
    by rewrite (Hsep c Hc), orb_false_r.
  - exists "123 456 789 012 345". split; reflexivity.
  - exists "123-456-789". split; reflexivity.
Qed.

End ValidatorsSpec.
(** ** Virtuals and instance methods of the other models *)

Module AuditLogVirtualsSpec.
Import AuditLogVirtuals.

Local Open Scope Z_scope.

Lemma gtb_true a b : b < a -> Z.gtb a b = true.
Proof. intros H. rewrite Z.gtb_ltb. by apply Z.ltb_lt. Qed.

Lemma gtb_false a b : a <= b -> Z.gtb a b = false.
Proof. intros H. rewrite Z.gtb_ltb. by apply Z.ltb_ge. Qed.

(** X20. [timeAgo] reports the largest unit that has fully elapsed: "Just now"
    below one minute (also for a time in the future), whole minutes (1 to
    59) below one hour, whole hours (1 to 23) below one day, whole days from
    then on; the number is the elapsed time divided by the unit, rounded
    down. *)
Theorem timeAgo_reports_largest_elapsed_unit (now performedAt : Z) :
  let diff := now - performedAt in
  (diff < 60000 -> timeAgo now performedAt = "Just now")
  /\ (60000 <= diff < 3600000 ->
      timeAgo now performedAt = ago (diff / 60000) "minute"
      /\ 1 <= diff / 60000 < 60)
  /\ (3600000 <= diff < 86400000 ->
      timeAgo now performedAt = ago (diff / 3600000) "hour"
      /\ 1 <= diff / 3600000 < 24)
  /\ (86400000 <= diff ->
      timeAgo now performedAt = ago (diff / 86400000) "day"
      /\ 1 <= diff / 86400000).
Proof.
  intros diff. unfold timeAgo. fold diff.
  assert (Hh : diff / 60000 / 60 = diff / 3600000)
    by (rewrite Z.div_div by lia; reflexivity).
  assert (Hd : diff / 60000 / 60 / 24 = diff / 86400000)
    by (rewrite !Z.div_div by lia; reflexivity).
  rewrite Hd, Hh.
  split; [|split; [|split]].
  - intros Hlt.
    assert (diff / 86400000 < 1) by (apply Z.div_lt_upper_bound; lia).
    assert (diff / 3600000 < 1) by (apply Z.div_lt_upper_bound; lia).
    assert (diff / 60000 < 1) by (apply Z.div_lt_upper_bound; lia).
    by rewrite !gtb_false by lia.
  - intros [Hlo Hhi].
    assert (diff / 86400000 < 1) by (apply Z.div_lt_upper_bound; lia).
    assert (diff / 3600000 < 1) by (apply Z.div_lt_upper_bound; lia).
    assert (diff / 60000 < 60) by (apply Z.div_lt_upper_bound; lia).
    assert (1 <= diff / 60000) by (apply Z.div_le_lower_bound; lia).
    rewrite !gtb_false by lia. rewrite gtb_true by lia. split; [done|lia].
  - intros [Hlo Hhi].
    assert (diff / 86400000 < 1) by (apply Z.div_lt_upper_bound; lia).
    assert (diff / 3600000 < 24) by (apply Z.div_lt_upper_bound; lia).
    assert (1 <= diff / 3600000) by (apply Z.div_le_lower_bound; lia).
    rewrite gtb_false by lia. rewrite gtb_true by lia. split; [done|lia].
  - intros Hlo.
    assert (1 <= diff / 86400000) by (apply Z.div_le_lower_bound; lia).
    rewrite gtb_true by lia. split; [done|lia].
Qed.

Lemma timeAgo_reports_largest_elapsed_unit_witness :
  timeAgo 7500000 0 = "2 hours ago" /\ 1 <= 7500000 / 3600000 < 24.
Proof.
  destruct (timeAgo_reports_largest_elapsed_unit 7500000 0) as (_ & _ & H & _).
  destruct H as [H1 H2]; [simpl; lia|].
  split; [exact H1 | exact H2].
Defined.

End AuditLogVirtualsSpec.

Module MediaModelSpec.
Import MediaModel.

Local Open Scope Z_scope.

Lemma pad_two_digits (n : nat) :
  (n < 100)%nat -> padStart 2 (show (Z.of_nat n)) = Validators.two_digits n.
Proof.
  assert (Hall : Forall (fun k => padStart 2 (show (Z.of_nat k))
                                  = Validators.two_digits k) (seq 0 100))
    by (apply (bool_decide_unpack _); vm_compute; exact I).
  intros Hn. rewrite Forall_forall in Hall. apply Hall.
  apply elem_of_seq. lia.
Qed.

(** X21. [durationFormatted] is absent exactly when the duration is absent or
    zero. A positive duration is rendered as [H:MM:SS] from one hour on and as
    [M:SS] below: the hours, minutes (below 60) and seconds (below 60) shown
    add up to the duration, and minutes after an hour part and seconds are
    always written with two digits. *)
Theorem durationFormatted_splits_duration (this : Doc) :
  (durationFormatted this = None
   <-> duration this = None \/ duration this = Some 0)
  /\ (forall d, duration this = Some d -> 0 < d ->
        exists h m s,
          0 <= h /\ 0 <= m < 60 /\ 0 <= s < 60
          /\ d = 3600 * h + 60 * m + s
          /\ durationFormatted this
             = Some (if Z.ltb 0 h
                     then show h ++ ":" ++ Validators.two_digits (Z.to_nat m)
                          ++ ":" ++ Validators.two_digits (Z.to_nat s)
                     else show m ++ ":" ++ Validators.two_digits (Z.to_nat s))%string).
Proof.
  split.
  - unfold durationFormatted. destruct (duration this) as [d|]; [|by split; auto].
    destruct (Z.eqb_spec d 0) as [->|Hne].
    + split; auto.
    + destruct (Z.gtb _ _); split; try discriminate;
        intros [?|[= ?]]; done.
  - intros d Hd Hpos. unfold durationFormatted. rewrite Hd.
    rewrite (proj2 (Z.eqb_neq d 0)) by lia.
    rewrite !Z.rem_mod_nonneg by lia.
    set (h := d / 3600). set (m := d mod 3600 / 60). set (s := d mod 60).
    assert (0 <= h) by (apply Z.div_pos; lia).
    assert (0 <= m < 60).
    { pose proof (Z.mod_pos_bound d 3600). split.
      - apply Z.div_pos; lia.
      - apply Z.div_lt_upper_bound; lia. }
    assert (0 <= s < 60) by (apply Z.mod_pos_bound; lia).
    assert (d = 3600 * h + 60 * m + s).
    { unfold h, m, s.
      pose proof (Z.div_mod d 3600). pose proof (Z.div_mod (d mod 3600) 60).
      assert ((d mod 3600) mod 60 = d mod 60).
      { apply Z.mod_mod_divide. exists 60. lia. }
      lia. }
    exists h, m, s. repeat split; try lia.
    assert (Hm : padStart 2 (show m) = Validators.two_digits (Z.to_nat m)).
    { rewrite <- (Z2Nat.id m) at 1 by lia. apply pad_two_digits. lia. }
    assert (Hs : padStart 2 (show s) = Validators.two_digits (Z.to_nat s)).
    { rewrite <- (Z2Nat.id s) at 1 by lia. apply pad_two_digits. lia. }
    rewrite Hm, Hs. rewrite Z.gtb_ltb. by destruct (Z.ltb 0 h).
Qed.

Lemma durationFormatted_splits_duration_witness :
  exists h m s,
    0 <= h /\ 0 <= m < 60 /\ 0 <= s < 60
    /\ 3665 = 3600 * h + 60 * m + s
    /\ durationFormatted {| status := "active"; approvalHistory := [];
                            duration := Some 3665 |}
       = Some (if Z.ltb 0 h
               then show h ++ ":" ++ Validators.two_digits (Z.to_nat m)
                    ++ ":" ++ Validators.two_digits (Z.to_nat s)
               else show m ++ ":" ++ Validators.two_digits (Z.to_nat s))%string.
Proof.
  apply (proj2 (durationFormatted_splits_duration
                  {| status := "active"; approvalHistory := [];
                     duration := Some 3665 |}) 3665); [reflexivity | lia].
Defined.

Example durationFormatted_of_3665_seconds :
  durationFormatted {| status := "active"; approvalHistory := [];
                       duration := Some 3665 |} = Some "1:01:05".
Proof. vm_compute. reflexivity. Qed.

Lemma moderate_snoc ds d this :
  moderate (ds ++ [d]) this = decide_one (moderate ds this) d.
Proof. unfold moderate. by rewrite foldl_app. Qed.

Lemma decide_one_spec this d :
  approvalHistory (decide_one this d)
  = (approvalHistory this ++ [entry_of d])%list
  /\ status (decide_one this d) = status_after d.
Proof. destruct d; split; reflexivity. Qed.

(** X22. Over any sequence of [approve] and [reject] calls, the approval
    history is the old history followed by one entry per call, in order,
    each with the caller, the reason, the time and the kind of its call
    ("approved" for [approve], "rejected" for [reject]); and the status of
    the media is the one the last call set, "active" when that call was
    [approve] and "rejected" when it was [reject], and the old status when
    there was no call. *)
Theorem moderation_status_follows_last_decision (ds : list Decision) (this : Doc) :
  approvalHistory (moderate ds this)
  = (approvalHistory this ++ map entry_of ds)%list
  /\ status (moderate ds this)
     = match last ds with
       | Some (Approve _ _ _) => "active"
       | Some (Reject _ _ _) => "rejected"
       | None => status this
       end
  /\ (forall pre u r t, ds = (pre ++ [Approve u r t])%list ->
        status (moderate ds this) = "active"
        /\ last (approvalHistory (moderate ds this))
           = Some {| approvedBy := u; approvedAt := t;
                     approval_status := "approved"; reason := r |})
  /\ (forall pre u r t, ds = (pre ++ [Reject u r t])%list ->
        status (moderate ds this) = "rejected"
        /\ last (approvalHistory (moderate ds this))
           = Some {| approvedBy := u; approvedAt := t;
                     approval_status := "rejected"; reason := r |}).
Proof.
  assert (Hhist : forall ds, approvalHistory (moderate ds this)
                  = (approvalHistory this ++ map entry_of ds)%list).
  { intros l. induction l as [|d l IH] using rev_ind.
    - simpl. by rewrite app_nil_r.
    - rewrite moderate_snoc, (proj1 (decide_one_spec _ _)), IH, map_app.
      by rewrite <- app_assoc. }
  assert (Hlast : forall pre d,
            status (moderate (pre ++ [d]) this) = status_after d
            /\ last (approvalHistory (moderate (pre ++ [d]) this))
               = Some (entry_of d)).
  { intros pre d. split.
    - by rewrite moderate_snoc, (proj2 (decide_one_spec _ _)).
    - rewrite Hhist, map_app, app_assoc. cbn [map]. apply last_snoc. }
  split; [apply Hhist|]. split; [|split].
  - destruct ds as [|d ds] using rev_ind; [done|].
    rewrite last_snoc, (proj1 (Hlast ds d)). by destruct d.
  - intros pre u r t ->. apply (Hlast pre (Approve u r t)).
  - intros pre u r t ->. apply (Hlast pre (Reject u r t)).
Qed.

End MediaModelSpec.

Module CulturalContentSpec.
Import CulturalContentModel.

Lemma includes_spec (l : list Id) (userId : Id) :
  includes l userId = true <-> userId ∈ l.
Proof.
  unfold includes. rewrite existsb_exists. split.
  - intros (x & Hin & Heq). apply String.eqb_eq in Heq as ->.
    by apply list_elem_of_In.
  - intros Hin. exists userId. split; [by apply list_elem_of_In|].
    apply String.eqb_refl.
Qed.

Lemma elem_of_without (userId v : Id) (l : list Id) :
  v ∈ List.filter (fun id => negb (String.eqb id userId)) l
  <-> v ≠ userId /\ v ∈ l.
Proof.
  rewrite !list_elem_of_In, filter_In, negb_true_iff, String.eqb_neq. tauto.
Qed.

Lemma NoDup_without (userId : Id) (l : list Id) :
  NoDup l -> NoDup (List.filter (fun id => negb (String.eqb id userId)) l).
Proof.
  induction 1 as [|x l Hx Hl IH]; simpl; [constructor|].
  destruct (negb _); [|done]. constructor; [|done].
  rewrite elem_of_without. tauto.
Qed.

Lemma without_absent (userId : Id) (l : list Id) :
  userId ∉ l -> List.filter (fun id => negb (String.eqb id userId)) l = l.
Proof.
  intros Hnin. apply ValidatorsSpec.filter_keeps_all.
  intros x Hx. apply negb_true_iff, String.eqb_neq. intros ->.
  apply Hnin. by apply list_elem_of_In.
Qed.

(** X23. The likes of a content behave as a set of users: after [addLike] the
    user is among them and nobody else was added, after [removeLike] the user
    is gone and nobody else was removed; neither introduces a duplicate;
    liking twice is liking once; removing a like that was just added gives the
    likes back; and [likeCount] grows by one exactly when the user had not
    liked before. *)
Theorem likes_behave_as_a_set (userId : Id) (this : Doc) :
  let added := fst (addLike userId this) in
  let removed := fst (removeLike userId this) in
  (forall v, v ∈ likes added <-> v = userId \/ v ∈ likes this)
  /\ (forall v, v ∈ likes removed <-> v ≠ userId /\ v ∈ likes this)
  /\ (NoDup (likes this) -> NoDup (likes added) /\ NoDup (likes removed))
  /\ fst (addLike userId added) = added
  /\ (userId ∉ likes this ->
      likes (fst (removeLike userId added)) = likes this)
  /\ likeCount added
     = (likeCount this + if includes (likes this) userId then 0 else 1)%nat.
Proof.
  intros added removed. subst added removed. unfold addLike, removeLike.
  destruct (includes (likes this) userId) eqn:Hinc; cbn [negb fst likes].
  - apply includes_spec in Hinc as Hin.
    split; [intros v; split; [auto | intros [->|]; done]|].
    split; [intros v; apply elem_of_without|].
    split; [intros Hnd; split; [done | by apply NoDup_without]|].
    split; [by rewrite Hinc|].
    split; [done|]. unfold likeCount. lia.
  - assert (Hnin : userId ∉ likes this)
      by (rewrite <- includes_spec, Hinc; discriminate).
    split; [intros v; rewrite elem_of_app, list_elem_of_singleton; tauto|].
    split; [intros v; apply elem_of_without|].
    split.
    { intros Hnd. split; [|by apply NoDup_without].
      apply NoDup_app. split; [done|]. split; [|apply NoDup_singleton].
      intros x Hx ->%list_elem_of_singleton. done. }
    split.
    { assert (includes (likes this ++ [userId]) userId = true) as ->; [|done].
      apply includes_spec, elem_of_app. right. by apply list_elem_of_singleton. }
    split.
    { intros _. rewrite List.filter_app, without_absent by done. simpl.
      rewrite String.eqb_refl. simpl. by rewrite app_nil_r. }
    unfold likeCount. simpl. by rewrite length_app.
Qed.

Lemma validate_comment_nil (c : Comment) :
  validate_comment c = []
  <-> (String.length (comment_text c) <= 500)%nat /\ (1 <= rating c <= 5)%Z.
Proof.
  unfold validate_comment.
  destruct (Nat.leb_spec (String.length (comment_text c)) 500);
    destruct (Z.leb_spec 1 (rating c)); destruct (Z.leb_spec (rating c) 5);
    simpl; split; try discriminate; try done; lia.
Qed.

Lemma save_resolves (this : Doc) :
  (exists d, save this = Promise.Resolved d)
  <-> forall c, c ∈ comments this -> validate_comment c = [].
Proof.
  unfold save.
  destruct (concat (map validate_comment (comments this))) as [|e errs] eqn:Hc.
  - split; [|eauto]. intros _ c Hc'.
    induction (comments this) as [|x l IH]; [by apply elem_of_nil in Hc'|].
    simpl in Hc. apply app_eq_nil in Hc as [Hx Hl].
    apply elem_of_cons in Hc' as [->|Hin]; [done | by apply IH].
  - split; [intros [d Hd]; discriminate|]. intros Hall. exfalso.
    assert (concat (map validate_comment (comments this)) = []); [|congruence].
    clear Hc. induction (comments this) as [|x l IH]; [done|]. simpl.
    rewrite (Hall x) by (by left). simpl. apply IH.
    intros c Hc'. apply Hall. by right.
Qed.

(** X24. On a content whose stored comments satisfy the schema, [addComment] is
    saved exactly when the rating is between 1 and 5 and the comment has at
    most 500 characters. The rating defaults to 0, so [addComment] called
    without a rating is always rejected; the document in memory holds the new
    comment in either case. *)
Theorem addComment_saved_iff_rating_in_range
    (userId : Id) (text : string) (r : Z) (this : Doc) :
  (forall c, c ∈ comments this -> validate_comment c = []) ->
  ((exists d, snd (addComment userId text r this) = Promise.Resolved d)
   <-> (String.length text <= 500)%nat /\ (1 <= r <= 5)%Z)
  /\ (exists errs,
        snd (addComment_default userId text this) = Promise.Rejected errs)
  /\ comments (fst (addComment userId text r this))
     = (comments this
        ++ [{| comment_user := userId; comment_text := text; rating := r |}])%list.
Proof.
  intros Hstored.
  assert (Hiff : forall r',
    (exists d, snd (addComment userId text r' this) = Promise.Resolved d)
    <-> (String.length text <= 500)%nat /\ (1 <= r' <= 5)%Z).
  { intros r'. unfold addComment. cbn [snd]. rewrite save_resolves.
    cbn [comments]. split.
    - intros Hall.
      specialize (Hall {| comment_user := userId; comment_text := text;
                          rating := r' |}).
      rewrite validate_comment_nil in Hall. apply Hall.
      apply elem_of_app. right. by apply list_elem_of_singleton.
    - intros Hok c [Hc| ->%list_elem_of_singleton]%elem_of_app; [by apply Hstored|].
      by apply validate_comment_nil. }
  split; [apply Hiff|]. split; [|done].
  unfold addComment_default.
  destruct (snd (addComment userId text 0 this)) as [d|errs] eqn:Hd; [|eauto].
  assert (1 <= 0 <= 5)%Z; [|lia]. apply (Hiff 0%Z). eauto.
Qed.

Lemma addComment_saved_iff_rating_in_range_witness :
  (forall c, c ∈ comments {| likes := ["u1"]; comments := [] |} ->
             validate_comment c = [])
  /\ exists errs,
       snd (addComment_default "u2" "Inspiring story"
              {| likes := ["u1"]; comments := [] |})
       = Promise.Rejected errs.
Proof.
  assert (H : forall c, c ∈ comments {| likes := ["u1"]; comments := [] |} ->
                        validate_comment c = [])
    by (intros c Hc; simpl in Hc; by apply elem_of_nil in Hc).
  split; [exact H|].
  exact (proj1 (proj2 (addComment_saved_iff_rating_in_range
                         "u2" "Inspiring story" 3 _ H))).
Defined.

End CulturalContentSpec.

Module ChatSpec.
Import ChatModel.

Lemma call_keeps_deleted (this : Message) (c : Call) :
  isDeleted (deleted this) = true -> isDeleted (deleted (call this c)) = true.
Proof.
  intros H. destruct c; cbn [call]; try done.
  - unfold markAsRead. by destruct (List.find _ _).
  - unfold addReaction. by destruct (List.find _ _).
Qed.

(** X25. Deleting a message is final for its status: whatever methods are called
    afterwards (reading, editing, reacting, deleting again), the status stays
    "deleted". Editing is not refused on a deleted message: it still
    replaces the content. *)
Theorem deleted_status_is_final (deletedBy : Id) (now : Z) (cs : list Call)
    (this : Message) :
  status (calls cs (deleteMessage deletedBy now this)) = "deleted"
  /\ (forall newContent editedBy t,
        content (edit newContent editedBy t (deleteMessage deletedBy now this))
        = newContent).
Proof.
  split; [|done].
  assert (H : isDeleted (deleted (calls cs (deleteMessage deletedBy now this)))
              = true).
  { unfold calls. generalize (deleteMessage deletedBy now this) (eq_refl :
      isDeleted (deleted (deleteMessage deletedBy now this)) = true).
    induction cs as [|c cs IH]; intros m Hm; simpl; [done|].
    apply IH. by apply call_keeps_deleted. }
  unfold status. by rewrite H.
Qed.

Lemma find_replace_first_same userId r now l x :
  List.find (fun y => String.eqb (reaction_user y) userId) l = Some x ->
  reaction <$> List.find (fun y => String.eqb (reaction_user y) userId)
                 (replace_first userId r now l) = Some r.
Proof.
  induction l as [|y l IH]; simpl; [discriminate|].
  destruct (String.eqb (reaction_user y) userId) eqn:Hy; simpl.
  - intros _. by rewrite Hy.
  - rewrite Hy. apply IH.
Qed.

Lemma find_replace_first_other userId v r now l :
  v ≠ userId ->
  List.find (fun y => String.eqb (reaction_user y) v) (replace_first userId r now l)
  = List.find (fun y => String.eqb (reaction_user y) v) l.
Proof.
  intros Hne. induction l as [|y l IH]; simpl; [done|].
  destruct (String.eqb_spec (reaction_user y) userId) as [Hy|Hy]; simpl.
  - rewrite Hy. by rewrite (proj2 (String.eqb_neq userId v)) by done.
  - by rewrite IH.
Qed.

Lemma map_user_replace_first userId r now l :
  map reaction_user (replace_first userId r now l) = map reaction_user l.
Proof.
  induction l as [|y l IH]; simpl; [done|].
  destruct (String.eqb (reaction_user y) userId); simpl; [done|].
  by rewrite IH.
Qed.

Lemma find_user_None userId (l : list Reaction) :
  List.find (fun y => String.eqb (reaction_user y) userId) l = None
  <-> userId ∉ map reaction_user l.
Proof.
  induction l as [|y l IH]; simpl.
  - split; [intros _; apply not_elem_of_nil | done].
  - rewrite not_elem_of_cons.
    destruct (String.eqb_spec (reaction_user y) userId) as [Hy|Hy].
    + split; [discriminate | intros [Hne _]; congruence].
    + rewrite IH. split; [intros H; split; [congruence|done] | tauto].
Qed.

Lemma find_filter_other userId v (l : list Reaction) :
  v ≠ userId ->
  List.find (fun y => String.eqb (reaction_user y) v)
    (List.filter (fun x => negb (String.eqb (reaction_user x) userId)) l)
  = List.find (fun y => String.eqb (reaction_user y) v) l.
Proof.
  intros Hne. induction l as [|y l IH]; simpl; [done|].
  destruct (String.eqb_spec (reaction_user y) userId) as [Hy|Hy]; simpl.
  - rewrite Hy, (proj2 (String.eqb_neq userId v)) by done. apply IH.
  - by rewrite IH.
Qed.

Lemma find_filter_same userId (l : list Reaction) :
  List.find (fun y => String.eqb (reaction_user y) userId)
    (List.filter (fun x => negb (String.eqb (reaction_user x) userId)) l)
  = None.
Proof.
  induction l as [|y l IH]; simpl; [done|].
  destruct (String.eqb (reaction_user y) userId) eqn:Hy; simpl; [done|].
  by rewrite Hy.
Qed.

Lemma NoDup_map_filter {A B} (f : A -> B) (g : A -> bool) (l : list A) :
  NoDup (map f l) -> NoDup (map f (List.filter g l)).
Proof.
  induction l as [|x l IH]; simpl; intros Hnd; [constructor|].
  apply NoDup_cons in Hnd as [Hx Hl].
  destruct (g x); simpl; [|by apply IH].
  apply NoDup_cons. split; [|by apply IH].
  rewrite list_elem_of_In, in_map_iff. intros (z & Hz & Hin).
  apply filter_In in Hin as [Hin _]. apply Hx.
  rewrite list_elem_of_In, in_map_iff. eauto.
Qed.

Lemma find_app_None {A} (f : A -> bool) (l1 l2 : list A) :
  List.find f l1 = None -> List.find f (l1 ++ l2) = List.find f l2.
Proof.
  induction l1 as [|x l1 IH]; simpl; [done|].
  destruct (f x); [discriminate | apply IH].
Qed.

Lemma find_app_Some {A} (f : A -> bool) (l1 l2 : list A) x :
  List.find f l1 = Some x -> List.find f (l1 ++ l2) = Some x.
Proof.
  induction l1 as [|y l1 IH]; simpl; [discriminate|].
  destruct (f y); [done | apply IH].
Qed.

(** X26. The reactions of a message behave as a map from users to reactions:
    after [addReaction] the user's reaction is the new one and everybody
    else's is unchanged; after [removeReaction] the user has none and
    everybody else's is unchanged. A user who has reacted before gets no
    second entry, so a message whose reactions hold each user at most once
    stays that way. *)
Theorem reactions_behave_as_a_map (userId : Id) (r : string) (now : Z)
    (this : Message) :
  reaction_of userId (addReaction userId r now this) = Some r
  /\ (forall v, v ≠ userId ->
        reaction_of v (addReaction userId r now this) = reaction_of v this)
  /\ reaction_of userId (removeReaction userId this) = None
  /\ (forall v, v ≠ userId ->
        reaction_of v (removeReaction userId this) = reaction_of v this)
  /\ (userId ∈ reactors this ->
        reactors (addReaction userId r now this) = reactors this)
  /\ (NoDup (reactors this) ->
        NoDup (reactors (addReaction userId r now this))
        /\ NoDup (reactors (removeReaction userId this))).
Proof.
  unfold reaction_of, reactors, addReaction, removeReaction.
  destruct (List.find (fun x => String.eqb (reaction_user x) userId)
              (reactions this)) as [x|] eqn:Hfind;
    cbn [reactions with_reactions].
  - split; [by eapply find_replace_first_same|].
    split; [intros v Hv; by rewrite find_replace_first_other|].
    split; [by rewrite find_filter_same|].
    split; [intros v Hv; by rewrite find_filter_other|].
    split; [intros _; apply map_user_replace_first|].
    intros Hnd. rewrite map_user_replace_first. split; [done|].
    by apply NoDup_map_filter.
  - apply find_user_None in Hfind as Hnin.
    split.
    { rewrite find_app_None by done. simpl. by rewrite String.eqb_refl. }
    split.
    { intros v Hv.
      destruct (List.find (fun y => String.eqb (reaction_user y) v)
                  (reactions this)) as [z|] eqn:Hz.
      - by rewrite (find_app_Some _ _ _ _ Hz).
      - rewrite find_app_None by done. simpl.
        by rewrite (proj2 (String.eqb_neq userId v)) by done. }
    split; [by rewrite find_filter_same|].
    split; [intros v Hv; by rewrite find_filter_other|].
    split; [intros Hin; done|].
    intros Hnd. split.
    + rewrite map_app. apply NoDup_app. split; [done|].
      split; [|apply NoDup_singleton].
      intros y Hy ->%list_elem_of_singleton. done.
    + by apply NoDup_map_filter.
Qed.

Lemma find_reader_None userId (l : list Read) :
  List.find (fun y => String.eqb (read_user y) userId) l = None
  <-> userId ∉ map read_user l.
Proof.
  induction l as [|y l IH]; simpl.
  - split; [intros _; apply not_elem_of_nil | done].
  - rewrite not_elem_of_cons.
    destruct (String.eqb_spec (read_user y) userId) as [Hy|Hy].
    + split; [discriminate | intros [Hne _]; congruence].
    + rewrite IH. split; [intros H; split; [congruence|done] | tauto].
Qed.

(** A message keeps one read receipt per user: [markAsRead] records the user
    once, a second call (at any later time) changes nothing, so the first
    read time is kept, and the other receipts are never touched. *)
Theorem markAsRead_records_first_read_only (userId : Id) (t1 t2 : Z)
    (this : Message) :
  userId ∈ readers (markAsRead userId t1 this)
  /\ markAsRead userId t2 (markAsRead userId t1 this) = markAsRead userId t1 this
  /\ readBy this `prefix_of` readBy (markAsRead userId t1 this)
  /\ (NoDup (readers this) -> NoDup (readers (markAsRead userId t1 this))).
Proof.
  unfold readers.
  assert (Hin : userId ∈ map read_user (readBy (markAsRead userId t1 this))).
  { unfold markAsRead.
    destruct (List.find _ (readBy this)) as [x|] eqn:Hf; cbn [readBy].
    - destruct (decide (userId ∈ map read_user (readBy this))) as [|Hn]; [done|].
      apply find_reader_None in Hn. congruence.
    - rewrite map_app, elem_of_app. right. by apply list_elem_of_singleton. }
  split; [done|]. split; [|split].
  - unfold markAsRead at 1.
    destruct (List.find _ (readBy (markAsRead userId t1 this))) as [x|] eqn:Hf;
      [done|].
    apply find_reader_None in Hf. done.
  - unfold markAsRead. destruct (List.find _ (readBy this)); cbn [readBy];
      [done | by apply prefix_app_r].
  - intros Hnd. unfold markAsRead.
    destruct (List.find _ (readBy this)) as [x|] eqn:Hf; cbn [readBy]; [done|].
    apply find_reader_None in Hf.
    rewrite map_app. apply NoDup_app. split; [done|].
    split; [|apply NoDup_singleton].
    intros y Hy ->%list_elem_of_singleton. done.
Qed.

Lemma group_includes_spec (l : list Id) (userId : Id) :
  includes l userId = true <-> userId ∈ l.
Proof. apply CulturalContentSpec.includes_spec. Qed.

Lemma elem_of_group_without (userId v : Id) (l : list Id) :
  v ∈ without userId l <-> v ≠ userId /\ v ∈ l.
Proof. apply CulturalContentSpec.elem_of_without. Qed.

(** X27. Membership of a chat group: [removeMember] takes the user out of both
    the members and the admins and nobody else out of either; [addMember]
    and [addAdmin] add the user to their own list only, so [addAdmin] makes
    an admin of a user without making that user a member; the three methods
    other than [addAdmin] keep every admin a member. *)
Theorem chat_group_membership (userId : Id) (now : Z) (this : ChatGroup) :
  (forall v, v ∈ members (removeMember userId now this)
             <-> v ≠ userId /\ v ∈ members this)
  /\ (forall v, v ∈ admins (removeMember userId now this)
                <-> v ≠ userId /\ v ∈ admins this)
  /\ (forall v, v ∈ members (addMember userId now this)
                <-> v = userId \/ v ∈ members this)
  /\ admins (addMember userId now this) = admins this
  /\ (forall v, v ∈ admins (addAdmin userId this)
                <-> v = userId \/ v ∈ admins this)
  /\ members (addAdmin userId this) = members this
  /\ (admins this ⊆ members this ->
        admins (addMember userId now this) ⊆ members (addMember userId now this)
        /\ admins (removeMember userId now this)
             ⊆ members (removeMember userId now this)
        /\ admins (removeAdmin userId this) ⊆ members (removeAdmin userId this)).
Proof.
  assert (Hadd : forall l v,
    v ∈ (if negb (includes l userId) then (l ++ [userId])%list else l)
    <-> v = userId \/ v ∈ l).
  { intros l v. destruct (includes l userId) eqn:Hi; cbn [negb].
    - apply group_includes_spec in Hi. split; [auto | intros [->|]; done].
    - rewrite elem_of_app, list_elem_of_singleton. tauto. }
  split; [intros v; apply elem_of_group_without|].
  split; [intros v; apply elem_of_group_without|].
  split.
  { intros v. rewrite <- Hadd. unfold addMember.
    by destruct (negb (includes (members this) userId)). }
  split; [unfold addMember; by destruct (negb _)|].
  split.
  { intros v. rewrite <- Hadd. unfold addAdmin.
    by destruct (negb (includes (admins this) userId)). }
  split; [unfold addAdmin; by destruct (negb _)|].
  intros Hsub. split; [|split].
  - intros v Hv. unfold addMember in *.
    destruct (negb (includes (members this) userId)); cbn [admins members] in *.
    + apply elem_of_app. left. by apply Hsub.
    + by apply Hsub.
  - intros v. cbn [removeMember admins members].
    rewrite !elem_of_group_without. intros [? ?]. split; [done | by apply Hsub].
  - intros v. cbn [removeAdmin admins members].
    rewrite elem_of_group_without. intros [? ?]. by apply Hsub.
Qed.

End ChatSpec.

Module ActivitySpec.
Import ActivityModel.

(** X28. [getUserStatus] and [isUserAttending] agree: for an activity whose
    attendees carry statuses of the schema enum, the status of a user is
    "not_registered" exactly when the user is not attending, and otherwise
    it is the status of the user's first entry, a value of the enum. *)
Theorem getUserStatus_agrees_with_isUserAttending (userId : Id) (this : Doc) :
  (forall a, a ∈ attendees this -> attendee_status a ∈ attendee_status_enum) ->
  (getUserStatus userId this = "not_registered"
   <-> isUserAttending userId this = false)
  /\ (isUserAttending userId this = true ->
      getUserStatus userId this ∈ attendee_status_enum).
Proof.
  intros Henum. unfold getUserStatus, isUserAttending.
  induction (attendees this) as [|a l IH]; simpl.
  - split; [done | discriminate].
  - destruct (String.eqb (attendee_user a) userId) eqn:Ha; simpl.
    + assert (Hst : attendee_status a ∈ attendee_status_enum)
        by (apply Henum; by left).
      split; [|done]. split; [|discriminate].
      intros Heq. rewrite Heq in Hst. exfalso. revert Hst.
      unfold attendee_status_enum. rewrite !elem_of_cons, elem_of_nil.
      intros [?|[?|[?|[?|[]]]]]; discriminate.
    + apply IH. intros b Hb. apply Henum. by right.
Qed.

Lemma getUserStatus_agrees_with_isUserAttending_witness :
  (forall a, a ∈ attendees {| attendees :=
                 [{| attendee_user := "u1"; attendee_status := "confirmed" |}] |} ->
             attendee_status a ∈ attendee_status_enum)
  /\ (getUserStatus "u2" {| attendees :=
         [{| attendee_user := "u1"; attendee_status := "confirmed" |}] |}
      = "not_registered"
      <-> isUserAttending "u2" {| attendees :=
            [{| attendee_user := "u1"; attendee_status := "confirmed" |}] |}
          = false).
Proof.
  assert (H : forall a, a ∈ attendees {| attendees :=
                 [{| attendee_user := "u1"; attendee_status := "confirmed" |}] |} ->
             attendee_status a ∈ attendee_status_enum).
  { intros a Ha. simpl in Ha. apply list_elem_of_singleton in Ha as ->.
    simpl. repeat constructor. }
  split; [exact H|].
  exact (proj1 (getUserStatus_agrees_with_isUserAttending "u2" _ H)).
Defined.

End ActivitySpec.

Module NotificationSpec.
Import NotificationModel.

Local Open Scope Z_scope.

Lemma unread_filter_spec (userId : Id) (now : Z) (doc : Doc) :
  unread_filter userId now doc = true
  <-> recipient doc = Some userId /\ read doc = false
      /\ (expiresAt doc = Missing \/ exists t, expiresAt doc = Value t /\ now < t).
Proof.
  unfold unread_filter.
  rewrite !andb_true_iff, bool_decide_eq_true, negb_true_iff.
  destruct (expiresAt doc) as [| |t].
  - split; [intros [[? ?] _]; auto | intros (? & ? & _); auto].
  - split; [intros [_ ?]; discriminate|].
    intros (_ & _ & [?|(t & ? & _)]); discriminate.
  - rewrite Z.gtb_ltb, Z.ltb_lt. split.
    + intros [[? ?] ?]. eauto 6.
    + intros (? & ? & [?|(t' & [= <-] & ?)]); [discriminate | done].
Qed.

Lemma getUnreadCount_app (c1 c2 : list Doc) userId now :
  getUnreadCount (c1 ++ c2) userId now
  = (getUnreadCount c1 userId now + getUnreadCount c2 userId now)%nat.
Proof. unfold getUnreadCount. by rewrite List.filter_app, length_app. Qed.

(** X29. [getUnreadCount] counts the notifications of the user that are not read
    and whose expiry is either not stored at all or later than now. None of
    those is expired, a notification that is marked as read is no longer
    counted, and a notification whose expiry is stored as null is not counted
    although it never expires. *)
Theorem getUnreadCount_counts_unread_unexpired (userId : Id) (now : Z) :
  (forall doc,
      unread_filter userId now doc = true
      <-> recipient doc = Some userId /\ read doc = false
          /\ (expiresAt doc = Missing
              \/ exists t, expiresAt doc = Value t /\ now < t))
  /\ (forall doc, unread_filter userId now doc = true -> isExpired now doc = false)
  /\ (forall before doc after t,
        getUnreadCount (before ++ markAsRead t doc :: after) userId now
        = getUnreadCount (before ++ after) userId now)
  /\ (forall doc, expiresAt doc = Null ->
        unread_filter userId now doc = false /\ isExpired now doc = false).
Proof.
  split; [intros doc; apply unread_filter_spec|]. split; [|split].
  - intros doc (_ & _ & [Hm|(t & Ht & Hlt)])%unread_filter_spec;
      unfold isExpired; rewrite ?Hm, ?Ht; [done|].
    apply AuditLogVirtualsSpec.gtb_false. lia.
  - intros before doc after t.
    rewrite !getUnreadCount_app. f_equal.
    unfold getUnreadCount. cbn [List.filter].
    assert (unread_filter userId now (markAsRead t doc) = false) as ->; [|done].
    unfold unread_filter, markAsRead, set_read. cbn [read negb].
    by rewrite andb_false_r.
  - intros doc Hnull. unfold unread_filter, isExpired. rewrite Hnull.
    by rewrite andb_false_r.
Qed.

Lemma check_nil ok msg : check ok msg = [] <-> ok = true.
Proof. unfold check. destruct ok; split; try done; discriminate. Qed.

Lemma reminder_valid_iff (userId : option Id) (message actionUrl : string)
    (expiry : option Z) :
  validate {| title := "Reminder"; message := message; type := "info";
              category := "reminder"; recipient := userId; target := "user";
              priority := "medium"; read := false; readAt := Missing;
              actionUrl := actionUrl; expiresAt := date_field expiry |} = []
  <-> is_Some userId /\ message ≠ ""
      /\ (String.length message <= 500)%nat
      /\ (String.length actionUrl <= 500)%nat.
Proof.
  unfold validate. cbn [title type category recipient target priority
                        NotificationModel.message NotificationModel.actionUrl].
  rewrite !app_nil, !check_nil.
  rewrite !negb_true_iff, !String.eqb_neq, !Nat.leb_le, !bool_decide_eq_true.
  split.
  - intros (_ & _ & Hm & Hml & _ & _ & Hu & _ & _ & Ha). done.
  - intros (Hu & Hm & Hml & Ha).
    repeat split; try done; try (cbn; lia); repeat constructor.
Qed.

(** X30. [createReminderNotification] stores a reminder exactly when a recipient
    is given, the message is not empty and message and action URL have at
    most 500 characters; the collection grows by that one document. A
    reminder created with an expiry counts as unread for its recipient until
    the expiry; a reminder created without one (the default, stored as null)
    is never counted by [getUnreadCount]. *)
Theorem createReminderNotification_and_unread_count
    (userId : Id) (message actionUrl : string) (expiry : option Z)
    (coll : list Doc) :
  ((exists coll', createReminderNotification (Some userId) message actionUrl
                    expiry coll = Promise.Resolved coll')
   <-> message ≠ "" /\ (String.length message <= 500)%nat
       /\ (String.length actionUrl <= 500)%nat)
  /\ (forall coll',
        createReminderNotification (Some userId) message actionUrl expiry coll
        = Promise.Resolved coll' ->
        length coll' = S (length coll)
        /\ coll `prefix_of` coll'
        /\ forall now,
             getUnreadCount coll' userId now
             = (getUnreadCount coll userId now
                + match expiry with
                  | Some t => if Z.ltb now t then 1 else 0
                  | None => 0
                  end)%nat).
Proof.
  unfold createReminderNotification, create.
  pose proof (reminder_valid_iff (Some userId) message actionUrl expiry) as Hv.
  destruct (validate _) as [|e errs] eqn:Hval.
  - split.
    + split; [intros _; apply Hv; [done..] | eauto].
    + intros coll' [= <-]. split; [rewrite length_app; simpl; lia|].
      split; [by apply prefix_app_r|].
      intros now. rewrite getUnreadCount_app. f_equal.
      unfold getUnreadCount. cbn [List.filter].
      unfold unread_filter. cbn [recipient read expiresAt negb].
      rewrite bool_decide_eq_true_2 by done. cbn [andb].
      destruct expiry as [t|]; cbn [date_field]; [|done].
      rewrite Z.gtb_ltb. by destruct (Z.ltb now t).
  - split; [|discriminate].
    split; [intros [c Hc]; discriminate|].
    intros H. assert (e :: errs = []); [|discriminate].
    apply Hv. split; [eauto|done].
Qed.

End NotificationSpec.

(** ** Further properties of the cascade, the error handler, the audit log,
       the rate limiter and the account lock *)

Module CascadeFrameSpec.

Section WithLibrary.
Variable omitUndefined : bool.


Lemma district_admin_assignment (this : DistrictModel.Doc) db uid u :
  DistrictModel.admin this = Some uid ->
  isModified (DistrictModel.modifiedPaths this) "admin" = true ->
  users db !! uid = Some u ->
  exists db' u',
    DistrictModel.pre_save omitUndefined this db = Proceed (this, db')
    /\ users db' !! uid = Some u'
    /\ role u' = "district_admin"
    /\ h_district (hierarchy u') = Some (DistrictModel._id this)
    /\ h_sector (hierarchy u') = h_sector (hierarchy u)
    /\ h_cell (hierarchy u') = h_cell (hierarchy u)
    /\ (forall other, other ≠ uid -> users db' !! other = users db !! other).
Proof.
  intros Ha Hm Hu. unfold DistrictModel.pre_save. rewrite Ha, Hm.
  eexists _, _. split; [reflexivity|]. cbn [users with_users].
  rewrite (CascadeSpec.findByIdAndUpdate_lookup _ _ _ _ _ Hu).
  split; [reflexivity|].
  split; [|split; [|split; [|split]]];
    try (destruct u as [r [hd hs hc] g la lu]; reflexivity).
  intros other Hne. by apply CascadeSpec.findByIdAndUpdate_other.
Qed.

Lemma sector_admin_assignment (this : SectorModel.Doc) db uid u d :
  SectorModel.admin this = Some uid ->
  isModified (SectorModel.modifiedPaths this) "admin" = true ->
  SectorModel.district this = Some d ->
  users db !! uid = Some u ->
  exists db' u',
    SectorModel.pre_save omitUndefined this db = Proceed (this, db')
    /\ users db' !! uid = Some u'
    /\ role u' = "sector_admin"
    /\ h_district (hierarchy u') = Some d
    /\ h_sector (hierarchy u') = Some (SectorModel._id this)
    /\ h_cell (hierarchy u') = h_cell (hierarchy u)
    /\ (forall other, other ≠ uid -> users db' !! other = users db !! other).
Proof.
  intros Ha Hm Hd Hu. unfold SectorModel.pre_save. rewrite Ha, Hm, Hd.
  eexists _, _. split; [reflexivity|]. cbn [users with_users].
  rewrite (CascadeSpec.findByIdAndUpdate_lookup _ _ _ _ _ Hu).
  split; [reflexivity|].
  split; [|split; [|split; [|split]]];
    try (destruct u as [r [hd hs hc] g la lu]; reflexivity).
  intros other Hne. by apply CascadeSpec.findByIdAndUpdate_other.
Qed.

(** X14. Setting the admin of a District to an existing user makes that user
    district_admin of this district and leaves the user's sector and cell
    references as they were; setting the admin of a Sector to an existing
    user makes that user sector_admin of this sector, in the district the
    Sector document names, and leaves the user's cell reference as it was.
    No other user is changed: a previous admin keeps role and hierarchy. *)
Theorem admin_assignment_sets_role_and_own_level db uid u :
  users db !! uid = Some u ->
  (forall this : DistrictModel.Doc,
      DistrictModel.admin this = Some uid ->
      isModified (DistrictModel.modifiedPaths this) "admin" = true ->
      exists db' u',
        DistrictModel.pre_save omitUndefined this db = Proceed (this, db')
        /\ users db' !! uid = Some u'
        /\ role u' = "district_admin"
        /\ h_district (hierarchy u') = Some (DistrictModel._id this)
        /\ h_sector (hierarchy u') = h_sector (hierarchy u)
        /\ h_cell (hierarchy u') = h_cell (hierarchy u)
        /\ (forall other, other ≠ uid -> users db' !! other = users db !! other))
  /\ (forall (this : SectorModel.Doc) d,
      SectorModel.admin this = Some uid ->
      isModified (SectorModel.modifiedPaths this) "admin" = true ->
      SectorModel.district this = Some d ->
      exists db' u',
        SectorModel.pre_save omitUndefined this db = Proceed (this, db')
        /\ users db' !! uid = Some u'
        /\ role u' = "sector_admin"
        /\ h_district (hierarchy u') = Some d
        /\ h_sector (hierarchy u') = Some (SectorModel._id this)
        /\ h_cell (hierarchy u') = h_cell (hierarchy u)
        /\ (forall other, other ≠ uid -> users db' !! other = users db !! other)).
Proof.
  intros Hu. split.
  - intros this Ha Hm. by apply district_admin_assignment.
  - intros this d Ha Hm Hd. by apply sector_admin_assignment.
Qed.


End WithLibrary.

Lemma admin_assignment_sets_role_and_own_level_witness :
  exists db' u',
    DistrictModel.pre_save true
      {| DistrictModel._id := "d-kgl"; DistrictModel.admin := Some "u1";
         DistrictModel.isNew := false; DistrictModel.modifiedPaths := ["admin"] |}
      Sample.db
    = Proceed ({| DistrictModel._id := "d-kgl"; DistrictModel.admin := Some "u1";
                  DistrictModel.isNew := false;
                  DistrictModel.modifiedPaths := ["admin"] |}, db')
    /\ users db' !! "u1" = Some u'
    /\ role u' = "district_admin"
    /\ hierarchy u' = {| h_district := Some "d-kgl"; h_sector := Some "s-remera";
                         h_cell := Some "c-rukiri" |}.
Proof.
  assert (users Sample.db !! "u1" = Some Sample.member_user) as Hu
    by (vm_compute; reflexivity).
  destruct (proj1 (admin_assignment_sets_role_and_own_level true Sample.db "u1"
                     Sample.member_user Hu)
              {| DistrictModel._id := "d-kgl"; DistrictModel.admin := Some "u1";
                 DistrictModel.isNew := false;
                 DistrictModel.modifiedPaths := ["admin"] |} eq_refl eq_refl)
    as (db' & u' & Hrun & Hl & Hr & Hd & Hs & Hc & _).
  exists db', u'. split; [exact Hrun|]. split; [exact Hl|]. split; [exact Hr|].
  destruct u' as [r [hd hs hc] g la lu]. cbn in Hd, Hs, Hc. cbn.
  by rewrite Hd, Hs, Hc.
Defined.

End CascadeFrameSpec.

Module RateLimitKeysSpec.
Import Auth Sequences.

Local Open Scope Z_scope.

Section Limiter.
Variables (windowMs max : Z).

Lemma step_reads_own_key r1 r2 key now :
  stored r1 key = stored r2 key ->
  fst (rateLimitSensitive windowMs max r1 key now)
  = fst (rateLimitSensitive windowMs max r2 key now)
  /\ stored (snd (rateLimitSensitive windowMs max r1 key now)) key
     = stored (snd (rateLimitSensitive windowMs max r2 key now)) key.
Proof.
  intros Heq.
  rewrite !RateLimitSpec.step_decision, !RateLimitSpec.step_stored_key.
  unfold validRequests. by rewrite Heq.
Qed.

Lemma requests_of_cons key k now rest :
  requests_of key ((k, now) :: rest)
  = if String.eqb k key then (k, now) :: requests_of key rest
    else requests_of key rest.
Proof. reflexivity. Qed.

Lemma serve_reads_own_key key reqs :
  forall r1 r2,
    stored r1 key = stored r2 key ->
    decisions_of key reqs (fst (serve windowMs max r1 reqs))
    = fst (serve windowMs max r2 (requests_of key reqs)).
Proof.
  induction reqs as [|[k now] rest IH]; intros r1 r2 Heq; [done|].
  rewrite requests_of_cons. cbn [serve].
  destruct (rateLimitSensitive windowMs max r1 k now) as [d r1'] eqn:E1.
  destruct (serve windowMs max r1' rest) as [ds f1] eqn:Es1.
  cbn [fst decisions_of].
  destruct (String.eqb_spec k key) as [->|Hne].
  - cbn [serve].
    destruct (rateLimitSensitive windowMs max r2 key now) as [d2 r2'] eqn:E2.
    destruct (serve windowMs max r2' (requests_of key rest)) as [ds2 f2] eqn:Es2.
    cbn [fst].
    destruct (step_reads_own_key r1 r2 key now Heq) as [Hd Hs].
    rewrite E1, E2 in Hd, Hs. cbn [fst snd] in Hd, Hs. subst d2.
    f_equal. specialize (IH r1' r2' Hs). by rewrite Es1, Es2 in IH.
  - assert (stored r1' key = stored r2 key) as Hs.
    { rewrite <- Heq.
      pose proof (RateLimitSpec.step_stored_other windowMs max r1 k now key) as H.
      rewrite E1 in H. apply H. congruence. }
    specialize (IH r1' r2 Hs). by rewrite Es1 in IH.
Qed.

(** X5. The limiter treats every key on its own: over any sequence of requests,
    the decisions taken on the requests of one key are the decisions the
    limiter would take if the requests of the other keys had never arrived.
    One client can neither use up nor free the allowance of another. *)
Theorem keys_are_limited_independently (key : string) (reqs : list Request) :
  decisions_of key reqs (fst (serve windowMs max ∅ reqs))
  = fst (serve windowMs max ∅ (requests_of key reqs)).
Proof. by apply serve_reads_own_key. Qed.

Lemma count_in_window_quiet now (l : list Z) :
  (forall t, In t l -> t + windowMs <= now) ->
  count_in_window windowMs now l = 0.
Proof.
  unfold count_in_window. induction l as [|x l IHl]; intros Hquiet; [done|].
  cbn [List.filter].
  assert (in_window windowMs now x = false) as ->.
  { apply not_true_is_false. rewrite RateLimitSpec.in_window_true.
    specialize (Hquiet x (or_introl eq_refl)). lia. }
  apply IHl. intros t Ht. apply Hquiet. by right.
Qed.

(** X6. With a positive allowance, a request is admitted whenever every request
    of its key admitted so far is at least [windowMs] old: a rejected client
    is served again once its window has passed, and rejected requests do not
    count against it. *)
Theorem quiet_key_is_admitted_again start pre key now :
  0 < max ->
  clock_monotone start (pre ++ [(key, now)]) ->
  (forall t, In t (passed_times key pre (fst (serve windowMs max ∅ pre))) ->
             t + windowMs <= now) ->
  fst (rateLimitSensitive windowMs max (snd (serve windowMs max ∅ pre)) key now)
  = Passed.
Proof.
  intros Hmax Hmono Hquiet.
  assert (0 <= max) as Hnn by lia.
  apply RateLimitSpec.clock_monotone_app in Hmono as [Hpre Hle].
  pose proof (RateLimitSpec.reachable_inv windowMs max Hnn start pre Hpre key) as Hinv.
  pose proof (RateLimitSpec.inv_valid_count windowMs max _ now _ _ Hle Hinv) as Hcount.
  rewrite RateLimitSpec.step_decision. unfold validRequests. rewrite Hcount.
  rewrite count_in_window_quiet by done.
  assert (Z.geb 0 max = false) as -> by (rewrite Z.geb_leb; apply Z.leb_gt; lia).
  done.
Qed.

End Limiter.

Lemma quiet_key_is_admitted_again_witness :
  fst (rateLimitSensitive 10 2
         (snd (serve 10 2 ∅ [("10.0.0.7u1", 0); ("10.0.0.7u1", 3);
                             ("10.0.0.7u1", 5)]))
         "10.0.0.7u1" 13)
  = Passed.
Proof.
  apply (quiet_key_is_admitted_again 10 2 0).
  - lia.
  - simpl. lia.
  - vm_compute. intros t [<-|[<-|[]]]; discriminate.
Defined.

End RateLimitKeysSpec.

Module LockoutSequenceSpec.
Import UserModel Sequences.

Local Open Scope Z_scope.

Lemma failed_logins_snoc times t u :
  failed_logins (times ++ [t]) u = incLoginAttempts (failed_logins times u) t.
Proof. unfold failed_logins. by rewrite foldl_app. Qed.

Lemma failed_logins_below_threshold times :
  forall u,
    lockUntil u = None ->
    loginAttempts u + Z.of_nat (length times) < 5 ->
    lockUntil (failed_logins times u) = None
    /\ loginAttempts (failed_logins times u)
       = loginAttempts u + Z.of_nat (length times).
Proof.
  induction times as [|t times IH] using rev_ind; intros u Hl Hc.
  - simpl. split; [done|lia].
  - rewrite length_app in Hc. simpl in Hc.
    rewrite failed_logins_snoc, length_app. cbn [length].
    destruct (IH u Hl) as [Hl' Hc']; [lia|].
    destruct (LockoutSpec.incLoginAttempts_only_counts (failed_logins times u) t)
      as [Hn Hk].
    + unfold lock_expired. by rewrite Hl'.
    + left. lia.
    + rewrite Hn, Hk, Hl', Hc'. split; [done|lia].
Qed.

(** X16. Counted from a successful login ([resetLoginAttempts]), fewer than five
    failed logins leave the account unlocked, whatever the clock shows at
    each of them, and the fifth failure locks it for two hours from the
    moment it happens. *)
Theorem fifth_failure_after_reset_locks (u : User) (times : list Z) :
  let v := failed_logins times (resetLoginAttempts u) in
  (length times < 5)%nat ->
  lockUntil v = None
  /\ loginAttempts v = Z.of_nat (length times)
  /\ (forall now, isLocked v now = false)
  /\ (length times = 4%nat ->
      forall now,
        lockUntil (incLoginAttempts v now) = Some (now + 2 * 60 * 60 * 1000)
        /\ loginAttempts (incLoginAttempts v now) = 5
        /\ forall t, t < now + 2 * 60 * 60 * 1000 ->
                     isLocked (incLoginAttempts v now) t = true).
Proof.
  intros v Hlen.
  destruct (failed_logins_below_threshold times (resetLoginAttempts u))
    as [Hl Hc]; [done | simpl; lia |].
  fold v in Hl, Hc. simpl in Hc.
  split; [done|]. split; [done|]. split.
  - intros now. unfold isLocked. by rewrite Hl.
  - intros H4 now. unfold incLoginAttempts, incLoginAttempts_update, lock_expired,
      isLocked. rewrite Hl, Hc, H4.
    cbn. split; [done|]. split; [rewrite Hc, H4; done|].
    intros t Ht. apply Z.gtb_lt. unfold lock_time. lia.
Qed.

Lemma fifth_failure_after_reset_locks_witness :
  lockUntil (failed_logins [10; 20; 30; 40]
               (resetLoginAttempts Sample.four_failures)) = None
  /\ lockUntil (incLoginAttempts
                  (failed_logins [10; 20; 30; 40]
                     (resetLoginAttempts Sample.four_failures)) 50)
     = Some 7200050.
Proof.
  destruct (fifth_failure_after_reset_locks Sample.four_failures [10; 20; 30; 40])
    as (H1 & _ & _ & H4); [simpl; lia|].
  split; [exact H1|].
  exact (proj1 (H4 eq_refl 50)).
Defined.

(** X17. Failed logins on a locked account do not extend the lock: while the
    clock is before [lockUntil], each failure only increments the counter
    and the lock still ends at the time first set; the first failure after
    that time sets the counter to 1 and removes the lock. *)
Theorem failures_while_locked_keep_lock_end (u : User) (t : Z) (times : list Z) :
  lockUntil u = Some t ->
  Forall (fun now => now < t) times ->
  let v := failed_logins times u in
  lockUntil v = Some t
  /\ loginAttempts v = loginAttempts u + Z.of_nat (length times)
  /\ (forall now, isLocked v now = true <-> now < t)
  /\ (forall now, t < now ->
        loginAttempts (incLoginAttempts v now) = 1
        /\ lockUntil (incLoginAttempts v now) = None).
Proof.
  intros Hl Hall v.
  assert (lockUntil v = Some t
          /\ loginAttempts v = loginAttempts u + Z.of_nat (length times))
    as [Hlv Hcv].
  { subst v. induction times as [|x times IH] using rev_ind.
    - simpl. split; [done|lia].
    - apply Forall_app in Hall as [Hall Hx].
      apply Forall_inv in Hx.
      destruct (IH Hall) as [Hl' Hc'].
      rewrite failed_logins_snoc, length_app. cbn [length].
      destruct (LockoutSpec.incLoginAttempts_only_counts (failed_logins times u) x)
        as [Hn Hk].
      + unfold lock_expired. rewrite Hl'. apply Z.ltb_ge. lia.
      + right. by eapply LockoutSpec.isLocked_until.
      + rewrite Hn, Hk, Hl', Hc'. split; [done|lia]. }
  split; [done|]. split; [done|]. split.
  - intros now. unfold isLocked. rewrite Hlv. rewrite Z.gtb_ltb. apply Z.ltb_lt.
  - intros now Hlt. unfold incLoginAttempts, incLoginAttempts_update, lock_expired.
    rewrite Hlv. assert (Z.ltb t now = true) as -> by (apply Z.ltb_lt; lia).
    done.
Qed.

Lemma failures_while_locked_keep_lock_end_witness :
  lockUntil (failed_logins [200; 300; 999] Sample.expired_lock) = Some 1000.
Proof.
  refine (proj1 (failures_while_locked_keep_lock_end
                   Sample.expired_lock 1000 [200; 300; 999] eq_refl _)).
  repeat constructor.
Defined.

End LockoutSequenceSpec.

Module AuditLogSpec.
Import Validation AuditLog.

Lemma required_nil msg present : required msg present = [] <-> present = true.
Proof. unfold required. destruct present; split; done. Qed.

Lemma in_enum_nil path enum s :
  in_enum path enum (Some s) = [] <-> s ∈ enum.
Proof.
  unfold in_enum. case_bool_decide; split; done.
Qed.

Lemma maxlength_nil path n s :
  maxlength path n (Some s) = [] <-> (String.length s <= n)%nat.
Proof.
  unfold maxlength. destruct (Nat.leb_spec (String.length s) n); split;
    try done; lia.
Qed.

Lemma first_failure_nil (a b : list string) :
  first_failure [a; b] = [] <-> a = [] /\ b = [].
Proof. destruct a, b; simpl; split; (done || by intros []). Qed.

(** X19. [AuditLog.logAction] stores an entry exactly when the entry, with
    [action] and [resourceType] trimmed by the schema's setters, passes the
    schema: a trimmed action that is non-empty and has at most 100
    characters, a trimmed resource type of the enumeration, a resource id,
    a performer, a severity of the enumeration and a description of at most
    500 characters. Then the entry, holding the trimmed action and resource
    type, is appended to the log and the earlier entries are kept; otherwise
    the promise rejects with the validators' messages and nothing is
    stored. *)
Theorem logAction_stores_iff_schema_satisfied
    (act rtype : string) (rid by_ : option Id) (bef aft chg : option string)
    (meta : list (string * option string)) (sev desc : string)
    (ip ua : option string) (log : list Doc) :
  let doc := {| action := Some (trim act); resourceType := Some (trim rtype);
                resourceId := rid; performedBy := by_;
                before := bef; after := aft; changes := chg;
                metadata := meta; severity := sev; description := desc;
                ipAddress := ip; userAgent := ua |} in
  let ok := trim act ≠ "" /\ (String.length (trim act) <= 100)%nat
            /\ trim rtype ∈ resourceType_enum
            /\ is_Some rid /\ is_Some by_
            /\ sev ∈ severity_enum /\ (String.length desc <= 500)%nat in
  let result := logAction act rtype rid by_ bef aft chg meta sev desc ip ua log in
  (ok <-> result = Resolved (log ++ [doc])%list)
  /\ (ok \/ exists reason, reason ≠ [] /\ result = Rejected reason).
Proof.
  intros doc ok result.
  assert (validate doc = [] <-> ok) as Hv.
  { unfold validate, ok, doc. cbn [action resourceType resourceId performedBy
      severity description].
    rewrite !app_nil, !first_failure_nil, !required_nil, !in_enum_nil,
      !maxlength_nil, !bool_decide_eq_true,
      ValidationSpec.truthy_spec, ValidationSpec.truthy_spec.
    split.
    - intros (((s & [= <-] & Hs) & Hlen) & ((s' & [= <-] & Hs') & He)
              & Hr & Hb & Hsev & Hd).
      done.
    - intros (Hs & Hlen & He & Hr & Hb & Hsev & Hd).
      repeat split; try done; [by eexists|].
      eexists. split; [done|]. intros Heq. rewrite Heq in He.
      apply (bool_decide_pack _) in He. vm_compute in He. done. }
  unfold result, logAction, create.
  change (cast _) with doc. cbv zeta.
  destruct (validate doc) as [|e errs] eqn:Ev.
  - split; [|left; by apply Hv]. split; [done|]. intros _. by apply Hv.
  - split; [|right; exists (e :: errs); done].
    split; [|done]. intros Hok. apply Hv in Hok. done.
Qed.

(** The setters at work: an action of blanks is refused as missing, and a
    padded resource type is stored without the padding. *)
Example logAction_trims_before_validating :
  logAction "   " "user" (Some "r1") (Some "u1") None None None [] "info" ""
    None None []
  = Rejected ["Action is required"]
  /\ resourceType
       <$> match logAction "LOGIN" " user " (Some "r1") (Some "u1") None None
                   None [] "info" "" None None [] with
           | Resolved [entry] => Some entry
           | _ => None
           end
     = Some (Some "user").
Proof. split; vm_compute; reflexivity. Qed.

End AuditLogSpec.

Module ErrorResponseSpec.
Import ErrorHandler Sequences.

Local Open Scope Z_scope.

Lemma status_or_500_nonzero error : status_or_500 error ≠ 0.
Proof.
  unfold status_or_500. destruct (view_statusCode error) as [[| |]|]; done.
Qed.

Lemma message_or_default_nonempty error : message_or_default error ≠ Msg "".
Proof.
  unfold message_or_default.
  destruct (view_message error) as [[[|a s]|l]|]; done.
Qed.

Lemma normalise_recognised err error :
  recognised err = true ->
  normalise err = Some error ->
  view_statusCode error ∈ [Some 400; Some 401; Some 404]
  /\ exists m, view_message error = Some m /\ m ∈ fixed_messages err.
Proof.
  unfold recognised, normalise, override, fixed_messages.
  destruct (String.eqb (name err) "CastError"),
    (code_is_num (code err) 11000),
    (String.eqb (name err) "ValidationError"),
    (errors err) as [messages|],
    (String.eqb (name err) "JsonWebTokenError"),
    (String.eqb (name err) "TokenExpiredError"),
    (code_is_str (code err) "LIMIT_FILE_SIZE"),
    (code_is_str (code err) "LIMIT_UNEXPECTED_FILE");
    cbn [orb mbind option_bind default]; intros H; try discriminate H;
    intros [= <-]; cbn [view_statusCode view_message];
    (split; [repeat constructor | eexists; split; [reflexivity | repeat constructor]]).
Qed.

Lemma normalise_unrecognised err :
  recognised err = false ->
  normalise err
  = Some {| view_message := message err; view_statusCode := statusCode err |}.
Proof.
  unfold recognised, normalise, override.
  destruct (String.eqb (name err) "CastError"),
    (code_is_num (code err) 11000),
    (String.eqb (name err) "ValidationError"),
    (String.eqb (name err) "JsonWebTokenError"),
    (String.eqb (name err) "TokenExpiredError"),
    (code_is_str (code err) "LIMIT_FILE_SIZE"),
    (code_is_str (code err) "LIMIT_UNEXPECTED_FILE");
    cbn [orb]; intros H; try discriminate H; reflexivity.
Qed.

(** A ValidationError that carries no [errors] object is never answered:
    reading the messages throws before anything is logged or sent. *)
Lemma errorHandler_throws_without_errors development err req log :
  name err = "ValidationError" ->
  errors err = None ->
  errorHandler development err req log
  = (Unhandled ["Cannot convert undefined or null to object"], log).
Proof.
  intros Hn He. unfold errorHandler, normalise. rewrite Hn, He. reflexivity.
Qed.

(** X18. Every response the error handler sends is a failure response with a
    status and a message: the status is never 0 and the message never the
    empty string; the stack trace is included in development only. An error
    of the database layer, the token library or the upload library is
    answered with 400, 401 or 404 and one of the handler's own messages,
    whatever status and message the error carried; any other error is
    answered with its own status and message, or with 500 and
    [Server Error] where it has none. The audit log is left as it was or
    grows by one entry. *)
Theorem errorHandler_response_shape development err req log r log' :
  errorHandler development err req log = (Sent r, log') ->
  success r = false
  /\ status r ≠ 0
  /\ body_message r ≠ Msg ""
  /\ body_stack r = (if development then stack err else None)
  /\ (recognised err = true ->
        status r ∈ [400; 401; 404] /\ body_message r ∈ fixed_messages err)
  /\ (recognised err = false ->
        status r = default 500 (statusCode err ≫= fun st =>
                                  if Z.eqb st 0 then None else Some st)
        /\ body_message r = match message err with
                            | Some (Msg "") | None => Msg "Server Error"
                            | Some m => m
                            end)
  /\ (log' = log \/ exists doc, log' = (log ++ [doc])%list).
Proof.
  intros Hrun.
  assert (exists error, normalise err = Some error
            /\ r = respond development err error
            /\ (log' = log \/ exists doc, log' = (log ++ [doc])%list))
    as (error & Hnorm & -> & Hlog).
  { unfold errorHandler in Hrun.
    destruct (normalise err) as [error|]; [|discriminate].
    exists error. split; [done|]. destruct (user req) as [uid|].
    - unfold AuditLog.logAction, AuditLog.create in Hrun. cbv zeta in Hrun.
      destruct (AuditLog.validate _); inversion Hrun; subst; eauto.
    - inversion Hrun; subst; eauto. }
  unfold respond. cbn [success status body_message body_stack].
  split; [done|]. split; [apply status_or_500_nonzero|].
  split; [apply message_or_default_nonempty|]. split; [done|].
  split; [|split; [|done]].
  - intros Hrec.
    destruct (normalise_recognised err error Hrec Hnorm) as [Hst (m & Hm & Hin)].
    unfold status_or_500, message_or_default. rewrite Hm. split.
    + destruct (view_statusCode error) as [st|].
      * rewrite !elem_of_cons, elem_of_nil in Hst.
        destruct Hst as [[= ->]|[[= ->]|[[= ->]|[]]]]; repeat constructor.
      * rewrite !elem_of_cons, elem_of_nil in Hst. naive_solver.
    + unfold fixed_messages in Hin. rewrite !elem_of_cons, elem_of_nil in Hin.
      destruct Hin as [->|[->|[->|[->|[->|[->|[->|[]]]]]]]];
        unfold fixed_messages; repeat constructor.
  - intros Hrec. rewrite (normalise_unrecognised err Hrec) in Hnorm.
    injection Hnorm as <-.
    unfold status_or_500, message_or_default. cbn [view_statusCode view_message].
    split; [|done].
    destruct (statusCode err) as [[| |]|]; done.
Qed.

Lemma errorHandler_response_shape_witness :
  success (respond false
             {| name := "CastError"; code := None;
                message := Some (Msg "Cast failed"); statusCode := None;
                stack := Some "at x"; errors := None |}
             {| view_message := Some (Msg "Resource not found");
                view_statusCode := Some 404 |}) = false.
Proof.
  exact (proj1
    (errorHandler_response_shape false
       {| name := "CastError"; code := None;
          message := Some (Msg "Cast failed"); statusCode := None;
          stack := Some "at x"; errors := None |}
       {| user := None; originalUrl := "/api/users/1"; method := "GET";
          ip := Some "10.0.0.7"; get_User_Agent := None |}
       [] _ [] eq_refl)).
Defined.

End ErrorResponseSpec.
